(** * useWebSocket: the connection manager of src/hooks/useWebSocket.ts

    A shallow embedding of the hook's handlers ([connect], [handleOpen],
    [handleMessage], [handleError], [handleClose], [sendMessage],
    [reconnect] and the unmount cleanup) as functions on an explicit
    state, together with the part of the browser they talk to: WebSocket
    objects with their ready state and listeners, and the table of pending
    timers.

    The browser side follows the WebSocket interface of the HTML standard:
    [close()] moves a connecting or open socket to CLOSING at once and the
    close event arrives in a later task; [send()] throws while CONNECTING
    and flags the socket as full, closing it, when a frame cannot be
    buffered. The event loop runs one task to completion at a time
    ([step]); the options of the hook are fixed for its lifetime.

    Numbers are modelled as integers ([Z]): [maxRetries], [retryDelay] and
    the retry counter are integral in every use the hook makes of them, and
    the delay [retryDelay * 2^(retries-1)] is taken exactly. *)

From Stdlib Require Import ZArith String Lia.
From stdpp Require Import base list strings gmap.

Open Scope string_scope.
Open Scope list_scope.

(** ** Data *)

(** [enum WebSocketState]: the React state the hook exposes. *)
Module WebSocketState.
Inductive t := CONNECTING | OPEN | CLOSING | CLOSED.
End WebSocketState.

(** A message handed to [sendMessage] has type [unknown]: either
    [undefined] or a value, identified here with its JSON text. *)
Inductive JsValue :=
| undefined
| json (text : string).

(** [JSON.stringify] followed by the string conversion of [ws.send]. *)
Definition JSON_stringify (v : JsValue) : string :=
  match v with
  | undefined => "undefined"
  | json text => text
  end.

(** What a timer does when it fires: the connect-timeout closure of the
    attempt on handle [ws], or the retry closure [connectRef.current?.()]. *)
Inductive Callback :=
| connectionTimeout (ws : nat)
| retry.

Record Timer := { callback : Callback; delay : Z }.

(** The part of the browser the hook depends on. *)
Record UserAgent := {
  (** [new WebSocket(url)]: [Some msg] when the constructor throws. *)
  constructor_throws : string -> option string;
  (** whether a frame can still be buffered, given the frames already
      handed to the socket; when it cannot the socket is flagged as full
      and its connection is closed *)
  buffers : list string -> string -> bool;
  (** [JSON.parse]: [None] when it throws *)
  JSON_parse : string -> option string
}.

(** The browser's WebSocket object, as far as the hook observes it, with
    the [connectionTimeoutId] of the [connect] call that created it. *)
Module WebSocket.
Inductive ReadyState := CONNECTING | OPEN | CLOSING | CLOSED.

Record t := {
  readyState : ReadyState;
  (** the four listeners of [connect] are added together and removed
      together *)
  listeners : bool;
  connectionTimeoutId : nat;
  (** frames accepted for transmission, oldest first *)
  sent : list string
}.

Definition set_readyState (r : ReadyState) (w : t) : t :=
  {| readyState := r; listeners := listeners w;
     connectionTimeoutId := connectionTimeoutId w; sent := sent w |}.

Definition set_listeners (b : bool) (w : t) : t :=
  {| readyState := readyState w; listeners := b;
     connectionTimeoutId := connectionTimeoutId w; sent := sent w |}.

Definition set_sent (l : list string) (w : t) : t :=
  {| readyState := readyState w; listeners := listeners w;
     connectionTimeoutId := connectionTimeoutId w; sent := l |}.

Definition is_open (w : t) : bool :=
  match readyState w with OPEN => true | _ => false end.

Definition is_connecting (w : t) : bool :=
  match readyState w with CONNECTING => true | _ => false end.

Definition is_closed (w : t) : bool :=
  match readyState w with CLOSED => true | _ => false end.

(** [ws.close()]: nothing on a closing or closed socket, otherwise the
    ready state becomes CLOSING at once; the close event comes later. *)
Definition close (w : t) : t :=
  match readyState w with
  | CONNECTING | OPEN => set_readyState CLOSING w
  | CLOSING | CLOSED => w
  end.

(** [ws.send(data)]: throws while CONNECTING, transmits while OPEN
    unless the buffer is full, and is silent otherwise. A frame that
    cannot be buffered is not transmitted and the browser closes the
    connection; the model shows the socket as CLOSING from that call
    on, where a browser may let the ready state follow in a later
    task. Either way nothing more is transmitted on the socket. *)
Definition send (ua : UserAgent) (data : string) (w : t) : t + string :=
  match readyState w with
  | CONNECTING => inr "InvalidStateError"
  | OPEN =>
      if buffers ua (sent w) data
      then inl (set_sent (sent w ++ [data]) w)
      else inl (set_readyState CLOSING w)
  | CLOSING | CLOSED => inl w
  end.

(** A freshly constructed socket with the listeners of [connect]. *)
Definition new (timeoutId : nat) : t :=
  {| readyState := CONNECTING; listeners := true;
     connectionTimeoutId := timeoutId; sent := [] |}.
End WebSocket.

(** Calls the hook makes to its consumer and to the timer API. *)
Inductive Effect :=
| onConnect
| onDisconnect
| onError (message : string)
| onMessage (data : string)
| setTimeout_called (cb : Callback) (ms : Z).

Record Options := {
  url : string;
  maxRetries : Z;
  retryDelay : Z;
  shouldReconnect : bool
}.

(** The defaults of the destructuring in the hook. *)
Definition default_options (u : string) : Options :=
  {| url := u; maxRetries := 5; retryDelay := 1000; shouldReconnect := true |}.

(** The hook's [useState] and [useRef] cells, the sockets created so far
    (a handle is its index), the pending timers and the trace of effects. *)
Record State := {
  state : WebSocketState.t;
  lastMessage : option string;
  error : option string;
  webSocketRef : option nat;
  retriesRef : Z;
  retryTimeoutRef : option nat;
  messageQueueRef : list JsValue;
  connectRef : bool;
  sockets : list WebSocket.t;
  timers : list (nat * Timer);
  nextTimer : nat;
  log : list Effect
}.

Definition wsError : string := "WebSocket connection failed - using mock data".
Definition maxRetriesError : string :=
  "Real-time updates unavailable - demo mode active".

(** ** Field updates *)

Definition setState (v : WebSocketState.t) (s : State) : State :=
  {| state := v; lastMessage := lastMessage s; error := error s;
     webSocketRef := webSocketRef s; retriesRef := retriesRef s;
     retryTimeoutRef := retryTimeoutRef s;
     messageQueueRef := messageQueueRef s; connectRef := connectRef s;
     sockets := sockets s; timers := timers s; nextTimer := nextTimer s;
     log := log s |}.

Definition setLastMessage (v : option string) (s : State) : State :=
  {| state := state s; lastMessage := v; error := error s;
     webSocketRef := webSocketRef s; retriesRef := retriesRef s;
     retryTimeoutRef := retryTimeoutRef s;
     messageQueueRef := messageQueueRef s; connectRef := connectRef s;
     sockets := sockets s; timers := timers s; nextTimer := nextTimer s;
     log := log s |}.

Definition setError (v : option string) (s : State) : State :=
  {| state := state s; lastMessage := lastMessage s; error := v;
     webSocketRef := webSocketRef s; retriesRef := retriesRef s;
     retryTimeoutRef := retryTimeoutRef s;
     messageQueueRef := messageQueueRef s; connectRef := connectRef s;
     sockets := sockets s; timers := timers s; nextTimer := nextTimer s;
     log := log s |}.

Definition set_webSocketRef (v : option nat) (s : State) : State :=
  {| state := state s; lastMessage := lastMessage s; error := error s;
     webSocketRef := v; retriesRef := retriesRef s;
     retryTimeoutRef := retryTimeoutRef s;
     messageQueueRef := messageQueueRef s; connectRef := connectRef s;
     sockets := sockets s; timers := timers s; nextTimer := nextTimer s;
     log := log s |}.

Definition set_retriesRef (v : Z) (s : State) : State :=
  {| state := state s; lastMessage := lastMessage s; error := error s;
     webSocketRef := webSocketRef s; retriesRef := v;
     retryTimeoutRef := retryTimeoutRef s;
     messageQueueRef := messageQueueRef s; connectRef := connectRef s;
     sockets := sockets s; timers := timers s; nextTimer := nextTimer s;
     log := log s |}.

Definition set_retryTimeoutRef (v : option nat) (s : State) : State :=
  {| state := state s; lastMessage := lastMessage s; error := error s;
     webSocketRef := webSocketRef s; retriesRef := retriesRef s;
     retryTimeoutRef := v;
     messageQueueRef := messageQueueRef s; connectRef := connectRef s;
     sockets := sockets s; timers := timers s; nextTimer := nextTimer s;
     log := log s |}.

Definition set_messageQueueRef (v : list JsValue) (s : State) : State :=
  {| state := state s; lastMessage := lastMessage s; error := error s;
     webSocketRef := webSocketRef s; retriesRef := retriesRef s;
     retryTimeoutRef := retryTimeoutRef s;
     messageQueueRef := v; connectRef := connectRef s;
     sockets := sockets s; timers := timers s; nextTimer := nextTimer s;
     log := log s |}.

Definition set_connectRef (v : bool) (s : State) : State :=
  {| state := state s; lastMessage := lastMessage s; error := error s;
     webSocketRef := webSocketRef s; retriesRef := retriesRef s;
     retryTimeoutRef := retryTimeoutRef s;
     messageQueueRef := messageQueueRef s; connectRef := v;
     sockets := sockets s; timers := timers s; nextTimer := nextTimer s;
     log := log s |}.

Definition set_sockets (v : list WebSocket.t) (s : State) : State :=
  {| state := state s; lastMessage := lastMessage s; error := error s;
     webSocketRef := webSocketRef s; retriesRef := retriesRef s;
     retryTimeoutRef := retryTimeoutRef s;
     messageQueueRef := messageQueueRef s; connectRef := connectRef s;
     sockets := v; timers := timers s; nextTimer := nextTimer s;
     log := log s |}.

Definition set_timers (v : list (nat * Timer)) (s : State) : State :=
  {| state := state s; lastMessage := lastMessage s; error := error s;
     webSocketRef := webSocketRef s; retriesRef := retriesRef s;
     retryTimeoutRef := retryTimeoutRef s;
     messageQueueRef := messageQueueRef s; connectRef := connectRef s;
     sockets := sockets s; timers := v; nextTimer := nextTimer s;
     log := log s |}.

Definition set_nextTimer (v : nat) (s : State) : State :=
  {| state := state s; lastMessage := lastMessage s; error := error s;
     webSocketRef := webSocketRef s; retriesRef := retriesRef s;
     retryTimeoutRef := retryTimeoutRef s;
     messageQueueRef := messageQueueRef s; connectRef := connectRef s;
     sockets := sockets s; timers := timers s; nextTimer := v;
     log := log s |}.

Definition emit (e : Effect) (s : State) : State :=
  {| state := state s; lastMessage := lastMessage s; error := error s;
     webSocketRef := webSocketRef s; retriesRef := retriesRef s;
     retryTimeoutRef := retryTimeoutRef s;
     messageQueueRef := messageQueueRef s; connectRef := connectRef s;
     sockets := sockets s; timers := timers s; nextTimer := nextTimer s;
     log := log s ++ [e] |}.

(** ** Browser primitives on the state *)

(** The socket behind handle [i]. *)
Definition socket (i : nat) (s : State) : option WebSocket.t :=
  sockets s !! i.

(** Apply a method to the socket behind handle [i]. *)
Definition on_socket (i : nat) (f : WebSocket.t -> WebSocket.t) (s : State)
  : State :=
  match socket i s with
  | Some w => set_sockets (<[i := f w]> (sockets s)) s
  | None => s
  end.

(** [webSocketRef.current], dereferenced. *)
Definition current (s : State) : option WebSocket.t :=
  match webSocketRef s with
  | Some i => socket i s
  | None => None
  end.

(** [setTimeout(cb, ms)]: a fresh positive id; the call is traced. *)
Definition setTimeout (cb : Callback) (ms : Z) (s : State) : nat * State :=
  let id := nextTimer s in
  (id,
   emit (setTimeout_called cb ms)
     (set_nextTimer (S id)
        (set_timers (timers s ++ [(id, {| callback := cb; delay := ms |})]) s))).

(** [clearTimeout(id)]: harmless when the timer has fired or was cleared. *)
Definition clearTimeout (id : nat) (s : State) : State :=
  set_timers (List.filter (fun p => negb (Nat.eqb (fst p) id)) (timers s)) s.

Definition pending (id : nat) (s : State) : option Timer :=
  snd <$> List.find (fun p => Nat.eqb (fst p) id) (timers s).

Definition is_retry (t : Timer) : bool :=
  match callback t with retry => true | connectionTimeout _ => false end.

Definition initial : State :=
  {| state := WebSocketState.CLOSED; lastMessage := None; error := None;
     webSocketRef := None; retriesRef := 0; retryTimeoutRef := None;
     messageQueueRef := []; connectRef := false;
     sockets := []; timers := []; nextTimer := 1; log := [] |}.

(** ** The hook *)

Section Hook.

Variable ua : UserAgent.
Variable opts : Options.

(** [if (id) clearTimeout(id)]: timer ids are numbers, [0] is falsy. *)
Definition clearTimeout_if (id : option nat) (s : State) : State :=
  match id with
  | Some (S n) => clearTimeout (S n) s
  | Some O | None => s
  end.

(** [if (connectionTimeoutId) clearTimeout(connectionTimeoutId)] in the
    closure of the attempt on handle [i]. *)
Definition clear_connectionTimeout (i : nat) (s : State) : State :=
  clearTimeout_if (WebSocket.connectionTimeoutId <$> socket i s) s.

(** [webSocketRef.current?.readyState === WebSocket.OPEN] *)
Definition current_is_open (s : State) : bool :=
  match current s with
  | Some w => WebSocket.is_open w
  | None => false
  end.

(** [connect], lines 91-192. *)
Definition connect (s : State) : State :=
  if current_is_open s then s
  else
    let s :=
      match webSocketRef s, current s with
      | Some i, Some w =>
          if negb (WebSocket.is_closed w)
          then on_socket i WebSocket.close s
          else s
      | _, _ => s
      end in
    let s := setState WebSocketState.CONNECTING s in
    match constructor_throws ua (url opts) with
    | Some message =>
        setState WebSocketState.CLOSED
          (emit (onError message) (setError (Some message) s))
    | None =>
        let i := length (sockets s) in
        let '(connectionTimeoutId, s) :=
          setTimeout (connectionTimeout i) 5000 s in
        let s :=
          set_sockets (sockets s ++ [WebSocket.new connectionTimeoutId]) s in
        set_webSocketRef (Some i) s
    end.

(** The [while] loop of [handleOpen], lines 123-128, on the queue [q]
    still to be shifted; [ws] is handle [i]. *)
Fixpoint drain (i : nat) (q : list JsValue) (s : State) : State :=
  match q with
  | [] => s
  | msg :: q' =>
      let s := set_messageQueueRef q' s in
      let s :=
        match msg, socket i s with
        | json text, Some w =>
            if WebSocket.is_open w then
              match WebSocket.send ua (JSON_stringify msg) w with
              | inl w' => on_socket i (fun _ => w') s
              | inr _ => s
              end
            else s
        | _, _ => s
        end in
      drain i q' s
  end.

(** [handleOpen], lines 115-131. *)
Definition handleOpen (i : nat) (s : State) : State :=
  let s := clear_connectionTimeout i s in
  let s := setState WebSocketState.OPEN s in
  let s := set_retriesRef 0 s in
  let s := setError None s in
  let s := drain i (messageQueueRef s) s in
  emit onConnect s.

(** [handleMessage], lines 133-141. *)
Definition handleMessage (data : string) (s : State) : State :=
  match JSON_parse ua data with
  | Some v => emit (onMessage v) (setLastMessage (Some v) s)
  | None => s
  end.

(** [handleError], lines 143-149. *)
Definition handleError (i : nat) (s : State) : State :=
  let s := clear_connectionTimeout i s in
  let s := setError (Some wsError) s in
  emit (onError wsError) s.

(** [handleClose], lines 151-177. *)
Definition handleClose (i : nat) (s : State) : State :=
  let s := clear_connectionTimeout i s in
  let s := setState WebSocketState.CLOSED s in
  let s := emit onDisconnect s in
  let s := on_socket i (WebSocket.set_listeners false) s in
  if shouldReconnect opts && (retriesRef s <? maxRetries opts)%Z then
    let s := set_retriesRef (retriesRef s + 1) s in
    let delay := (retryDelay opts * 2 ^ (retriesRef s - 1))%Z in
    let '(id, s) := setTimeout retry delay s in
    set_retryTimeoutRef (Some id) s
  else if shouldReconnect opts && (maxRetries opts <=? retriesRef s)%Z then
    let s := setError (Some maxRetriesError) s in
    emit (onError maxRetriesError) s
  else s.

(** [sendMessage], lines 197-211. *)
Definition sendMessage (message : JsValue) (s : State) : State :=
  match webSocketRef s, current s with
  | Some i, Some w =>
      if WebSocket.is_open w then
        match WebSocket.send ua (JSON_stringify message) w with
        | inl w' => on_socket i (fun _ => w') s
        | inr sendError =>
            emit (onError sendError) (setError (Some sendError) s)
        end
      else set_messageQueueRef (messageQueueRef s ++ [message]) s
  | _, _ => set_messageQueueRef (messageQueueRef s ++ [message]) s
  end.

(** [reconnect], lines 216-231. *)
Definition reconnect (s : State) : State :=
  let s :=
    match webSocketRef s with
    | Some i => on_socket i WebSocket.close s
    | None => s
    end in
  let s := set_retriesRef 0 s in
  let s := clearTimeout_if (retryTimeoutRef s) s in
  let s := setError None s in
  if connectRef s then connect s else s.

(** The cleanup returned by the mount effect, lines 247-255. *)
Definition cleanup (s : State) : State :=
  let s := clearTimeout_if (retryTimeoutRef s) s in
  match webSocketRef s with
  | Some i => on_socket i WebSocket.close s
  | None => s
  end.

(** The two effects run on mount, lines 236-245: store [connect] in
    [connectRef], then call it. *)
Definition mount (s : State) : State :=
  connect (set_connectRef true s).

(** The body of a timer. *)
Definition fire (cb : Callback) (s : State) : State :=
  match cb with
  | connectionTimeout i =>
      match socket i s with
      | Some w =>
          if WebSocket.is_connecting w
          then on_socket i WebSocket.close s
          else s
      | None => s
      end
  | retry => if connectRef s then connect s else s
  end.

(** ** Events

    The hook runs one task at a time: a transport event of a handle, a
    timer that fires, or a call by the consumer. *)
Inductive Event :=
| ev_open (i : nat)
| ev_message (i : nat) (data : string)
| ev_error (i : nat)
| ev_close (i : nat)
| ev_timer (id : nat)
| call_sendMessage (message : JsValue)
| call_reconnect
| ev_unmount.

(** One task. [None] when the browser cannot produce the event: the
    handle does not exist, an open event on a socket that is not
    connecting, a message on a socket that is not open or closing, a
    close event on a closed socket, a timer that is not pending. A
    handler runs only while the listeners are attached. *)
Definition step (e : Event) (s : State) : option State :=
  match e with
  | ev_open i =>
      w ← socket i s;
      if WebSocket.is_connecting w then
        let s := on_socket i (WebSocket.set_readyState WebSocket.OPEN) s in
        Some (if WebSocket.listeners w then handleOpen i s else s)
      else None
  | ev_message i data =>
      w ← socket i s;
      match WebSocket.readyState w with
      | WebSocket.OPEN | WebSocket.CLOSING =>
          Some (if WebSocket.listeners w then handleMessage data s else s)
      | _ => None
      end
  | ev_error i =>
      w ← socket i s;
      Some (if WebSocket.listeners w then handleError i s else s)
  | ev_close i =>
      w ← socket i s;
      if WebSocket.is_closed w then None
      else
        let s := on_socket i (WebSocket.set_readyState WebSocket.CLOSED) s in
        Some (if WebSocket.listeners w then handleClose i s else s)
  | ev_timer id =>
      t ← pending id s;
      Some (fire (callback t) (clearTimeout id s))
  | call_sendMessage message => Some (sendMessage message s)
  | call_reconnect => Some (reconnect s)
  | ev_unmount => Some (cleanup s)
  end.

(** A sequence of tasks. *)
Fixpoint run (es : list Event) (s : State) : option State :=
  match es with
  | [] => Some s
  | e :: es' => s' ← step e s; run es' s'
  end.

(** The state after the component has mounted. *)
Definition mounted : State := mount initial.

End Hook.

(** ** Vocabulary of the properties *)

(** The JSON texts of the queued values; a queued [undefined] has none. *)
Definition payloads (q : list JsValue) : list string :=
  omap (fun v => match v with json text => Some text | undefined => None end) q.



(** Events of a run in which no attempt succeeds and the consumer does not
    intervene: no open event, no manual reconnect, no unmount. *)
Definition failure_event (e : Event) : bool :=
  match e with
  | ev_open _ | call_reconnect | ev_unmount => false
  | _ => true
  end.

(** Transport events of handle [i]. *)
Definition of_handle (i : nat) (e : Event) : bool :=
  match e with
  | ev_open j | ev_message j _ | ev_error j | ev_close j => Nat.eqb i j
  | _ => false
  end.

(** The delays of the retry timers set so far, oldest first. *)
Definition retry_delays (l : list Effect) : list Z :=
  omap (fun e => match e with
                 | setTimeout_called retry ms => Some ms
                 | _ => None
                 end) l.

(** The backoff ladder: the [k]-th retry (from 1) waits
    [base * 2^(k-1)]. *)
Definition ladder (base : Z) (n : nat) : list Z :=
  (fun k => (base * 2 ^ (Z.of_nat k - 1))%Z) <$> seq 1 n.

(** How often the close handler has run. *)
Definition disconnects (l : list Effect) : nat :=
  length (List.filter (fun e => match e with onDisconnect => true | _ => false end) l).

(** The errors reported to the consumer. *)
Definition reported (l : list Effect) : list string :=
  omap (fun e => match e with onError m => Some m | _ => None end) l.

(** The pending retry timers. *)
Definition retry_timers (s : State) : list (nat * Timer) :=
  List.filter (fun p => is_retry (snd p)) (timers s).


(** Nothing is left to happen on its own: no retry timer is pending and
    every socket has closed. *)
Definition settled (s : State) : Prop :=
  retry_timers s = [] /\
  forall i w, socket i s = Some w -> WebSocket.is_closed w = true.

(** A manual reconnect is orderly when the current handle, if any, has
    already had its close event. *)
Definition orderly (e : Event) (s : State) : Prop :=
  e = call_reconnect ->
  forall w, current s = Some w -> WebSocket.is_closed w = true.

(** The states the mounted hook can reach. *)
Inductive reachable (ua : UserAgent) (opts : Options) : State -> Prop :=
| reachable_mounted : reachable ua opts (mounted ua opts)
| reachable_step e s s' :
    reachable ua opts s -> step ua opts e s = Some s' ->
    reachable ua opts s'.

(** The states it can reach when every manual reconnect is orderly. *)
Inductive reachable_orderly (ua : UserAgent) (opts : Options) : State -> Prop :=
| orderly_mounted : reachable_orderly ua opts (mounted ua opts)
| orderly_step e s s' :
    reachable_orderly ua opts s -> orderly e s ->
    step ua opts e s = Some s' ->
    reachable_orderly ua opts s'.

(** [connectRef] holds [connect], and timer ids are positive and below
    the next id to be issued. *)
Definition wf (s : State) : Prop :=
  connectRef s = true /\
  0 < nextTimer s /\
  (forall id t, In (id, t) (timers s) -> 0 < id < nextTimer s) /\
  (forall id, retryTimeoutRef s = Some id -> 0 < id < nextTimer s).

(** The invariant of orderly runs: a socket listens exactly until its
    close event, only the current handle can be short of closed, and a
    pending retry timer is the one in [retryTimeoutRef] and waits for no
    socket. *)
Definition inv (s : State) : Prop :=
  NoDup (fst <$> timers s) /\
  (forall i w, socket i s = Some w ->
               WebSocket.listeners w = negb (WebSocket.is_closed w)) /\
  (forall i w, socket i s = Some w -> webSocketRef s <> Some i ->
               WebSocket.is_closed w = true) /\
  (forall id t, In (id, t) (timers s) -> is_retry t = true ->
                retryTimeoutRef s = Some id /\
                forall i w, socket i s = Some w -> WebSocket.is_closed w = true).

(** The state in which [connect] constructs the socket: the prior handle
    has been closed and the state set to CONNECTING. *)
Definition connect_prepared (s : State) : State :=
  setState WebSocketState.CONNECTING
    (match webSocketRef s with
     | Some i => on_socket i WebSocket.close s
     | None => s
     end).

Arguments connect_prepared : simpl never.
Arguments on_socket : simpl never.

(** Close events, of any handle. *)
Definition is_ev_close (e : Event) : bool :=
  match e with ev_close _ => true | _ => false end.

(** [ws.send(data)] where a thrown exception leaves the socket as it is. *)
Definition transmit (ua : UserAgent) (data : string) (w : WebSocket.t)
  : WebSocket.t :=
  match WebSocket.send ua data w with
  | inl w' => w'
  | inr _ => w
  end.

(** What one iteration of the drain loop does to the socket. *)
Definition drain_one (ua : UserAgent) (msg : JsValue) (w : WebSocket.t)
  : WebSocket.t :=
  match msg with
  | json text => if WebSocket.is_open w then transmit ua text w else w
  | undefined => w
  end.

(** What the whole drain loop does to the socket. *)
Definition drain_ws (ua : UserAgent) (q : list JsValue) (w : WebSocket.t)
  : WebSocket.t :=
  fold_left (fun w msg => drain_one ua msg w) q w.

(** The browser buffers each of the frames in turn, starting from a
    socket that has already been handed [sent]. *)
Fixpoint buffers_all (ua : UserAgent) (sent frames : list string) : bool :=
  match frames with
  | [] => true
  | f :: frames' => buffers ua sent f && buffers_all ua (sent ++ [f]) frames'
  end.

(** Two sockets agree on what matters to the lifecycle: whether the
    listeners are attached and whether the close event has happened. *)
Definition same_liveness (w' w : WebSocket.t) : Prop :=
  WebSocket.listeners w' = WebSocket.listeners w /\
  WebSocket.is_closed w' = WebSocket.is_closed w.

(** The same handles exist in both states, and agree in that way. *)
Definition sockets_alike (s' s : State) : Prop :=
  forall j,
    match socket j s', socket j s with
    | Some w', Some w => same_liveness w' w
    | None, None => True
    | _, _ => False
    end.

(** A task that creates no socket, sets no timer and moves no ref. *)
Definition quiet (s s' : State) : Prop :=
  webSocketRef s' = webSocketRef s /\
  retryTimeoutRef s' = retryTimeoutRef s /\
  connectRef s' = connectRef s /\
  nextTimer s' = nextTimer s /\
  sockets_alike s' s /\
  (forall p, In p (timers s') -> In p (timers s)) /\
  (NoDup (fst <$> timers s) -> NoDup (fst <$> timers s')).

(** Every socket has had its close event. *)
Definition all_closed (s : State) : Prop :=
  forall i w, socket i s = Some w -> WebSocket.is_closed w = true.

(** No retry timer is pending. *)
Definition no_retry_pending (s : State) : Prop :=
  forall id t, In (id, t) (timers s) -> is_retry t = false.

(** The invariant of a run in which no attempt succeeds: the retry
    counter stays within the ceiling, the retry timers set so far follow
    the ladder, and once every socket has closed either a retry timer is
    pending or the retries are exhausted and reported. *)
Definition backoff_inv (opts : Options) (s : State) : Prop :=
  (0 <= retriesRef s <= maxRetries opts)%Z /\
  retry_delays (log s) = ladder (retryDelay opts) (Z.to_nat (retriesRef s)) /\
  (all_closed s ->
   (exists id t, In (id, t) (timers s) /\ is_retry t = true) \/
   (retriesRef s = maxRetries opts /\ error s = Some maxRetriesError)).


(** ** Browsers used in the examples *)

(** Accepts the URL and buffers every frame. *)
Definition reliable_agent : UserAgent :=
  {| constructor_throws := fun _ => None;
     buffers := fun _ _ => true;
     JSON_parse := fun data => Some data |}.

(** Rejects the URL: [new WebSocket(url)] throws. *)
Definition rejecting_agent : UserAgent :=
  {| constructor_throws := fun _ => Some "SyntaxError";
     buffers := fun _ _ => true;
     JSON_parse := fun data => Some data |}.

(** Buffers one frame per socket and flags the socket as full at the
    second. *)
Definition one_frame_agent : UserAgent :=
  {| constructor_throws := fun _ => None;
     buffers := fun sent _ => Nat.eqb (length sent) 0;
     JSON_parse := fun data => Some data |}.

(** The options a consumer gets when it passes only the URL. *)
Definition demo_options : Options :=
  default_options "ws://localhost:8080/api/alarms".


(** ** Further vocabulary: the hook as a whole *)

(** [isConnected] in the value the hook returns, line 261. *)
Definition isConnected (s : State) : bool :=
  match state s with
  | WebSocketState.OPEN => true
  | _ => false
  end.

(** A socket that holds a physical connection or is establishing one. *)
Definition active (w : WebSocket.t) : bool :=
  WebSocket.is_connecting w || WebSocket.is_open w.

(** What holds of the handles in every reachable state: a socket listens
    exactly until its close event, only the current handle can be
    CONNECTING or OPEN, and the connect-timeout id of an attempt is a
    timer id that has been issued. *)
Definition handles_ok (s : State) : Prop :=
  (forall i w, socket i s = Some w ->
               WebSocket.listeners w = negb (WebSocket.is_closed w)) /\
  (forall i w, socket i s = Some w -> webSocketRef s <> Some i ->
               active w = false) /\
  (forall i w, socket i s = Some w ->
               0 < WebSocket.connectionTimeoutId w < nextTimer s).

(** A change to one socket that neither attaches nor removes listeners,
    neither closes nor reopens it, and does not make it active. *)
Definition ages (w w' : WebSocket.t) : Prop :=
  WebSocket.listeners w' = WebSocket.listeners w /\
  WebSocket.is_closed w' = WebSocket.is_closed w /\
  WebSocket.connectionTimeoutId w' = WebSocket.connectionTimeoutId w /\
  (active w' = true -> active w = true) /\
  (WebSocket.is_connecting w' = true -> WebSocket.is_connecting w = true).

(** The sockets that have had their close event. *)
Definition closed_sockets (s : State) : list WebSocket.t :=
  List.filter WebSocket.is_closed (sockets s).

(** What the connected indicator promises: the current handle exists,
    still listens, and is OPEN or CLOSING. *)
Definition current_is_live (s : State) : Prop :=
  exists i w,
    webSocketRef s = Some i /\ socket i s = Some w /\
    WebSocket.listeners w = true /\
    WebSocket.is_connecting w = false /\ WebSocket.is_closed w = false.

(** Every retry delay in [l] is a step [retryDelay * 2^(k-1)] of the
    ladder with [1 <= k <= maxRetries]. *)
Definition on_ladder (opts : Options) (l : list Z) : Prop :=
  forall d, In d l ->
    exists k, (1 <= k <= maxRetries opts)%Z /\
              d = (retryDelay opts * 2 ^ (k - 1))%Z.

(** Tasks that are neither a close event, nor a timer, nor a manual
    reconnect. *)
Definition steady (e : Event) : bool :=
  match e with
  | ev_close _ | ev_timer _ | call_reconnect => false
  | _ => true
  end.

(** The values handed to [onMessage], oldest first. *)
Definition received (l : list Effect) : list string :=
  omap (fun e => match e with onMessage v => Some v | _ => None end) l.

(** What a task does to a React state cell and to the callback that goes
    with it: nothing, or a value is stored and passed to the callback. *)
Definition told {A} (cell cell' : option A) (calls calls' : list A) : Prop :=
  (cell' = cell /\ calls' = calls) \/
  (exists v, cell' = Some v /\ calls' = calls ++ [v]).

(** The same, for a cell that a task may also clear. *)
Definition told_or_cleared {A} (cell cell' : option A) (calls calls' : list A)
  : Prop :=
  told cell cell' calls calls' \/ (cell' = None /\ calls' = calls).

(** * AlarmList: the consumer of the hook

    The component of AlarmList.tsx keeps three pieces of React state, the
    alarms and two sets of alarm ids, and changes them only through
    functional updates, so each handler is a function of the state it
    finds.  The [data] of a message is read through [interface Alarm], as
    the handler's casts do, but nothing checks it: the status, which the
    page branches on, is whatever the message carried, one of the three
    declared strings or any other value.
    The clock is an input: [now] is the reading for the message a click
    sends, [clock k] the reading when an update reaches the [k]-th alarm
    of the list. *)
Module AlarmList.

Inductive Severity := low | medium | high | critical.

(** The status of an alarm as it is at run time: ['active'],
    ['acknowledged'], ['resolved'], or a value that is none of these,
    named by a text that identifies it. *)
Inductive Status :=
| active
| acknowledged
| resolved
| other (value : string).

#[global] Instance Status_eq_dec : EqDecision Status.
Proof. solve_decision. Defined.

(** One of the three statuses [interface Alarm] declares. *)
Definition declared (st : Status) : Prop :=
  match st with
  | other _ => False
  | _ => True
  end.

#[global] Instance declared_dec st : Decision (declared st).
Proof. destruct st; simpl; apply _. Defined.

(** [interface Alarm] *)
Record Alarm := {
  id : string;
  siteId : string;
  severity : Severity;
  message : string;
  status : Status;
  timestamp : string;
  type : option string;
  acknowledgedBy : option string;
  resolvedAt : option string
}.

(** [{ ...alarm, status: 'acknowledged', acknowledgedBy }] *)
Definition acknowledge (acknowledgedBy' : option string) (alarm : Alarm)
  : Alarm :=
  {| id := id alarm; siteId := siteId alarm; severity := severity alarm;
     message := message alarm; status := acknowledged;
     timestamp := timestamp alarm; type := type alarm;
     acknowledgedBy := acknowledgedBy'; resolvedAt := resolvedAt alarm |}.

(** [{ ...alarm, status: 'resolved', resolvedAt }] *)
Definition resolve (resolvedAt' : string) (alarm : Alarm) : Alarm :=
  {| id := id alarm; siteId := siteId alarm; severity := severity alarm;
     message := message alarm; status := resolved;
     timestamp := timestamp alarm; type := type alarm;
     acknowledgedBy := acknowledgedBy alarm;
     resolvedAt := Some resolvedAt' |}.

(** [interface WebSocketMessage]; the optional [timestamp] is never
    read. *)
Record WebSocketMessage := {
  event : string;
  data : Alarm
}.

(** The two closures the component passes to [setTimeout]. *)
Inductive Timeout :=
| unhighlight (alarmId : string)
| simulated_response (alarmId : string).

(** The two objects the component passes to [sendMessage]. *)
Inductive Outgoing :=
| action_acknowledge (alarmId acknowledgedBy' timestamp' : string)
| action_resolve (alarmId timestamp' : string).

Record State := {
  alarms : list Alarm;
  newAlarmIds : gset string;
  isAcknowledging : gset string;
  (** timers set and not yet fired, each with its delay in ms, oldest
      first *)
  timeouts : list (Timeout * Z);
  (** what has been handed to [sendMessage], oldest first *)
  outbox : list Outgoing
}.

Definition setAlarms (f : list Alarm -> list Alarm) (s : State) : State :=
  {| alarms := f (alarms s); newAlarmIds := newAlarmIds s;
     isAcknowledging := isAcknowledging s; timeouts := timeouts s;
     outbox := outbox s |}.

Definition setNewAlarmIds (f : gset string -> gset string) (s : State)
  : State :=
  {| alarms := alarms s; newAlarmIds := f (newAlarmIds s);
     isAcknowledging := isAcknowledging s; timeouts := timeouts s;
     outbox := outbox s |}.

Definition setIsAcknowledging (f : gset string -> gset string) (s : State)
  : State :=
  {| alarms := alarms s; newAlarmIds := newAlarmIds s;
     isAcknowledging := f (isAcknowledging s); timeouts := timeouts s;
     outbox := outbox s |}.

Definition setTimeout (cb : Timeout) (ms : Z) (s : State) : State :=
  {| alarms := alarms s; newAlarmIds := newAlarmIds s;
     isAcknowledging := isAcknowledging s;
     timeouts := timeouts s ++ [(cb, ms)]; outbox := outbox s |}.

Definition sendMessage (m : Outgoing) (s : State) : State :=
  {| alarms := alarms s; newAlarmIds := newAlarmIds s;
     isAcknowledging := isAcknowledging s; timeouts := timeouts s;
     outbox := outbox s ++ [m] |}.

(** [prev.map(alarm => alarm.id === alarmId ? update(alarm) : alarm)],
    where the update of the [k]-th alarm may read the clock. *)
Definition update_where (alarmId : string) (update : nat -> Alarm -> Alarm)
    (prev : list Alarm) : list Alarm :=
  imap (fun k alarm =>
          if String.eqb (id alarm) alarmId then update k alarm else alarm)
       prev.

(** [handleWebSocketMessage], lines 182-218. *)
Definition handleWebSocketMessage (clock : nat -> string)
    (wsMsg : WebSocketMessage) (s : State) : State :=
  if String.eqb (event wsMsg) "alarm.created" then
    let newAlarm := data wsMsg in
    let s := setAlarms (fun prev => newAlarm :: prev) s in
    let s := setNewAlarmIds (fun prev => prev ∪ {[id newAlarm]}) s in
    setTimeout (unhighlight (id newAlarm)) 3000 s
  else if String.eqb (event wsMsg) "alarm.acknowledged" then
    let alarmId := id (data wsMsg) in
    let updatedBy := acknowledgedBy (data wsMsg) in
    setAlarms (update_where alarmId (fun _ => acknowledge updatedBy)) s
  else if String.eqb (event wsMsg) "alarm.resolved" then
    let alarmId := id (data wsMsg) in
    setAlarms (update_where alarmId (fun k => resolve (clock k))) s
  else s.

(** [handleAcknowledge], lines 223-252. *)
Definition handleAcknowledge (now : string) (alarmId : string) (s : State)
  : State :=
  let s := setIsAcknowledging (fun prev => prev ∪ {[alarmId]}) s in
  let s := sendMessage (action_acknowledge alarmId "current-user" now) s in
  setTimeout (simulated_response alarmId) 500 s.

(** [handleResolve], lines 257-276. *)
Definition handleResolve (now : string) (clock : nat -> string)
    (alarmId : string) (s : State) : State :=
  let s := sendMessage (action_resolve alarmId now) s in
  setAlarms (update_where alarmId (fun k => resolve (clock k))) s.

(** [handleClearResolved], lines 281-283. *)
Definition handleClearResolved (s : State) : State :=
  setAlarms (filter (fun alarm => status alarm <> resolved)) s.

(** What a timer does when it fires: lines 191-197 and 236-249. *)
Definition fire (cb : Timeout) (s : State) : State :=
  match cb with
  | unhighlight alarmId =>
      setNewAlarmIds (fun prev => prev ∖ {[alarmId]}) s
  | simulated_response alarmId =>
      let s :=
        setAlarms
          (update_where alarmId
             (fun _ => acknowledge (Some "current-user"))) s in
      setIsAcknowledging (fun prev => prev ∖ {[alarmId]}) s
  end.

(** The three sections of the page, lines 349-351. *)
Definition activeAlarms (s : State) : list Alarm :=
  filter (fun a => status a = active) (alarms s).

Definition acknowledgedAlarms (s : State) : list Alarm :=
  filter (fun a => status a = acknowledged) (alarms s).

Definition resolvedAlarms (s : State) : list Alarm :=
  filter (fun a => status a = resolved) (alarms s).

(** The demo alarms of the mount effect, lines 299-347; [stamp k] is the
    ISO time computed for the [k]-th of them. *)
Definition demoAlarms (stamp : nat -> string) : list Alarm :=
  [ {| id := "alarm-001"; siteId := "site-1"; severity := critical;
       message := "Power supply failure detected"; status := active;
       timestamp := stamp 0; type := None; acknowledgedBy := None;
       resolvedAt := None |};
    {| id := "alarm-002"; siteId := "site-2"; severity := high;
       message := "Temperature threshold exceeded"; status := active;
       timestamp := stamp 1; type := None; acknowledgedBy := None;
       resolvedAt := None |};
    {| id := "alarm-003"; siteId := "site-3"; severity := high;
       message := "Humidity level critical"; status := active;
       timestamp := stamp 2; type := None; acknowledgedBy := None;
       resolvedAt := None |};
    {| id := "alarm-004"; siteId := "site-1"; severity := medium;
       message := "Connection timeout - device unresponsive";
       status := active; timestamp := stamp 3; type := None;
       acknowledgedBy := None; resolvedAt := None |};
    {| id := "alarm-005"; siteId := "site-4"; severity := low;
       message := "Maintenance reminder - filter replacement due";
       status := active; timestamp := stamp 4; type := None;
       acknowledgedBy := None; resolvedAt := None |} ].

(** The state after the first render and its mount effect. *)
Definition mounted (stamp : nat -> string) : State :=
  {| alarms := demoAlarms stamp; newAlarmIds := ∅; isAcknowledging := ∅;
     timeouts := []; outbox := [] |}.

(** What can happen to the mounted component: a message from the hook,
    a click on one of the buttons the page shows, or a timer. *)
Inductive Event :=
| message_received (clock : nat -> string) (wsMsg : WebSocketMessage)
| acknowledge_clicked (now : string) (alarmId : string)
| resolve_clicked (now : string) (clock : nat -> string) (alarmId : string)
| clear_clicked
| timeout_fired (k : nat).

(** The page offers Acknowledge and Resolve on the active alarms only,
    disables Acknowledge while the id is in [isAcknowledging], and shows
    Clear only when there are resolved alarms (lines 383-464). *)
Definition step (e : Event) (s : State) : option State :=
  match e with
  | message_received clock wsMsg =>
      Some (handleWebSocketMessage clock wsMsg s)
  | acknowledge_clicked now alarmId =>
      if bool_decide (alarmId ∈ id <$> activeAlarms s)
         && bool_decide (alarmId ∉ isAcknowledging s)
      then Some (handleAcknowledge now alarmId s) else None
  | resolve_clicked now clock alarmId =>
      if bool_decide (alarmId ∈ id <$> activeAlarms s)
      then Some (handleResolve now clock alarmId s) else None
  | clear_clicked =>
      if bool_decide (resolvedAlarms s = []) then None
      else Some (handleClearResolved s)
  | timeout_fired k =>
      t ← timeouts s !! k;
      Some (fire (fst t)
              {| alarms := alarms s; newAlarmIds := newAlarmIds s;
                 isAcknowledging := isAcknowledging s;
                 timeouts := delete k (timeouts s); outbox := outbox s |})
  end.

Inductive reachable (stamp : nat -> string) : State -> Prop :=
| reachable_mounted : reachable stamp (mounted stamp)
| reachable_step e s s' :
    reachable stamp s -> step e s = Some s' -> reachable stamp s'.

(** The alarm id an event addresses with a status update, if any. *)
Definition addressed (e : Event) (s : State) : option string :=
  match e with
  | message_received _ wsMsg => Some (id (data wsMsg))
  | resolve_clicked _ _ alarmId => Some alarmId
  | timeout_fired k =>
      match timeouts s !! k with
      | Some (simulated_response alarmId, _) => Some alarmId
      | _ => None
      end
  | acknowledge_clicked _ _ | clear_clicked => None
  end.

(** Everything about an alarm but its status and who changed it. *)
Definition same_alarm (a' a : Alarm) : Prop :=
  id a' = id a /\ siteId a' = siteId a /\ severity a' = severity a /\
  message a' = message a /\ timestamp a' = timestamp a /\
  type a' = type a.

Definition is_created (e : Event) : bool :=
  match e with
  | message_received _ wsMsg => String.eqb (event wsMsg) "alarm.created"
  | _ => false
  end.

End AlarmList.

(** The options of a consumer that reconnects by hand only. *)
Definition manual_options : Options :=
  {| url := "ws://localhost:8080/api/alarms"; maxRetries := 5;
     retryDelay := 1000; shouldReconnect := false |}.

(** Two messages of the alarm stream, used in the examples. *)
Definition created_message : AlarmList.WebSocketMessage :=
  {| AlarmList.event := "alarm.created";
     AlarmList.data :=
       {| AlarmList.id := "alarm-006"; AlarmList.siteId := "site-2";
          AlarmList.severity := AlarmList.high;
          AlarmList.message := "Door sensor triggered";
          AlarmList.status := AlarmList.active;
          AlarmList.timestamp := "2024-05-01T10:00:00.000Z";
          AlarmList.type := Some "system";
          AlarmList.acknowledgedBy := None;
          AlarmList.resolvedAt := None |} |}.

Definition acknowledged_message : AlarmList.WebSocketMessage :=
  {| AlarmList.event := "alarm.acknowledged";
     AlarmList.data :=
       {| AlarmList.id := "alarm-002"; AlarmList.siteId := "";
          AlarmList.severity := AlarmList.low;
          AlarmList.message := "";
          AlarmList.status := AlarmList.acknowledged;
          AlarmList.timestamp := "";
          AlarmList.type := None;
          AlarmList.acknowledgedBy := Some "operator-7";
          AlarmList.resolvedAt := None |} |}.

(** A message that announces an alarm with a status the interface does not
    declare. *)
Definition escalated_message : AlarmList.WebSocketMessage :=
  {| AlarmList.event := "alarm.created";
     AlarmList.data :=
       {| AlarmList.id := "alarm-007"; AlarmList.siteId := "site-3";
          AlarmList.severity := AlarmList.critical;
          AlarmList.message := "Cooling failure";
          AlarmList.status := AlarmList.other "escalated";
          AlarmList.timestamp := "2024-05-01T10:05:00.000Z";
          AlarmList.type := Some "temperature";
          AlarmList.acknowledgedBy := None;
          AlarmList.resolvedAt := None |} |}.
(** ** Basic facts about the browser primitives *)

Lemma socket_on_socket_eq i f s w :
  socket i s = Some w -> socket i (on_socket i f s) = Some (f w).
Proof.
  intros H. unfold on_socket. rewrite H. unfold socket in *. simpl.
  apply list_lookup_insert_eq. eapply lookup_lt_Some; eauto.
Qed.

Lemma socket_on_socket_ne i j f s :
  i <> j -> socket j (on_socket i f s) = socket j s.
Proof.
  intros H. unfold on_socket. destruct (socket i s); [|reflexivity].
  unfold socket. simpl. apply list_lookup_insert_ne. exact H.
Qed.

Lemma socket_on_socket i j f s :
  socket j (on_socket i f s) =
  if decide (i = j) then f <$> socket j s else socket j s.
Proof.
  destruct (decide (i = j)) as [->|Hne].
  - destruct (socket j s) as [w|] eqn:E.
    + simpl. apply socket_on_socket_eq. exact E.
    + unfold on_socket. rewrite E. simpl. exact E.
  - apply socket_on_socket_ne. exact Hne.
Qed.

Lemma length_on_socket i f s :
  length (sockets (on_socket i f s)) = length (sockets s).
Proof.
  unfold on_socket. destruct (socket i s); [|reflexivity].
  simpl. apply length_insert.
Qed.

Lemma on_socket_frame i f s :
  let s' := on_socket i f s in
  state s' = state s /\ lastMessage s' = lastMessage s /\
  error s' = error s /\ webSocketRef s' = webSocketRef s /\
  retriesRef s' = retriesRef s /\ retryTimeoutRef s' = retryTimeoutRef s /\
  messageQueueRef s' = messageQueueRef s /\ connectRef s' = connectRef s /\
  timers s' = timers s /\ nextTimer s' = nextTimer s /\ log s' = log s.
Proof.
  unfold on_socket. destruct (socket i s); simpl; repeat split.
Qed.

Lemma on_socket_id i f s :
  (forall w, socket i s = Some w -> f w = w) -> on_socket i f s = s.
Proof.
  intros H. unfold on_socket. destruct (socket i s) as [w|] eqn:E; [|reflexivity].
  rewrite (H w eq_refl). unfold socket in E.
  rewrite list_insert_id by exact E. destruct s; reflexivity.
Qed.

Lemma clearTimeout_if_frame o s :
  let s' := clearTimeout_if o s in
  state s' = state s /\ lastMessage s' = lastMessage s /\
  error s' = error s /\ webSocketRef s' = webSocketRef s /\
  retriesRef s' = retriesRef s /\ retryTimeoutRef s' = retryTimeoutRef s /\
  messageQueueRef s' = messageQueueRef s /\ connectRef s' = connectRef s /\
  sockets s' = sockets s /\ nextTimer s' = nextTimer s /\ log s' = log s.
Proof.
  destruct o as [[|n]|]; simpl; repeat split.
Qed.

Lemma timers_clearTimeout id s :
  timers (clearTimeout id s) =
  List.filter (fun p => negb (Nat.eqb (fst p) id)) (timers s).
Proof. reflexivity. Qed.

Lemma pending_Some id s t :
  pending id s = Some t -> In (id, t) (timers s).
Proof.
  unfold pending. destruct (List.find _ _) as [[id' t']|] eqn:E; [|discriminate].
  simpl. intros [= ->]. apply find_some in E as [Hin Heq].
  simpl in Heq. apply Nat.eqb_eq in Heq. subst. exact Hin.
Qed.

Lemma pending_None id s :
  pending id s = None <-> (forall t, ~ In (id, t) (timers s)).
Proof.
  unfold pending. split.
  - destruct (List.find _ _) eqn:E; [discriminate|]. intros _ t Hin.
    eapply find_none in E; [|exact Hin]. simpl in E.
    rewrite Nat.eqb_refl in E. discriminate.
  - intros H. destruct (List.find _ _) as [[id' t']|] eqn:E; [|reflexivity].
    apply find_some in E as [Hin Heq]. simpl in Heq.
    apply Nat.eqb_eq in Heq. subst. destruct (H _ Hin).
Qed.

Lemma pending_clearTimeout id s : pending id (clearTimeout id s) = None.
Proof.
  apply pending_None. intros t Hin. rewrite timers_clearTimeout in Hin.
  apply filter_In in Hin as [_ Hne]. simpl in Hne.
  rewrite Nat.eqb_refl in Hne. discriminate.
Qed.

Lemma In_timers_clearTimeout p id s :
  In p (timers (clearTimeout id s)) <-> In p (timers s) /\ fst p <> id.
Proof.
  rewrite timers_clearTimeout, filter_In.
  rewrite negb_true_iff, Nat.eqb_neq. reflexivity.
Qed.

Lemma In_timers_clearTimeout_if p o s :
  In p (timers (clearTimeout_if o s)) -> In p (timers s).
Proof.
  destruct o as [[|n]|]; simpl; auto.
  intros H. apply (In_timers_clearTimeout p (S n) s) in H. tauto.
Qed.

Lemma socket_clearTimeout_if i o s :
  socket i (clearTimeout_if o s) = socket i s.
Proof. destruct o as [[|n]|]; reflexivity. Qed.


Lemma WebSocket_close_not_open w :
  WebSocket.is_open (WebSocket.close w) = false.
Proof.
  unfold WebSocket.close, WebSocket.is_open.
  destruct (WebSocket.readyState w) eqn:E; simpl; try rewrite E; reflexivity.
Qed.

Lemma WebSocket_close_closed w :
  WebSocket.is_closed w = true -> WebSocket.close w = w.
Proof.
  unfold WebSocket.close, WebSocket.is_closed.
  destruct (WebSocket.readyState w); try discriminate; reflexivity.
Qed.

Lemma sockets_on_socket_ext i f s1 s2 :
  sockets s1 = sockets s2 ->
  sockets (on_socket i f s1) = sockets (on_socket i f s2).
Proof.
  intros H. unfold on_socket, socket. rewrite H.
  destruct (sockets s2 !! i); simpl; congruence.
Qed.

Lemma WebSocket_close_twice w :
  WebSocket.close (WebSocket.close w) = WebSocket.close w.
Proof.
  unfold WebSocket.close. destruct (WebSocket.readyState w) eqn:R; simpl;
    rewrite ?R; reflexivity.
Qed.

(** ** Frame equations

    Each primitive leaves the cells it does not name untouched. *)

Lemma state_on_socket i f s : state (on_socket i f s) = state s.
Proof. unfold on_socket. destruct (socket i s); reflexivity. Qed.

Lemma state_clearTimeout_if o s : state (clearTimeout_if o s) = state s.
Proof. destruct o as [[|n]|]; reflexivity. Qed.

Lemma state_clear_connectionTimeout i s : state (clear_connectionTimeout i s) = state s.
Proof. unfold clear_connectionTimeout. apply state_clearTimeout_if. Qed.

Lemma lastMessage_on_socket i f s : lastMessage (on_socket i f s) = lastMessage s.
Proof. unfold on_socket. destruct (socket i s); reflexivity. Qed.

Lemma lastMessage_clearTimeout_if o s : lastMessage (clearTimeout_if o s) = lastMessage s.
Proof. destruct o as [[|n]|]; reflexivity. Qed.

Lemma lastMessage_clear_connectionTimeout i s : lastMessage (clear_connectionTimeout i s) = lastMessage s.
Proof. unfold clear_connectionTimeout. apply lastMessage_clearTimeout_if. Qed.

Lemma error_on_socket i f s : error (on_socket i f s) = error s.
Proof. unfold on_socket. destruct (socket i s); reflexivity. Qed.

Lemma error_clearTimeout_if o s : error (clearTimeout_if o s) = error s.
Proof. destruct o as [[|n]|]; reflexivity. Qed.

Lemma error_clear_connectionTimeout i s : error (clear_connectionTimeout i s) = error s.
Proof. unfold clear_connectionTimeout. apply error_clearTimeout_if. Qed.

Lemma webSocketRef_on_socket i f s : webSocketRef (on_socket i f s) = webSocketRef s.
Proof. unfold on_socket. destruct (socket i s); reflexivity. Qed.

Lemma webSocketRef_clearTimeout_if o s : webSocketRef (clearTimeout_if o s) = webSocketRef s.
Proof. destruct o as [[|n]|]; reflexivity. Qed.

Lemma webSocketRef_clear_connectionTimeout i s : webSocketRef (clear_connectionTimeout i s) = webSocketRef s.
Proof. unfold clear_connectionTimeout. apply webSocketRef_clearTimeout_if. Qed.

Lemma retriesRef_on_socket i f s : retriesRef (on_socket i f s) = retriesRef s.
Proof. unfold on_socket. destruct (socket i s); reflexivity. Qed.

Lemma retriesRef_clearTimeout_if o s : retriesRef (clearTimeout_if o s) = retriesRef s.
Proof. destruct o as [[|n]|]; reflexivity. Qed.

Lemma retriesRef_clear_connectionTimeout i s : retriesRef (clear_connectionTimeout i s) = retriesRef s.
Proof. unfold clear_connectionTimeout. apply retriesRef_clearTimeout_if. Qed.

Lemma retryTimeoutRef_on_socket i f s : retryTimeoutRef (on_socket i f s) = retryTimeoutRef s.
Proof. unfold on_socket. destruct (socket i s); reflexivity. Qed.

Lemma retryTimeoutRef_clearTimeout_if o s : retryTimeoutRef (clearTimeout_if o s) = retryTimeoutRef s.
Proof. destruct o as [[|n]|]; reflexivity. Qed.

Lemma retryTimeoutRef_clear_connectionTimeout i s : retryTimeoutRef (clear_connectionTimeout i s) = retryTimeoutRef s.
Proof. unfold clear_connectionTimeout. apply retryTimeoutRef_clearTimeout_if. Qed.

Lemma messageQueueRef_on_socket i f s : messageQueueRef (on_socket i f s) = messageQueueRef s.
Proof. unfold on_socket. destruct (socket i s); reflexivity. Qed.

Lemma messageQueueRef_clearTimeout_if o s : messageQueueRef (clearTimeout_if o s) = messageQueueRef s.
Proof. destruct o as [[|n]|]; reflexivity. Qed.

Lemma messageQueueRef_clear_connectionTimeout i s : messageQueueRef (clear_connectionTimeout i s) = messageQueueRef s.
Proof. unfold clear_connectionTimeout. apply messageQueueRef_clearTimeout_if. Qed.

Lemma connectRef_on_socket i f s : connectRef (on_socket i f s) = connectRef s.
Proof. unfold on_socket. destruct (socket i s); reflexivity. Qed.

Lemma connectRef_clearTimeout_if o s : connectRef (clearTimeout_if o s) = connectRef s.
Proof. destruct o as [[|n]|]; reflexivity. Qed.

Lemma connectRef_clear_connectionTimeout i s : connectRef (clear_connectionTimeout i s) = connectRef s.
Proof. unfold clear_connectionTimeout. apply connectRef_clearTimeout_if. Qed.

Lemma sockets_clearTimeout_if o s : sockets (clearTimeout_if o s) = sockets s.
Proof. destruct o as [[|n]|]; reflexivity. Qed.

Lemma sockets_clear_connectionTimeout i s : sockets (clear_connectionTimeout i s) = sockets s.
Proof. unfold clear_connectionTimeout. apply sockets_clearTimeout_if. Qed.

Lemma timers_on_socket i f s : timers (on_socket i f s) = timers s.
Proof. unfold on_socket. destruct (socket i s); reflexivity. Qed.

Lemma nextTimer_on_socket i f s : nextTimer (on_socket i f s) = nextTimer s.
Proof. unfold on_socket. destruct (socket i s); reflexivity. Qed.

Lemma nextTimer_clearTimeout_if o s : nextTimer (clearTimeout_if o s) = nextTimer s.
Proof. destruct o as [[|n]|]; reflexivity. Qed.

Lemma nextTimer_clear_connectionTimeout i s : nextTimer (clear_connectionTimeout i s) = nextTimer s.
Proof. unfold clear_connectionTimeout. apply nextTimer_clearTimeout_if. Qed.

Lemma log_on_socket i f s : log (on_socket i f s) = log s.
Proof. unfold on_socket. destruct (socket i s); reflexivity. Qed.

Lemma log_clearTimeout_if o s : log (clearTimeout_if o s) = log s.
Proof. destruct o as [[|n]|]; reflexivity. Qed.

Lemma log_clear_connectionTimeout i s : log (clear_connectionTimeout i s) = log s.
Proof. unfold clear_connectionTimeout. apply log_clearTimeout_if. Qed.

Create Rewrite HintDb frame.

#[global] Hint Rewrite
  state_on_socket
  state_clearTimeout_if
  state_clear_connectionTimeout
  lastMessage_on_socket
  lastMessage_clearTimeout_if
  lastMessage_clear_connectionTimeout
  error_on_socket
  error_clearTimeout_if
  error_clear_connectionTimeout
  webSocketRef_on_socket
  webSocketRef_clearTimeout_if
  webSocketRef_clear_connectionTimeout
  retriesRef_on_socket
  retriesRef_clearTimeout_if
  retriesRef_clear_connectionTimeout
  retryTimeoutRef_on_socket
  retryTimeoutRef_clearTimeout_if
  retryTimeoutRef_clear_connectionTimeout
  messageQueueRef_on_socket
  messageQueueRef_clearTimeout_if
  messageQueueRef_clear_connectionTimeout
  connectRef_on_socket
  connectRef_clearTimeout_if
  connectRef_clear_connectionTimeout
  sockets_clearTimeout_if
  sockets_clear_connectionTimeout
  timers_on_socket
  nextTimer_on_socket
  nextTimer_clearTimeout_if
  nextTimer_clear_connectionTimeout
  log_on_socket
  log_clearTimeout_if
  log_clear_connectionTimeout
  : frame.

(** Reduce the reads of cells through the writes of the handlers. *)
Ltac cells :=
  cbn [state lastMessage error webSocketRef retriesRef retryTimeoutRef
       messageQueueRef connectRef sockets timers nextTimer log
       setState setLastMessage setError set_webSocketRef set_retriesRef
       set_retryTimeoutRef set_messageQueueRef set_connectRef set_sockets
       set_timers set_nextTimer emit setTimeout clearTimeout fst snd].

Ltac cells_in H :=
  cbn [state lastMessage error webSocketRef retriesRef retryTimeoutRef
       messageQueueRef connectRef sockets timers nextTimer log
       setState setLastMessage setError set_webSocketRef set_retriesRef
       set_retryTimeoutRef set_messageQueueRef set_connectRef set_sockets
       set_timers set_nextTimer emit setTimeout clearTimeout fst snd] in H.

(** ** [connect] *)

Section Connect.

Variable ua : UserAgent.
Variable opts : Options.

Lemma connect_open s : current_is_open s = true -> connect ua opts s = s.
Proof. intros H. unfold connect. rewrite H. reflexivity. Qed.

Lemma connect_not_open s :
  current_is_open s = false ->
  connect ua opts s =
  let s1 := connect_prepared s in
  match constructor_throws ua (url opts) with
  | Some message =>
      setState WebSocketState.CLOSED
        (emit (onError message) (setError (Some message) s1))
  | None =>
      set_webSocketRef (Some (length (sockets s)))
        (set_sockets (sockets s1 ++ [WebSocket.new (nextTimer s)])
           (snd (setTimeout (connectionTimeout (length (sockets s))) 5000 s1)))
  end.
Proof.
  intros H. unfold connect. rewrite H.
  assert (E : match webSocketRef s, current s with
              | Some i, Some w =>
                  if negb (WebSocket.is_closed w)
                  then on_socket i WebSocket.close s else s
              | _, _ => s
              end
              = match webSocketRef s with
                | Some i => on_socket i WebSocket.close s
                | None => s
                end).
  { unfold current. destruct (webSocketRef s) as [i|]; [|reflexivity].
    destruct (socket i s) as [w|] eqn:E.
    - destruct (WebSocket.is_closed w) eqn:C; simpl; [|reflexivity].
      symmetry. apply on_socket_id. intros w' Hw'.
      rewrite E in Hw'. injection Hw' as <-.
      apply WebSocket_close_closed. exact C.
    - unfold on_socket. rewrite E. reflexivity. }
  rewrite E. unfold connect_prepared.
  destruct (webSocketRef s) as [i|]; simpl.
  - destruct (constructor_throws ua (url opts)); [reflexivity|].
    rewrite !length_on_socket.
    destruct (on_socket_frame i WebSocket.close s) as (_&_&_&_&_&_&_&_&_&Hn&_).
    simpl in Hn. rewrite Hn. reflexivity.
  - destruct (constructor_throws ua (url opts)); reflexivity.
Qed.

End Connect.

Section ConnectProperties.

Variable ua : UserAgent.
Variable opts : Options.

Lemma socket_connect_prepared i s :
  socket i (connect_prepared s) =
  if decide (webSocketRef s = Some i)
  then WebSocket.close <$> socket i s else socket i s.
Proof.
  unfold connect_prepared.
  change (socket i (setState ?v ?x)) with (socket i x).
  destruct (webSocketRef s) as [j|].
  - rewrite socket_on_socket.
    destruct (decide (j = i)) as [->|Hne].
    + rewrite decide_True by reflexivity. reflexivity.
    + rewrite decide_False by congruence. reflexivity.
  - rewrite decide_False by discriminate. reflexivity.
Qed.

Lemma length_connect_prepared s :
  length (sockets (connect_prepared s)) = length (sockets s).
Proof.
  unfold connect_prepared. simpl.
  destruct (webSocketRef s); [apply length_on_socket|reflexivity].
Qed.

Lemma connect_prepared_frame s :
  let s' := connect_prepared s in
  lastMessage s' = lastMessage s /\
  error s' = error s /\ webSocketRef s' = webSocketRef s /\
  retriesRef s' = retriesRef s /\ retryTimeoutRef s' = retryTimeoutRef s /\
  messageQueueRef s' = messageQueueRef s /\ connectRef s' = connectRef s /\
  timers s' = timers s /\ nextTimer s' = nextTimer s /\ log s' = log s.
Proof.
  unfold connect_prepared. destruct (webSocketRef s) as [i|] eqn:E; simpl.
  - destruct (on_socket_frame i WebSocket.close s)
      as (_&?&?&?&?&?&?&?&?&?&?). repeat split; congruence.
  - repeat split; congruence.
Qed.

(** [connect] when the current handle is not OPEN and the constructor
    succeeds, cell by cell. *)
Lemma connect_new_spec s :
  current_is_open s = false ->
  constructor_throws ua (url opts) = None ->
  let s' := connect ua opts s in
  let i := length (sockets s) in
  state s' = WebSocketState.CONNECTING /\
  webSocketRef s' = Some i /\
  sockets s' = sockets (connect_prepared s) ++ [WebSocket.new (nextTimer s)] /\
  timers s' = timers s ++
              [(nextTimer s,
                {| callback := connectionTimeout i; delay := 5000 |})] /\
  nextTimer s' = S (nextTimer s) /\
  log s' = log s ++ [setTimeout_called (connectionTimeout i) 5000] /\
  retriesRef s' = retriesRef s /\ error s' = error s /\
  retryTimeoutRef s' = retryTimeoutRef s /\
  messageQueueRef s' = messageQueueRef s /\
  connectRef s' = connectRef s /\ lastMessage s' = lastMessage s.
Proof.
  intros Hopen Hctor. cbv zeta.
  rewrite connect_not_open by exact Hopen. cbv zeta. rewrite Hctor.
  destruct (connect_prepared_frame s) as (H1&H2&H3&H4&H5&H6&H7&H8&H9&H10).
  cbv zeta in *. cells. rewrite H1, H2, H4, H5, H6, H7, H8, H9, H10.
  repeat split.
Qed.

Lemma socket_connect_new i s :
  current_is_open s = false ->
  constructor_throws ua (url opts) = None ->
  socket i (connect ua opts s) =
  if decide (i = length (sockets s)) then Some (WebSocket.new (nextTimer s))
  else if decide (webSocketRef s = Some i)
       then WebSocket.close <$> socket i s else socket i s.
Proof.
  intros Hopen Hctor.
  destruct (connect_new_spec s Hopen Hctor) as (_&_&Hs&_). cbv zeta in Hs.
  pose proof (length_connect_prepared s) as Hlen.
  unfold socket at 1. rewrite Hs.
  destruct (decide (i = length (sockets s))) as [->|Hne].
  - rewrite <- Hlen. rewrite lookup_app_r by lia.
    rewrite Nat.sub_diag. reflexivity.
  - destruct (decide (i < length (sockets s))) as [Hlt|Hge].
    + rewrite lookup_app_l by lia.
      change (socket i (connect_prepared s) =
              if decide (webSocketRef s = Some i)
              then WebSocket.close <$> socket i s else socket i s).
      apply socket_connect_prepared.
    + rewrite lookup_ge_None_2 by (rewrite length_app, Hlen; simpl; lia).
      assert (E : socket i s = None).
      { unfold socket. apply lookup_ge_None_2. lia. }
      rewrite E. destruct (decide (webSocketRef s = Some i)); reflexivity.
Qed.

(** C7, as the code has it. [connect] returns at once only when the
    current handle is OPEN. In every other case (no handle, or a handle
    that is CONNECTING, CLOSING or CLOSED) it calls [close()] on the
    current handle, sets the state to CONNECTING and, when the
    constructor succeeds, makes a new CONNECTING socket the current
    handle. *)
Theorem connect_returns_early_only_when_open (s : State) :
  (current_is_open s = true -> connect ua opts s = s) /\
  (current_is_open s = false ->
   constructor_throws ua (url opts) = None ->
   let s' := connect ua opts s in
   state s' = WebSocketState.CONNECTING /\
   webSocketRef s' = Some (length (sockets s)) /\
   current s' = Some (WebSocket.new (nextTimer s)) /\
   length (sockets s') = S (length (sockets s)) /\
   forall i w, webSocketRef s = Some i -> socket i s = Some w ->
               socket i s' = Some (WebSocket.close w)).
Proof.
  split; [apply connect_open|].
  intros Hopen Hctor. cbv zeta.
  destruct (connect_new_spec s Hopen Hctor) as (Hst&Hr&Hs&_).
  cbv zeta in *.
  split; [exact Hst|]. split; [exact Hr|]. split; [|split].
  - unfold current. rewrite Hr, socket_connect_new by assumption.
    rewrite decide_True by reflexivity. reflexivity.
  - rewrite Hs, length_app, length_connect_prepared. simpl. lia.
  - intros i w Hi Hw. rewrite socket_connect_new by assumption.
    assert (Hlt : i < length (sockets s)).
    { eapply lookup_lt_Some. exact Hw. }
    rewrite decide_False by lia. rewrite decide_True by exact Hi.
    rewrite Hw. reflexivity.
Qed.

End ConnectProperties.

(** The mounted hook is CONNECTING; a second [connect] closes the handle
    and opens a second socket. *)
Lemma connect_while_connecting_opens_second_socket :
  let s := mounted reliable_agent demo_options in
  let s' := connect reliable_agent demo_options s in
  state s = WebSocketState.CONNECTING /\
  s' <> s /\
  WebSocket.readyState <$> socket 0 s = Some WebSocket.CONNECTING /\
  WebSocket.readyState <$> socket 0 s' = Some WebSocket.CLOSING /\
  webSocketRef s' = Some 1 /\
  WebSocket.readyState <$> socket 1 s' = Some WebSocket.CONNECTING.
Proof.
  cbv zeta. split; [reflexivity|]. split; [|repeat split].
  intros H. apply (f_equal webSocketRef) in H. vm_compute in H. discriminate.
Qed.

Lemma connect_returns_early_only_when_open_witness :
  current_is_open (mounted reliable_agent demo_options) = false /\
  constructor_throws reliable_agent (url demo_options) = None /\
  webSocketRef (connect reliable_agent demo_options
                  (mounted reliable_agent demo_options)) = Some 1.
Proof.
  split; [reflexivity|]. split; [reflexivity|].
  pose proof (connect_returns_early_only_when_open reliable_agent demo_options
                (mounted reliable_agent demo_options)) as [_ H].
  specialize (H eq_refl eq_refl). cbv zeta in H.
  destruct H as (_ & H & _). exact H.
Defined.

(** ** Failures *)

Lemma retry_delays_app l1 l2 :
  retry_delays (l1 ++ l2) = retry_delays l1 ++ retry_delays l2.
Proof. unfold retry_delays. apply omap_app. Qed.

Lemma disconnects_app l1 l2 :
  disconnects (l1 ++ l2) = disconnects l1 + disconnects l2.
Proof. unfold disconnects. rewrite List.filter_app. apply length_app. Qed.

Lemma reported_app l1 l2 : reported (l1 ++ l2) = reported l1 ++ reported l2.
Proof. unfold reported. apply omap_app. Qed.

Section Failures.

Variable ua : UserAgent.
Variable opts : Options.

Lemma In_timers_clear_connectionTimeout p i s :
  In p (timers (clear_connectionTimeout i s)) -> In p (timers s).
Proof. apply In_timers_clearTimeout_if. Qed.

Lemma handleError_spec i s :
  let s' := handleError i s in
  error s' = Some wsError /\
  log s' = log s ++ [onError wsError] /\
  state s' = state s /\
  retriesRef s' = retriesRef s /\
  retryTimeoutRef s' = retryTimeoutRef s /\
  sockets s' = sockets s /\
  webSocketRef s' = webSocketRef s /\
  messageQueueRef s' = messageQueueRef s /\
  nextTimer s' = nextTimer s /\
  connectRef s' = connectRef s /\
  (forall p, In p (timers s') -> In p (timers s)).
Proof.
  unfold handleError. simpl. autorewrite with frame.
  repeat split. intros p Hp. eapply In_timers_clearTimeout_if. exact Hp.
Qed.

Lemma fire_connectionTimeout i s :
  fire ua opts (connectionTimeout i) s =
  on_socket i (fun w => if WebSocket.is_connecting w
                        then WebSocket.close w else w) s.
Proof.
  unfold fire. destruct (socket i s) as [w|] eqn:E.
  - destruct (WebSocket.is_connecting w) eqn:C.
    + unfold on_socket. rewrite E, C. reflexivity.
    + symmetry. apply on_socket_id. intros w' Hw'.
      rewrite E in Hw'. injection Hw' as <-. rewrite C. reflexivity.
  - unfold on_socket. rewrite E. reflexivity.
Qed.

(** C8, as the code has it. A transport error event is recorded as the
    last error and passed to [onError], and schedules nothing itself: the
    backoff decision is taken by the close handler, which runs when the
    close event of a listening handle arrives. The connect timeout only
    calls [close()] on a handle that is still CONNECTING and records no
    error. A constructor that throws is recorded and passed to [onError]
    and the state becomes CLOSED, but no socket exists, the close handler
    does not run and no retry is scheduled. *)
Theorem failures_recorded_and_reported (s : State) (i : nat) :
  (let s' := handleError i s in
   error s' = Some wsError /\ log s' = log s ++ [onError wsError] /\
   state s' = state s /\ retriesRef s' = retriesRef s /\
   sockets s' = sockets s /\
   forall p, In p (timers s') -> In p (timers s)) /\
  (forall w, socket i s = Some w -> WebSocket.listeners w = true ->
             WebSocket.is_closed w = false ->
             step ua opts (ev_close i) s =
             Some (handleClose opts i
                     (on_socket i (WebSocket.set_readyState WebSocket.CLOSED) s))) /\
  (let s' := fire ua opts (connectionTimeout i) s in
   error s' = error s /\ log s' = log s /\ timers s' = timers s /\
   socket i s' =
   (fun w => if WebSocket.is_connecting w then WebSocket.close w else w)
     <$> socket i s) /\
  (forall message,
      current_is_open s = false ->
      constructor_throws ua (url opts) = Some message ->
      let s' := connect ua opts s in
      error s' = Some message /\ log s' = log s ++ [onError message] /\
      state s' = WebSocketState.CLOSED /\
      retriesRef s' = retriesRef s /\ timers s' = timers s /\
      length (sockets s') = length (sockets s) /\
      webSocketRef s' = webSocketRef s).
Proof.
  split; [|split; [|split]].
  - destruct (handleError_spec i s) as (?&?&?&?&?&?&?&?&?&?&?).
    cbv zeta. repeat split; assumption.
  - intros w Hw Hl Hc. unfold step. rewrite Hw. simpl.
    rewrite Hc, Hl. reflexivity.
  - cbv zeta. rewrite fire_connectionTimeout. autorewrite with frame.
    repeat split. rewrite socket_on_socket, decide_True by reflexivity.
    reflexivity.
  - intros message Hopen Hctor. cbv zeta.
    rewrite connect_not_open by exact Hopen. cbv zeta. rewrite Hctor.
    destruct (connect_prepared_frame s) as (?&?&?&?&?&?&?&?&?&?).
    cells. repeat split; try congruence.
    apply length_connect_prepared.
Qed.

End Failures.

(** With a URL the constructor rejects, the mounted hook has recorded and
    reported the error and is CLOSED, yet although retries are enabled and
    none has been used, no retry timer exists, the close handler has not
    run, and no transport or timer event can ever occur. *)
Lemma constructor_failure_bypasses_backoff :
  let s := mounted rejecting_agent demo_options in
  shouldReconnect demo_options = true /\
  (retriesRef s < maxRetries demo_options)%Z /\
  error s = Some "SyntaxError" /\
  log s = [onError "SyntaxError"] /\
  state s = WebSocketState.CLOSED /\
  disconnects (log s) = 0 /\
  timers s = [] /\
  (forall i, step rejecting_agent demo_options (ev_close i) s = None) /\
  (forall i, step rejecting_agent demo_options (ev_error i) s = None) /\
  (forall id, step rejecting_agent demo_options (ev_timer id) s = None).
Proof.
  cbv zeta. repeat split.
Qed.

Lemma failures_recorded_and_reported_witness :
  let s := set_connectRef true initial in
  current_is_open s = false /\
  constructor_throws rejecting_agent (url demo_options) = Some "SyntaxError" /\
  error (connect rejecting_agent demo_options s) = Some "SyntaxError".
Proof.
  cbv zeta. split; [reflexivity|]. split; [reflexivity|].
  pose proof (failures_recorded_and_reported rejecting_agent demo_options
                (set_connectRef true initial) 0) as (_ & _ & _ & H).
  specialize (H "SyntaxError" eq_refl eq_refl). cbv zeta in H.
  destruct H as (H & _). exact H.
Defined.

(** ** The close handler *)

Section Close.

Variable ua : UserAgent.
Variable opts : Options.

(** The three outcomes of [handleClose]: a retry is scheduled, the
    retries are exhausted, or reconnection is disabled. *)
Lemma handleClose_spec i s :
  let s' := handleClose opts i s in
  let s0 := clear_connectionTimeout i s in
  state s' = WebSocketState.CLOSED /\
  sockets s' = sockets (on_socket i (WebSocket.set_listeners false) s) /\
  webSocketRef s' = webSocketRef s /\
  messageQueueRef s' = messageQueueRef s /\
  connectRef s' = connectRef s /\
  lastMessage s' = lastMessage s /\
  ((shouldReconnect opts = true /\ (retriesRef s < maxRetries opts)%Z /\
    retriesRef s' = (retriesRef s + 1)%Z /\
    log s' = (log s ++ [onDisconnect]) ++
             [setTimeout_called retry
                (retryDelay opts * 2 ^ (retriesRef s + 1 - 1))%Z] /\
    retryTimeoutRef s' = Some (nextTimer s) /\
    nextTimer s' = S (nextTimer s) /\
    timers s' = timers s0 ++
                [(nextTimer s,
                  {| callback := retry;
                     delay := (retryDelay opts * 2 ^ (retriesRef s + 1 - 1))%Z |})] /\
    error s' = error s)
   \/
   (shouldReconnect opts = true /\ (maxRetries opts <= retriesRef s)%Z /\
    retriesRef s' = retriesRef s /\
    log s' = (log s ++ [onDisconnect]) ++ [onError maxRetriesError] /\
    retryTimeoutRef s' = retryTimeoutRef s /\
    nextTimer s' = nextTimer s /\
    timers s' = timers s0 /\
    error s' = Some maxRetriesError)
   \/
   (shouldReconnect opts = false /\
    retriesRef s' = retriesRef s /\
    log s' = log s ++ [onDisconnect] /\
    retryTimeoutRef s' = retryTimeoutRef s /\
    nextTimer s' = nextTimer s /\
    timers s' = timers s0 /\
    error s' = error s)).
Proof.
  assert (Hs : sockets
                 (on_socket i (WebSocket.set_listeners false)
                    (emit onDisconnect
                       (setState WebSocketState.CLOSED
                          (clear_connectionTimeout i s)))) =
               sockets (on_socket i (WebSocket.set_listeners false) s)).
  { apply sockets_on_socket_ext. cells. autorewrite with frame. reflexivity. }
  cbv zeta. unfold handleClose. cells. autorewrite with frame. cells.
  autorewrite with frame.
  destruct (shouldReconnect opts); cbn [andb].
  - destruct (Z.ltb_spec (retriesRef s) (maxRetries opts)) as [Hlt|Hge].
    + cells. autorewrite with frame. cells. autorewrite with frame.
      split; [reflexivity|]. split; [exact Hs|].
      repeat (split; [reflexivity|]). left. repeat split. exact Hlt.
    + destruct (Z.leb_spec (maxRetries opts) (retriesRef s)) as [_|Hlt];
        [|lia].
      cells. autorewrite with frame. cells. autorewrite with frame.
      split; [reflexivity|]. split; [exact Hs|].
      repeat (split; [reflexivity|]). right. left. repeat split. exact Hge.
  - cells. autorewrite with frame. cells. autorewrite with frame.
    split; [reflexivity|]. split; [exact Hs|].
    repeat (split; [reflexivity|]). right. right. repeat split.
Qed.

Lemma socket_handleClose i j s :
  socket j (handleClose opts i s) =
  if decide (i = j) then WebSocket.set_listeners false <$> socket j s
  else socket j s.
Proof.
  destruct (handleClose_spec i s) as (_ & Hs & _). cbv zeta in Hs.
  unfold socket at 1. rewrite Hs.
  change (socket j (on_socket i (WebSocket.set_listeners false) s) =
          if decide (i = j) then WebSocket.set_listeners false <$> socket j s
          else socket j s).
  apply socket_on_socket.
Qed.

(** The close handler runs once and sets at most one retry timer. *)
Lemma handleClose_counts i s :
  let s' := handleClose opts i s in
  disconnects (log s') = disconnects (log s) + 1 /\
  length (retry_delays (log s')) <= length (retry_delays (log s)) + 1.
Proof.
  destruct (handleClose_spec i s) as (_&_&_&_&_&_&H). cbv zeta in *.
  destruct H as [(_&_&_&Hl&_)|[(_&_&_&Hl&_)|(_&_&Hl&_)]]; rewrite Hl;
    rewrite ?disconnects_app, ?retry_delays_app, ?length_app; unfold disconnects; simpl; lia.
Qed.

(** Once a handle has had its close event it is deaf: its events change
    nothing. *)
Lemma closed_handle_is_inert i es : forall s s' w,
  socket i s = Some w ->
  WebSocket.listeners w = false -> WebSocket.is_closed w = true ->
  forallb (of_handle i) es = true ->
  run ua opts es s = Some s' -> s' = s.
Proof.
  induction es as [|e es IH]; intros s s' w Hw Hl Hc Hes Hrun.
  - simpl in Hrun. congruence.
  - simpl in Hes. apply andb_true_iff in Hes as [He Hes].
    simpl in Hrun.
    assert (Hstep : step ua opts e s = Some s \/ step ua opts e s = None).
    { unfold WebSocket.is_closed in Hc.
      destruct (WebSocket.readyState w) eqn:R; try discriminate.
      destruct e; simpl in He; try discriminate;
        apply Nat.eqb_eq in He; subst; unfold step; rewrite Hw; simpl;
        unfold WebSocket.is_connecting, WebSocket.is_closed;
        rewrite ?R, ?Hl; auto. }
    destruct Hstep as [Hstep|Hstep]; rewrite Hstep in Hrun; simpl in Hrun.
    + eapply IH; eauto.
    + discriminate.
Qed.

Lemma handleMessage_spec data s :
  let s' := handleMessage ua data s in
  sockets s' = sockets s /\ timers s' = timers s /\
  disconnects (log s') = disconnects (log s) /\
  retry_delays (log s') = retry_delays (log s) /\
  reported (log s') = reported (log s) /\
  error s' = error s /\ retriesRef s' = retriesRef s /\
  messageQueueRef s' = messageQueueRef s /\
  webSocketRef s' = webSocketRef s /\
  retryTimeoutRef s' = retryTimeoutRef s /\
  nextTimer s' = nextTimer s /\ connectRef s' = connectRef s /\
  state s' = state s.
Proof.
  unfold handleMessage. destruct (JSON_parse ua data); cells;
    rewrite ?disconnects_app, ?retry_delays_app, ?reported_app, ?app_nil_r;
    simpl; rewrite ?app_nil_r, ?Nat.add_0_r; repeat split.
Qed.

(** After [close()] has been called on a listening handle, the close
    handler runs exactly when the close event is delivered, and only
    once, whatever events of the handle the browser delivers. *)
Lemma one_close_cycle i es : forall s s' w,
  socket i s = Some w ->
  WebSocket.listeners w = true ->
  WebSocket.readyState w = WebSocket.CLOSING ->
  forallb (of_handle i) es = true ->
  run ua opts es s = Some s' ->
  disconnects (log s') =
    disconnects (log s) + (if existsb is_ev_close es then 1 else 0) /\
  length (retry_delays (log s')) <= length (retry_delays (log s)) + 1.
Proof.
  induction es as [|e es IH]; intros s s' w Hw Hl Hr Hes Hrun.
  - simpl in Hrun. injection Hrun as <-. simpl. lia.
  - simpl in Hes. apply andb_true_iff in Hes as [He Hes].
    simpl in Hrun.
    destruct e; simpl in He; try discriminate;
      apply Nat.eqb_eq in He; subst i0.
    + (* open: the socket is no longer connecting *)
      unfold step in Hrun. rewrite Hw in Hrun. simpl in Hrun.
      unfold WebSocket.is_connecting in Hrun. rewrite Hr in Hrun.
      discriminate.
    + (* message *)
      unfold step in Hrun. rewrite Hw in Hrun. simpl in Hrun.
      rewrite Hr, Hl in Hrun. simpl in Hrun.
      destruct (handleMessage_spec data s) as (Hs&_&Hd&Hq&_).
      cbv zeta in *.
      specialize (IH (handleMessage ua data s) s' w).
      unfold socket in IH at 1. rewrite Hs in IH.
      specialize (IH Hw Hl Hr Hes Hrun). rewrite Hd, Hq in IH.
      simpl. exact IH.
    + (* error *)
      unfold step in Hrun. rewrite Hw in Hrun. simpl in Hrun.
      rewrite Hl in Hrun.
      destruct (handleError_spec i s) as (_&Hlog&_&_&_&Hs&_).
      cbv zeta in *.
      specialize (IH (handleError i s) s' w).
      unfold socket in IH at 1. rewrite Hs in IH.
      specialize (IH Hw Hl Hr Hes Hrun). rewrite Hlog in IH.
      rewrite disconnects_app, retry_delays_app in IH. simpl in IH.
      rewrite app_nil_r, Nat.add_0_r in IH. simpl. exact IH.
    + (* close *)
      unfold step in Hrun. rewrite Hw in Hrun. simpl in Hrun.
      unfold WebSocket.is_closed in Hrun. rewrite Hr, Hl in Hrun.
      simpl in Hrun.
      set (s0 := on_socket i (WebSocket.set_readyState WebSocket.CLOSED) s)
        in *.
      assert (Hw0 : socket i (handleClose opts i s0) =
                    Some (WebSocket.set_listeners false
                            (WebSocket.set_readyState WebSocket.CLOSED w))).
      { rewrite socket_handleClose, decide_True by reflexivity.
        unfold s0. rewrite (socket_on_socket_eq _ _ _ _ Hw). reflexivity. }
      assert (s' = handleClose opts i s0) as ->.
      { eapply closed_handle_is_inert; eauto. }
      destruct (handleClose_counts i s0) as [Hd Hq]. cbv zeta in *.
      unfold s0 in Hd, Hq. rewrite log_on_socket in Hd, Hq.
      simpl. split; [exact Hd|exact Hq].
Qed.

(** C6, as the code has it. When the connect-timeout timer fires while
    the attempt is still CONNECTING, the handle is force-closed (its
    ready state becomes CLOSING) and the timer records no error: the
    last error and the trace of effects are unchanged. From then on,
    whatever events of that handle are delivered, the close handler runs
    exactly once if its close event is among them and not at all
    otherwise, and it sets at most one retry timer. *)
Theorem connect_timeout_closes_once (s : State) (i id : nat) (ms : Z)
    (w : WebSocket.t) :
  socket i s = Some w ->
  WebSocket.readyState w = WebSocket.CONNECTING ->
  WebSocket.listeners w = true ->
  pending id s = Some {| callback := connectionTimeout i; delay := ms |} ->
  exists s1,
    step ua opts (ev_timer id) s = Some s1 /\
    socket i s1 = Some (WebSocket.set_readyState WebSocket.CLOSING w) /\
    error s1 = error s /\ log s1 = log s /\
    forall es s2,
      forallb (of_handle i) es = true ->
      run ua opts es s1 = Some s2 ->
      disconnects (log s2) =
        disconnects (log s1) + (if existsb is_ev_close es then 1 else 0) /\
      length (retry_delays (log s2)) <= length (retry_delays (log s1)) + 1.
Proof.
  intros Hw Hr Hl Hp.
  exists (fire ua opts (connectionTimeout i) (clearTimeout id s)).
  assert (Hw1 : socket i
                  (fire ua opts (connectionTimeout i) (clearTimeout id s)) =
                Some (WebSocket.set_readyState WebSocket.CLOSING w)).
  { rewrite fire_connectionTimeout, socket_on_socket,
      decide_True by reflexivity.
    change (socket i (clearTimeout id s)) with (socket i s). rewrite Hw.
    simpl. unfold WebSocket.is_connecting, WebSocket.close. rewrite Hr.
    reflexivity. }
  split; [|split; [exact Hw1|split; [|split]]].
  - unfold step. rewrite Hp. reflexivity.
  - rewrite fire_connectionTimeout. autorewrite with frame. reflexivity.
  - rewrite fire_connectionTimeout. autorewrite with frame. reflexivity.
  - intros es s2 Hes Hrun.
    eapply one_close_cycle; eauto.
Qed.

End Close.

(** The timeout of the first attempt fires: the handle is closing, but no
    error has been recorded or reported. *)
Lemma connect_timeout_records_no_error :
  exists s,
    run reliable_agent demo_options [ev_timer 1]
      (mounted reliable_agent demo_options) = Some s /\
    WebSocket.readyState <$> socket 0 s = Some WebSocket.CLOSING /\
    error s = None /\
    reported (log s) = [].
Proof. eexists. split; [reflexivity|]. repeat split. Qed.

Lemma connect_timeout_closes_once_witness :
  exists s1,
    step reliable_agent demo_options (ev_timer 1)
      (mounted reliable_agent demo_options) = Some s1 /\
    error s1 = None /\
    forall s2,
      run reliable_agent demo_options [ev_error 0; ev_close 0; ev_error 0] s1
        = Some s2 ->
      disconnects (log s2) = disconnects (log s1) + 1.
Proof.
  destruct (connect_timeout_closes_once reliable_agent demo_options
              (mounted reliable_agent demo_options) 0 1 5000
              (WebSocket.new 1) eq_refl eq_refl eq_refl eq_refl)
    as (s1 & Hstep & _ & Herr & _ & Hruns).
  exists s1. split; [exact Hstep|]. split; [exact Herr|].
  intros s2 Hrun.
  exact (proj1 (Hruns [ev_error 0; ev_close 0; ev_error 0] s2 eq_refl Hrun)).
Defined.

(** ** The outbound queue *)

Lemma State_eq (s1 s2 : State) :
  state s1 = state s2 -> lastMessage s1 = lastMessage s2 ->
  error s1 = error s2 -> webSocketRef s1 = webSocketRef s2 ->
  retriesRef s1 = retriesRef s2 -> retryTimeoutRef s1 = retryTimeoutRef s2 ->
  messageQueueRef s1 = messageQueueRef s2 -> connectRef s1 = connectRef s2 ->
  sockets s1 = sockets s2 -> timers s1 = timers s2 ->
  nextTimer s1 = nextTimer s2 -> log s1 = log s2 -> s1 = s2.
Proof. destruct s1, s2. simpl. congruence. Qed.




Section Queue.

Variable ua : UserAgent.
Variable opts : Options.

Lemma drain_one_listeners msg w :
  WebSocket.listeners (drain_one ua msg w) = WebSocket.listeners w /\
  WebSocket.connectionTimeoutId (drain_one ua msg w) =
    WebSocket.connectionTimeoutId w /\
  WebSocket.is_closed (drain_one ua msg w) = WebSocket.is_closed w /\
  (WebSocket.is_open w = false -> drain_one ua msg w = w) /\
  (WebSocket.is_connecting (drain_one ua msg w) = WebSocket.is_connecting w).
Proof.
  unfold drain_one, transmit, WebSocket.send, WebSocket.is_open,
    WebSocket.is_closed, WebSocket.is_connecting.
  destruct msg as [|text]; [repeat split|].
  destruct (WebSocket.readyState w) eqn:R; try (rewrite ?R; repeat split; fail).
  destruct (buffers ua (WebSocket.sent w) text); simpl; rewrite ?R;
    repeat split; discriminate.
Qed.

Lemma drain_ws_listeners q : forall w,
  WebSocket.listeners (drain_ws ua q w) = WebSocket.listeners w /\
  WebSocket.connectionTimeoutId (drain_ws ua q w) =
    WebSocket.connectionTimeoutId w /\
  WebSocket.is_closed (drain_ws ua q w) = WebSocket.is_closed w /\
  WebSocket.is_connecting (drain_ws ua q w) = WebSocket.is_connecting w.
Proof.
  induction q as [|msg q IH]; intros w; [repeat split|].
  change (drain_ws ua (msg :: q) w) with (drain_ws ua q (drain_one ua msg w)).
  destruct (IH (drain_one ua msg w)) as (H1 & H2 & H3 & H4).
  destruct (drain_one_listeners msg w) as (G1 & G2 & G3 & _ & G4).
  rewrite H1, H2, H3, H4. auto.
Qed.

(** A socket that is not OPEN is left alone by the loop. *)
Lemma drain_ws_not_open q : forall w,
  WebSocket.is_open w = false -> drain_ws ua q w = w.
Proof.
  induction q as [|msg q IH]; intros w Hw; [reflexivity|].
  change (drain_ws ua (msg :: q) w) with (drain_ws ua q (drain_one ua msg w)).
  destruct (drain_one_listeners msg w) as (_ & _ & _ & G & _).
  rewrite (G Hw). apply IH. exact Hw.
Qed.

(** While the browser buffers, the loop transmits the payloads in queue
    order. *)
Lemma drain_ws_buffered q : forall w,
  WebSocket.is_open w = true ->
  buffers_all ua (WebSocket.sent w) (payloads q) = true ->
  drain_ws ua q w = WebSocket.set_sent (WebSocket.sent w ++ payloads q) w.
Proof.
  induction q as [|msg q IH]; intros w Hw Hb.
  - simpl. rewrite app_nil_r. destruct w; reflexivity.
  - change (drain_ws ua (msg :: q) w) with (drain_ws ua q (drain_one ua msg w)).
    destruct msg as [|text].
    + simpl. apply IH; assumption.
    + change (payloads (json text :: q)) with (text :: payloads q) in *.
      simpl in Hb. apply andb_true_iff in Hb as [Hb1 Hb2].
      assert (E : drain_one ua (json text) w =
                  WebSocket.set_sent (WebSocket.sent w ++ [text]) w).
      { unfold drain_one, transmit, WebSocket.send. rewrite Hw.
        unfold WebSocket.is_open in Hw.
        destruct (WebSocket.readyState w); try discriminate.
        rewrite Hb1. reflexivity. }
      rewrite E, IH.
      * unfold WebSocket.set_sent. simpl. rewrite <- app_assoc. reflexivity.
      * exact Hw.
      * exact Hb2.
Qed.

(** When the browser cannot buffer a frame the socket leaves OPEN, and
    the rest of the queue reaches no one. *)
Lemma drain_ws_full q1 text q2 w :
  WebSocket.is_open w = true ->
  buffers_all ua (WebSocket.sent w) (payloads q1) = true ->
  buffers ua (WebSocket.sent w ++ payloads q1) text = false ->
  drain_ws ua (q1 ++ json text :: q2) w =
  WebSocket.set_readyState WebSocket.CLOSING
    (WebSocket.set_sent (WebSocket.sent w ++ payloads q1) w).
Proof.
  intros Hw Hb Hf.
  assert (Happ : drain_ws ua (q1 ++ json text :: q2) w =
                 drain_ws ua q2 (drain_one ua (json text) (drain_ws ua q1 w))).
  { unfold drain_ws. rewrite fold_left_app. reflexivity. }
  rewrite Happ, (drain_ws_buffered q1 w Hw Hb).
  assert (E : drain_one ua (json text)
                (WebSocket.set_sent (WebSocket.sent w ++ payloads q1) w) =
              WebSocket.set_readyState WebSocket.CLOSING
                (WebSocket.set_sent (WebSocket.sent w ++ payloads q1) w)).
  { unfold drain_one, transmit, WebSocket.send, WebSocket.is_open in *.
    simpl. destruct (WebSocket.readyState w); try discriminate.
    rewrite Hf. reflexivity. }
  rewrite E. apply drain_ws_not_open. reflexivity.
Qed.

(** One iteration of the loop body, after the shift. *)
Lemma drain_cons i msg q s :
  drain ua i (msg :: q) s =
  drain ua i q (on_socket i (drain_one ua msg) (set_messageQueueRef q s)).
Proof.
  cbn [drain]. f_equal.
  change (socket i (set_messageQueueRef q s)) with (socket i s).
  destruct msg as [|text].
  - symmetry. apply on_socket_id. reflexivity.
  - destruct (socket i s) as [w|] eqn:E.
    + destruct (WebSocket.is_open w) eqn:O.
      * unfold on_socket.
        change (socket i (set_messageQueueRef q s)) with (socket i s).
        rewrite E. unfold drain_one, transmit. rewrite O.
        cbn [JSON_stringify].
        destruct (WebSocket.send ua text w) eqn:S; [reflexivity|].
        unfold WebSocket.send, WebSocket.is_open in *.
        destruct (WebSocket.readyState w); try discriminate.
        destruct (buffers ua (WebSocket.sent w) text); discriminate.
      * symmetry. apply on_socket_id. intros w' Hw'.
        change (socket i (set_messageQueueRef q s)) with (socket i s) in Hw'.
        rewrite E in Hw'. injection Hw' as <-.
        unfold drain_one. rewrite O. reflexivity.
    + unfold on_socket.
      change (socket i (set_messageQueueRef q s)) with (socket i s).
      rewrite E. reflexivity.
Qed.

Lemma drain_frame i q : forall s,
  let s' := drain ua i q s in
  state s' = state s /\ lastMessage s' = lastMessage s /\
  error s' = error s /\ webSocketRef s' = webSocketRef s /\
  retriesRef s' = retriesRef s /\ retryTimeoutRef s' = retryTimeoutRef s /\
  connectRef s' = connectRef s /\
  timers s' = timers s /\ nextTimer s' = nextTimer s /\ log s' = log s /\
  length (sockets s') = length (sockets s).
Proof.
  induction q as [|msg q IH]; intros s; [repeat split|].
  cbv zeta. rewrite drain_cons.
  specialize (IH (on_socket i (drain_one ua msg) (set_messageQueueRef q s))).
  cbv zeta in IH. autorewrite with frame in IH. rewrite length_on_socket in IH.
  exact IH.
Qed.

(** The loop always leaves the queue it was given empty. *)
Lemma messageQueueRef_drain i q : forall s,
  messageQueueRef s = q -> messageQueueRef (drain ua i q s) = [].
Proof.
  induction q as [|msg q IH]; intros s Hq; [exact Hq|].
  rewrite drain_cons. apply IH. autorewrite with frame. reflexivity.
Qed.

Lemma socket_drain i j q : forall s,
  socket j (drain ua i q s) =
  if decide (i = j) then drain_ws ua q <$> socket j s else socket j s.
Proof.
  induction q as [|msg q IH]; intros s.
  - simpl. destruct (decide (i = j)); [|reflexivity].
    destruct (socket j s); reflexivity.
  - rewrite drain_cons, IH, socket_on_socket.
    change (socket j (set_messageQueueRef q s)) with (socket j s).
    destruct (decide (i = j)); [|reflexivity].
    destruct (socket j s); reflexivity.
Qed.

(** [handleOpen], cell by cell. *)
Lemma handleOpen_spec i s :
  let s' := handleOpen ua i s in
  state s' = WebSocketState.OPEN /\ retriesRef s' = 0%Z /\
  error s' = None /\ log s' = log s ++ [onConnect] /\
  messageQueueRef s' = [] /\
  webSocketRef s' = webSocketRef s /\
  retryTimeoutRef s' = retryTimeoutRef s /\
  connectRef s' = connectRef s /\ nextTimer s' = nextTimer s /\
  lastMessage s' = lastMessage s /\
  timers s' = timers (clear_connectionTimeout i s) /\
  length (sockets s') = length (sockets s) /\
  forall j, socket j s' =
            if decide (i = j)
            then drain_ws ua (messageQueueRef s) <$> socket j s
            else socket j s.
Proof.
  cbv zeta. unfold handleOpen. cells. autorewrite with frame.
  set (s0 := setError None (set_retriesRef 0
               (setState WebSocketState.OPEN (clear_connectionTimeout i s)))).
  destruct (drain_frame i (messageQueueRef s) s0)
    as (H1&H2&H3&H4&H5&H6&H7&H8&H9&H10&H11).
  cbv zeta in *. rewrite H1, H3, H5, H10, H4, H6, H7, H9, H2, H8, H11.
  unfold s0. cells. autorewrite with frame.
  repeat split.
  - apply messageQueueRef_drain. cells. autorewrite with frame. reflexivity.
  - intros j. change (socket j (emit onConnect ?x)) with (socket j x).
    rewrite socket_drain.
    change (socket j (setError _ _)) with (socket j (clear_connectionTimeout i s)).
    unfold clear_connectionTimeout. rewrite socket_clearTimeout_if.
    reflexivity.
Qed.

End Queue.

Section QueueOrder.

Variable ua : UserAgent.
Variable opts : Options.

Lemma sendMessage_queues message s :
  current_is_open s = false ->
  sendMessage ua message s =
  set_messageQueueRef (messageQueueRef s ++ [message]) s.
Proof.
  unfold current_is_open, sendMessage, current.
  destruct (webSocketRef s) as [i|]; [|reflexivity].
  destruct (socket i s) as [w|]; [|reflexivity].
  intros ->. reflexivity.
Qed.

Lemma sendMessage_transmits message s i w :
  webSocketRef s = Some i -> socket i s = Some w ->
  WebSocket.is_open w = true ->
  sendMessage ua message s =
  on_socket i (transmit ua (JSON_stringify message)) s.
Proof.
  intros Hi Hw Ho. unfold sendMessage, current. rewrite Hi, Hw, Ho.
  unfold on_socket. rewrite Hw. unfold transmit.
  destruct (WebSocket.send ua (JSON_stringify message) w) eqn:S;
    [reflexivity|].
  unfold WebSocket.send, WebSocket.is_open in *.
  destruct (WebSocket.readyState w); try discriminate.
  destruct (buffers ua _ _); discriminate.
Qed.


Lemma current_is_open_ext s s' :
  webSocketRef s' = webSocketRef s -> sockets s' = sockets s ->
  current_is_open s' = current_is_open s.
Proof.
  intros Hr Hs. unfold current_is_open, current, socket.
  rewrite Hr, Hs. reflexivity.
Qed.


Lemma current_is_open_connect_prepared s :
  current_is_open (connect_prepared s) = false.
Proof.
  unfold current_is_open, current.
  destruct (connect_prepared_frame s) as (_&_&Hr&_). cbv zeta in Hr.
  rewrite Hr. destruct (webSocketRef s) as [i|] eqn:E; [|reflexivity].
  rewrite socket_connect_prepared, E, decide_True by reflexivity.
  destruct (socket i s) as [w|]; [|reflexivity]. simpl.
  apply WebSocket_close_not_open.
Qed.






(** The open event of a listening handle: the queue is emptied into the
    socket. *)
Lemma step_open_drains i s s' w :
  socket i s = Some w -> WebSocket.listeners w = true ->
  step ua opts (ev_open i) s = Some s' ->
  WebSocket.readyState w = WebSocket.CONNECTING /\
  s' = handleOpen ua i
         (on_socket i (WebSocket.set_readyState WebSocket.OPEN) s) /\
  messageQueueRef s' = [] /\
  socket i s' =
    Some (drain_ws ua (messageQueueRef s)
            (WebSocket.set_readyState WebSocket.OPEN w)).
Proof.
  intros Hw Hl Hstep. unfold step in Hstep. rewrite Hw in Hstep.
  simpl in Hstep. unfold WebSocket.is_connecting in Hstep.
  destruct (WebSocket.readyState w) eqn:R; try discriminate.
  rewrite Hl in Hstep. injection Hstep as <-.
  split; [reflexivity|]. split; [reflexivity|].
  destruct (handleOpen_spec ua i
              (on_socket i (WebSocket.set_readyState WebSocket.OPEN) s))
    as (_&_&_&_&Hq&_&_&_&_&_&_&_&Hs).
  cbv zeta in *. split; [exact Hq|].
  rewrite Hs, decide_True by reflexivity.
  rewrite (socket_on_socket_eq _ _ _ _ Hw). autorewrite with frame.
  reflexivity.
Qed.


End QueueOrder.

Section QueueTheorems.

Variable ua : UserAgent.
Variable opts : Options.



(** C10. The open transition empties the queue whatever becomes of the
    socket. If the browser buffers the payloads of [q1] but not the next
    one, the socket leaves OPEN at that message: the queue still ends
    empty, only the payloads of [q1] have been handed to the socket, the
    last error is clear and the only effect is [onConnect]; the message
    that did not fit and all of [q2] are gone. At the level of the loop:
    run on a handle that is not OPEN, it shifts every message and changes
    nothing else. *)
Theorem drain_discards_when_socket_leaves_open
    (s : State) (i : nat) (w : WebSocket.t)
    (q1 q2 : list JsValue) (text : string) :
  (WebSocket.is_open w = false -> socket i s = Some w ->
   drain ua i (messageQueueRef s) s = set_messageQueueRef [] s) /\
  (socket i s = Some w ->
   WebSocket.readyState w = WebSocket.CONNECTING ->
   WebSocket.listeners w = true ->
   messageQueueRef s = q1 ++ json text :: q2 ->
   buffers_all ua (WebSocket.sent w) (payloads q1) = true ->
   buffers ua (WebSocket.sent w ++ payloads q1) text = false ->
   exists s',
     step ua opts (ev_open i) s = Some s' /\
     messageQueueRef s' = [] /\
     socket i s' =
       Some (WebSocket.set_readyState WebSocket.CLOSING
               (WebSocket.set_sent (WebSocket.sent w ++ payloads q1) w)) /\
     error s' = None /\
     log s' = log s ++ [onConnect]).
Proof.
  split.
  - intros Ho Hw.
    destruct (drain_frame ua i (messageQueueRef s) s)
      as (H1&H2&H3&H4&H5&H6&H7&H8&H9&H10&H11). cbv zeta in *.
    apply State_eq; cells; try assumption.
    + apply messageQueueRef_drain. reflexivity.
    + apply list_eq. intros j.
      change (socket j (drain ua i (messageQueueRef s) s) = socket j s).
      rewrite socket_drain. destruct (decide (i = j)) as [<-|]; [|reflexivity].
      rewrite Hw. simpl. rewrite drain_ws_not_open by exact Ho. reflexivity.
  - intros Hw Hr Hl Hq Hb Hf.
    assert (Hstep : step ua opts (ev_open i) s =
                    Some (handleOpen ua i
                            (on_socket i
                               (WebSocket.set_readyState WebSocket.OPEN) s))).
    { unfold step. rewrite Hw. simpl. unfold WebSocket.is_connecting.
      rewrite Hr, Hl. reflexivity. }
    eexists. split; [exact Hstep|].
    destruct (step_open_drains ua opts i s _ w Hw Hl Hstep)
      as (_ & _ & Hq' & Hs').
    destruct (handleOpen_spec ua i
                (on_socket i (WebSocket.set_readyState WebSocket.OPEN) s))
      as (_&_&He&Hlog&_).
    cbv zeta in *. split; [exact Hq'|]. split; [|split].
    + rewrite Hs', Hq.
      rewrite (drain_ws_full ua q1 text q2
                 (WebSocket.set_readyState WebSocket.OPEN w));
        [reflexivity|reflexivity|exact Hb|exact Hf].
    + exact He.
    + rewrite Hlog. autorewrite with frame. reflexivity.
Qed.

End QueueTheorems.



Lemma drain_discards_when_socket_leaves_open_witness :
  exists s',
    step one_frame_agent demo_options (ev_open 0)
      (sendMessage one_frame_agent (json "c")
         (sendMessage one_frame_agent (json "b")
            (sendMessage one_frame_agent (json "a")
               (mounted one_frame_agent demo_options)))) = Some s' /\
    messageQueueRef s' = [] /\
    WebSocket.sent <$> socket 0 s' = Some ["a"] /\
    WebSocket.readyState <$> socket 0 s' = Some WebSocket.CLOSING /\
    error s' = None.
Proof.
  pose proof (drain_discards_when_socket_leaves_open
                one_frame_agent demo_options
                (sendMessage one_frame_agent (json "c")
                   (sendMessage one_frame_agent (json "b")
                      (sendMessage one_frame_agent (json "a")
                         (mounted one_frame_agent demo_options))))
                0 (WebSocket.new 1) [json "a"] [json "c"] "b") as [_ H].
  destruct (H ltac:(vm_compute; reflexivity) ltac:(vm_compute; reflexivity)
              ltac:(vm_compute; reflexivity) ltac:(vm_compute; reflexivity)
              ltac:(vm_compute; reflexivity) ltac:(vm_compute; reflexivity))
    as (s' & Hstep & Hq & Hs & He & _).
  exists s'. split; [exact Hstep|]. split; [exact Hq|].
  rewrite Hs. split; [vm_compute; reflexivity|].
  split; [vm_compute; reflexivity|exact He].
Defined.

(** ** Invariants of the lifecycle *)

Lemma sockets_alike_refl s' s : sockets s' = sockets s -> sockets_alike s' s.
Proof.
  intros H j. unfold socket. rewrite H.
  destruct (sockets s !! j); [split; reflexivity|exact I].
Qed.

Lemma sockets_alike_on_socket i f s :
  (forall w, socket i s = Some w -> same_liveness (f w) w) ->
  sockets_alike (on_socket i f s) s.
Proof.
  intros Hf j. rewrite socket_on_socket.
  destruct (decide (i = j)) as [->|]; destruct (socket j s); simpl; auto;
    split; reflexivity.
Qed.

Lemma sockets_alike_trans s1 s2 s3 :
  sockets_alike s1 s2 -> sockets_alike s2 s3 -> sockets_alike s1 s3.
Proof.
  intros H12 H23 j. specialize (H12 j). specialize (H23 j).
  destruct (socket j s1), (socket j s2), (socket j s3); try tauto.
  destruct H12, H23. split; congruence.
Qed.

Lemma NoDup_fst_filter (f : nat * Timer -> bool) l :
  NoDup (fst <$> l) -> NoDup (fst <$> List.filter f l).
Proof.
  induction l as [|p l IH]; intros H; [exact H|].
  simpl in *. apply NoDup_cons in H as [Hp Hl].
  destruct (f p); [|auto]. simpl. apply NoDup_cons. split; [|auto].
  intros Hin. apply Hp. apply list_elem_of_fmap in Hin as (x & -> & Hx).
  apply list_elem_of_fmap. exists x. split; [reflexivity|].
  apply list_elem_of_In. apply list_elem_of_In in Hx.
  apply filter_In in Hx. tauto.
Qed.

Lemma NoDup_timers_clearTimeout_if o s :
  NoDup (fst <$> timers s) -> NoDup (fst <$> timers (clearTimeout_if o s)).
Proof.
  destruct o as [[|n]|]; simpl; auto. apply NoDup_fst_filter.
Qed.

Lemma same_liveness_close w : same_liveness (WebSocket.close w) w.
Proof.
  unfold same_liveness, WebSocket.close, WebSocket.is_closed.
  destruct (WebSocket.readyState w) eqn:R; simpl; rewrite ?R; auto.
Qed.

Lemma quiet_refl s : quiet s s.
Proof.
  repeat split; auto. apply sockets_alike_refl. reflexivity.
Qed.

Lemma quiet_trans s1 s2 s3 : quiet s1 s2 -> quiet s2 s3 -> quiet s1 s3.
Proof.
  intros (A1&A2&A3&A4&A5&A6&A7) (B1&B2&B3&B4&B5&B6&B7).
  repeat split; try congruence; auto.
  eapply sockets_alike_trans; eauto.
Qed.

Lemma quiet_on_socket i f s :
  (forall w, socket i s = Some w -> same_liveness (f w) w) ->
  quiet s (on_socket i f s).
Proof.
  intros Hf. unfold quiet. autorewrite with frame.
  repeat split; auto. apply sockets_alike_on_socket. exact Hf.
Qed.

Lemma quiet_clearTimeout_if o s : quiet s (clearTimeout_if o s).
Proof.
  unfold quiet. autorewrite with frame. repeat split.
  - apply sockets_alike_refl. autorewrite with frame. reflexivity.
  - intros p. apply In_timers_clearTimeout_if.
  - apply NoDup_timers_clearTimeout_if.
Qed.

Lemma quiet_clearTimeout id s : quiet s (clearTimeout id s).
Proof.
  unfold quiet. cells. repeat split.
  - apply sockets_alike_refl. reflexivity.
  - intros p Hp. apply filter_In in Hp. tauto.
  - apply NoDup_fst_filter.
Qed.

(** A quiet task that leaves the sockets, timers and refs alone. *)
Lemma quiet_cells s s' :
  webSocketRef s' = webSocketRef s -> retryTimeoutRef s' = retryTimeoutRef s ->
  connectRef s' = connectRef s -> nextTimer s' = nextTimer s ->
  sockets s' = sockets s -> timers s' = timers s -> quiet s s'.
Proof.
  intros H1 H2 H3 H4 H5 H6. unfold quiet. rewrite H6.
  repeat split; auto. apply sockets_alike_refl. exact H5.
Qed.

Lemma wf_quiet s s' : quiet s s' -> wf s -> wf s'.
Proof.
  intros (A1&A2&A3&A4&A5&A6&A7) (W1&W2&W3&W4).
  unfold wf. rewrite A2, A3, A4. repeat split; auto;
    try (apply (W3 id t); auto); try (apply (W4 id); auto).
Qed.

Lemma inv_quiet s s' : quiet s s' -> inv s -> inv s'.
Proof.
  intros (A1&A2&A3&A4&A5&A6&A7) (I1&I2&I3&I4).
  unfold inv. rewrite A1, A2. split; [auto|]. split; [|split].
  - intros i w' Hw'. specialize (A5 i). rewrite Hw' in A5.
    destruct (socket i s) as [w|] eqn:E; [|contradiction].
    destruct A5 as [Hl Hc]. rewrite Hl, Hc. eapply I2; eauto.
  - intros i w' Hw' Hne. specialize (A5 i). rewrite Hw' in A5.
    destruct (socket i s) as [w|] eqn:E; [|contradiction].
    destruct A5 as [Hl Hc]. rewrite Hc. eapply I3; eauto.
  - intros id t Hin Hr. destruct (I4 id t (A6 _ Hin) Hr) as [Href Hall].
    split; [exact Href|]. intros i w' Hw'. specialize (A5 i).
    rewrite Hw' in A5. destruct (socket i s) as [w|] eqn:E; [|contradiction].
    destruct A5 as [Hl Hc]. rewrite Hc. eapply Hall; eauto.
Qed.

Lemma all_closed_quiet s s' : quiet s s' -> (all_closed s <-> all_closed s').
Proof.
  intros (_&_&_&_&A5&_). split; intros H i w Hw; specialize (A5 i);
    rewrite Hw in A5.
  - destruct (socket i s) as [w0|] eqn:E; [|contradiction].
    destruct A5 as [_ Hc]. rewrite Hc. eapply H; eauto.
  - destruct (socket i s') as [w0|] eqn:E; [|contradiction].
    destruct A5 as [_ Hc]. rewrite <- Hc. eapply H; eauto.
Qed.

Section Lifecycle.

Variable ua : UserAgent.
Variable opts : Options.

Lemma same_liveness_transmit data w : same_liveness (transmit ua data w) w.
Proof.
  unfold same_liveness, transmit, WebSocket.send, WebSocket.is_closed.
  destruct (WebSocket.readyState w) eqn:R; simpl; rewrite ?R; auto.
  destruct (buffers ua (WebSocket.sent w) data); simpl; rewrite ?R; auto.
Qed.

Lemma same_liveness_drain_ws q w : same_liveness (drain_ws ua q w) w.
Proof.
  destruct (drain_ws_listeners ua q w) as (H1 & _ & H3 & _).
  split; assumption.
Qed.

Lemma quiet_handleOpen i s : quiet s (handleOpen ua i s).
Proof.
  destruct (handleOpen_spec ua i s) as (_&_&_&_&_&Hr&Ht&Hc&Hn&_&Htm&_&Hs).
  cbv zeta in *. unfold quiet. rewrite Hr, Ht, Hc, Hn, Htm.
  repeat split.
  - intros j. rewrite Hs. destruct (decide (i = j)).
    + destruct (socket j s); simpl; [apply same_liveness_drain_ws|exact I].
    + destruct (socket j s); [split; reflexivity|exact I].
  - intros p. apply In_timers_clearTimeout_if.
  - apply NoDup_timers_clearTimeout_if.
Qed.

Lemma quiet_handleError i s : quiet s (handleError i s).
Proof.
  eapply quiet_trans; [apply (quiet_clearTimeout_if
                                (WebSocket.connectionTimeoutId <$> socket i s))|].
  apply quiet_cells; reflexivity.
Qed.

Lemma quiet_handleMessage data s : quiet s (handleMessage ua data s).
Proof.
  destruct (handleMessage_spec ua data s) as (Hs&Ht&_&_&_&_&_&_&Hr&Hrt&Hn&Hc&_).
  apply quiet_cells; assumption.
Qed.

Lemma quiet_sendMessage message s : quiet s (sendMessage ua message s).
Proof.
  destruct (current_is_open s) eqn:Ho.
  - unfold current_is_open, current in Ho.
    destruct (webSocketRef s) as [i|] eqn:Hi; [|discriminate].
    destruct (socket i s) as [w|] eqn:Hw; [|discriminate].
    rewrite (sendMessage_transmits ua message s i w Hi Hw Ho).
    apply quiet_on_socket. intros w' _. apply same_liveness_transmit.
  - rewrite sendMessage_queues by exact Ho. apply quiet_cells; reflexivity.
Qed.

Lemma quiet_close_current s :
  quiet s (match webSocketRef s with
           | Some i => on_socket i WebSocket.close s
           | None => s
           end).
Proof.
  destruct (webSocketRef s) as [i|]; [|apply quiet_refl].
  apply quiet_on_socket. intros w _. apply same_liveness_close.
Qed.

Lemma quiet_cleanup s : quiet s (cleanup s).
Proof.
  unfold cleanup.
  eapply quiet_trans; [apply (quiet_clearTimeout_if (retryTimeoutRef s))|].
  apply quiet_close_current.
Qed.

Lemma quiet_fire_connectionTimeout i s :
  quiet s (fire ua opts (connectionTimeout i) s).
Proof.
  rewrite fire_connectionTimeout. apply quiet_on_socket. intros w _.
  destruct (WebSocket.is_connecting w); [apply same_liveness_close|].
  split; reflexivity.
Qed.

(** Every task is quiet except a close event, a retry timer and a manual
    reconnect. *)
Lemma step_quiet e s s' :
  step ua opts e s = Some s' ->
  match e with
  | ev_close _ | call_reconnect => False
  | ev_timer id =>
      exists t i, pending id s = Some t /\ callback t = connectionTimeout i
  | _ => True
  end ->
  quiet s s'.
Proof.
  intros Hstep He. destruct e; try contradiction; simpl in Hstep.
  - (* open *)
    destruct (socket i s) as [w|] eqn:Hw; [|discriminate]. simpl in Hstep.
    destruct (WebSocket.is_connecting w) eqn:Hc; [|discriminate].
    injection Hstep as <-.
    assert (Q : quiet s (on_socket i (WebSocket.set_readyState WebSocket.OPEN) s)).
    { apply quiet_on_socket. intros w' Hw'. rewrite Hw in Hw'.
      injection Hw' as <-. unfold WebSocket.is_connecting in Hc.
      unfold same_liveness, WebSocket.is_closed. simpl.
      destruct (WebSocket.readyState w); try discriminate. auto. }
    destruct (WebSocket.listeners w); [|exact Q].
    eapply quiet_trans; [exact Q|apply quiet_handleOpen].
  - (* message *)
    destruct (socket i s) as [w|]; [|discriminate]. simpl in Hstep.
    destruct (WebSocket.readyState w), (WebSocket.listeners w);
      try discriminate; injection Hstep as <-;
      try apply quiet_refl; apply quiet_handleMessage.
  - (* error *)
    destruct (socket i s) as [w|]; [|discriminate]. simpl in Hstep.
    injection Hstep as <-.
    destruct (WebSocket.listeners w); [apply quiet_handleError|apply quiet_refl].
  - (* connect timeout *)
    destruct He as (t & i & Hp & Hcb). rewrite Hp in Hstep. simpl in Hstep.
    injection Hstep as <-. rewrite Hcb.
    eapply quiet_trans; [apply quiet_clearTimeout|].
    apply quiet_fire_connectionTimeout.
  - (* sendMessage *)
    injection Hstep as <-. apply quiet_sendMessage.
  - (* unmount *)
    injection Hstep as <-. apply quiet_cleanup.
Qed.

(** *** [wf] holds in every reachable state *)

Lemma wf_setTimeout cb ms s :
  wf s -> wf (snd (setTimeout cb ms s)).
Proof.
  intros (W1&W2&W3&W4). unfold wf. cells. repeat split; auto; try lia.
  - apply in_app_or in H as [H|[H|[]]].
    + apply (W3 id t H).
    + injection H as <- _. exact W2.
  - apply in_app_or in H as [H|[H|[]]].
    + specialize (W3 id t H). lia.
    + injection H as <- _. lia.
  - apply (W4 id H).
  - specialize (W4 id H). lia.
Qed.

Lemma quiet_connect_prepared s : quiet s (connect_prepared s).
Proof.
  eapply quiet_trans; [apply quiet_close_current|].
  apply quiet_cells; reflexivity.
Qed.

Lemma wf_connect s : wf s -> wf (connect ua opts s).
Proof.
  intros W. destruct (current_is_open s) eqn:Ho.
  - rewrite connect_open by exact Ho. exact W.
  - rewrite connect_not_open by exact Ho. cbv zeta.
    pose proof (wf_quiet _ _ (quiet_connect_prepared s) W) as W1.
    destruct (constructor_throws ua (url opts)).
    + eapply wf_quiet; [|exact W1]. apply quiet_cells; reflexivity.
    + pose proof (wf_setTimeout (connectionTimeout (length (sockets s)))
                    5000 _ W1) as W2.
      destruct W2 as (A&B&C&D). unfold wf. cells. cells_in A. cells_in B.
      cells_in C. cells_in D. auto.
Qed.

Lemma wf_handleClose i s : wf s -> wf (handleClose opts i s).
Proof.
  intros (W1&W2&W3&W4).
  destruct (handleClose_spec opts i s) as (_&_&_&_&Hc&_&H). cbv zeta in *.
  assert (W3' : forall id t,
             In (id, t) (timers (clear_connectionTimeout i s)) ->
             0 < id < nextTimer s).
  { intros id t Hin. apply (W3 id t).
    eapply In_timers_clearTimeout_if. exact Hin. }
  unfold wf. rewrite Hc.
  destruct H as [(_&_&_&_&Hr&Hn&Ht&_)|[(_&_&_&_&Hr&Hn&Ht&_)|(_&_&_&Hr&Hn&Ht&_)]];
    rewrite Hr, Hn, Ht; repeat split; auto; try lia.
  - apply in_app_or in H as [H|[H|[]]].
    + apply (W3' id t H).
    + injection H as <- _. exact W2.
  - apply in_app_or in H as [H|[H|[]]].
    + specialize (W3' id t H). lia.
    + injection H as <- _. lia.
  - injection H as <-. exact W2.
  - injection H as <-. lia.
  - apply (W3' id t H).
  - apply (W3' id t H).
  - apply (W4 id H).
  - apply (W4 id H).
  - apply (W3' id t H).
  - apply (W3' id t H).
  - apply (W4 id H).
  - apply (W4 id H).
Qed.

(** The state in which [reconnect] calls [connect]. *)
Lemma quiet_reconnect_prepared s :
  quiet s
    (setError None
       (clearTimeout_if (retryTimeoutRef s)
          (set_retriesRef 0
             (match webSocketRef s with
              | Some i => on_socket i WebSocket.close s
              | None => s
              end)))).
Proof.
  set (s1 := match webSocketRef s with
             | Some i => on_socket i WebSocket.close s
             | None => s
             end).
  apply (quiet_trans _ s1); [apply quiet_close_current|].
  apply (quiet_trans _ (set_retriesRef 0 s1));
    [apply quiet_cells; reflexivity|].
  apply (quiet_trans _ (clearTimeout_if (retryTimeoutRef s)
                          (set_retriesRef 0 s1)));
    [apply quiet_clearTimeout_if|].
  apply quiet_cells; reflexivity.
Qed.

Lemma reconnect_unfold s :
  connectRef s = true ->
  reconnect ua opts s =
  connect ua opts
    (setError None
       (clearTimeout_if (retryTimeoutRef s)
          (set_retriesRef 0
             (match webSocketRef s with
              | Some i => on_socket i WebSocket.close s
              | None => s
              end)))).
Proof.
  intros Hc. unfold reconnect. cells.
  assert (E1 : retryTimeoutRef
                 match webSocketRef s with
                 | Some i => on_socket i WebSocket.close s
                 | None => s
                 end = retryTimeoutRef s).
  { destruct (webSocketRef s); autorewrite with frame; reflexivity. }
  assert (E2 : connectRef
                 match webSocketRef s with
                 | Some i => on_socket i WebSocket.close s
                 | None => s
                 end = connectRef s).
  { destruct (webSocketRef s); autorewrite with frame; reflexivity. }
  rewrite E1. autorewrite with frame. cells. rewrite E2, Hc. reflexivity.
Qed.

Lemma wf_step e s s' : step ua opts e s = Some s' -> wf s -> wf s'.
Proof.
  intros Hstep W.
  destruct e; try (eapply wf_quiet; [eapply step_quiet; eauto; exact I|exact W]).
  - (* close *)
    simpl in Hstep. destruct (socket i s) as [w|]; [|discriminate].
    simpl in Hstep. destruct (WebSocket.is_closed w); [discriminate|].
    injection Hstep as <-.
    assert (W0 : wf (on_socket i (WebSocket.set_readyState WebSocket.CLOSED) s)).
    { destruct W as (W1&W2&W3&W4). unfold wf. autorewrite with frame. auto. }
    destruct (WebSocket.listeners w); [apply wf_handleClose|]; exact W0.
  - (* timer *)
    simpl in Hstep. destruct (pending id s) as [t|] eqn:Hp; [|discriminate].
    simpl in Hstep. injection Hstep as <-.
    pose proof (wf_quiet _ _ (quiet_clearTimeout id s) W) as W1.
    destruct (callback t) as [i|].
    + eapply wf_quiet; [apply quiet_fire_connectionTimeout|exact W1].
    + unfold fire. destruct (connectRef (clearTimeout id s)); [|exact W1].
      apply wf_connect. exact W1.
  - (* reconnect *)
    simpl in Hstep. injection Hstep as <-.
    rewrite reconnect_unfold by (apply W). apply wf_connect.
    eapply wf_quiet; [apply quiet_reconnect_prepared|exact W].
Qed.

Lemma wf_mounted : wf (mounted ua opts).
Proof.
  apply wf_connect. unfold wf. simpl. repeat split; try lia; try tauto;
    discriminate.
Qed.

Lemma reachable_wf s : reachable ua opts s -> wf s.
Proof.
  induction 1 as [|e s s' _ IH Hstep]; [apply wf_mounted|].
  eapply wf_step; eauto.
Qed.

End Lifecycle.

(** ** Manual reconnect and unmount *)

Section Reconnect.

Variable ua : UserAgent.
Variable opts : Options.

Lemma current_is_open_reconnect_prepared s :
  current_is_open
    (setError None
       (clearTimeout_if (retryTimeoutRef s)
          (set_retriesRef 0
             (match webSocketRef s with
              | Some i => on_socket i WebSocket.close s
              | None => s
              end)))) = false.
Proof.
  rewrite <- (current_is_open_connect_prepared s).
  apply current_is_open_ext; cells; autorewrite with frame; reflexivity.
Qed.

Lemma socket_close_current i s :
  socket i (match webSocketRef s with
            | Some j => on_socket j WebSocket.close s
            | None => s
            end) =
  if decide (webSocketRef s = Some i)
  then WebSocket.close <$> socket i s else socket i s.
Proof.
  destruct (webSocketRef s) as [j|].
  - rewrite socket_on_socket. destruct (decide (j = i)) as [->|Hne].
    + rewrite decide_True by reflexivity. reflexivity.
    + rewrite decide_False by congruence. reflexivity.
  - rewrite decide_False by discriminate. reflexivity.
Qed.


End Reconnect.


(** C2 does not hold of the code. The hook is connected, the component
    unmounts, and the socket closed by the cleanup delivers its close
    event: the listeners are still attached, so the close handler
    schedules a retry, and when that timer fires a new socket is opened. *)
Theorem unmount_close_event_schedules_retry :
  exists s s',
    run reliable_agent demo_options [ev_open 0; ev_unmount; ev_close 0]
      (mounted reliable_agent demo_options) = Some s /\
    retry_timers s = [(2, {| callback := retry; delay := 1000 |})] /\
    step reliable_agent demo_options (ev_timer 2) s = Some s' /\
    webSocketRef s' = Some 1 /\
    socket 1 s' = Some (WebSocket.new 3) /\
    state s' = WebSocketState.CONNECTING.
Proof.
  eexists. eexists. split; [vm_compute; reflexivity|].
  split; [vm_compute; reflexivity|]. split; [vm_compute; reflexivity|].
  vm_compute. repeat split.
Qed.

(** ** Orderly runs keep one live handle and one retry timer *)

Lemma filter_nil_lookup {A} (P : A -> bool) (l : list A) :
  (forall j y, l !! j = Some y -> P y = false) -> List.filter P l = [].
Proof.
  induction l as [|a l IH]; intros H; [reflexivity|].
  simpl. rewrite (H 0 a eq_refl). apply IH.
  intros j y Hj. apply (H (S j) y Hj).
Qed.

Lemma at_most_one_filter {A} (P : A -> bool) (l : list A) :
  (forall i j x y, l !! i = Some x -> l !! j = Some y ->
                   P x = true -> P y = true -> i = j) ->
  length (List.filter P l) <= 1.
Proof.
  induction l as [|a l IH]; intros H; [simpl; lia|].
  simpl. destruct (P a) eqn:Pa.
  - rewrite (filter_nil_lookup P l); [simpl; lia|].
    intros j y Hj. destruct (P y) eqn:Py; [|reflexivity].
    specialize (H 0 (S j) a y eq_refl Hj Pa Py). discriminate.
  - apply IH. intros i j x y Hi Hj Px Py.
    specialize (H (S i) (S j) x y Hi Hj Px Py). lia.
Qed.

Lemma inv_current_of_unclosed s i w :
  inv s -> socket i s = Some w -> WebSocket.is_closed w = false ->
  webSocketRef s = Some i /\ WebSocket.listeners w = true.
Proof.
  intros (_&I2&I3&_) Hw Hc. split.
  - destruct (decide (webSocketRef s = Some i)) as [|Hne]; [assumption|].
    rewrite (I3 i w Hw Hne) in Hc. discriminate.
  - rewrite (I2 i w Hw), Hc. reflexivity.
Qed.

Lemma inv_no_retry_while_unclosed s i w :
  inv s -> socket i s = Some w -> WebSocket.is_closed w = false ->
  no_retry_pending s.
Proof.
  intros (_&_&_&I4) Hw Hc id t Hin.
  destruct (is_retry t) eqn:R; [|reflexivity].
  destruct (I4 id t Hin R) as [_ Hall]. rewrite (Hall i w Hw) in Hc.
  discriminate.
Qed.

Lemma inv_at_most_one_retry_timer s :
  inv s -> length (retry_timers s) <= 1.
Proof.
  intros (I1&_&_&I4). unfold retry_timers. apply at_most_one_filter.
  intros i j [id1 t1] [id2 t2] Hi Hj R1 R2. simpl in R1, R2.
  assert (In1 : In (id1, t1) (timers s)).
  { apply list_elem_of_In. eapply list_elem_of_lookup_2. exact Hi. }
  assert (In2 : In (id2, t2) (timers s)).
  { apply list_elem_of_In. eapply list_elem_of_lookup_2. exact Hj. }
  destruct (I4 id1 t1 In1 R1) as [E1 _]. destruct (I4 id2 t2 In2 R2) as [E2 _].
  assert (id1 = id2) as -> by congruence.
  eapply NoDup_lookup; [exact I1| |];
    rewrite list_lookup_fmap; [rewrite Hi|rewrite Hj]; reflexivity.
Qed.


Lemma NoDup_fst_snoc (l : list (nat * Timer)) n t :
  NoDup (fst <$> l) -> (forall id t', In (id, t') l -> id < n) ->
  NoDup (fst <$> (l ++ [(n, t)])).
Proof.
  intros Hl Hlt. rewrite fmap_app. apply NoDup_app. split; [exact Hl|].
  split; [|apply NoDup_singleton].
  intros x Hx Hn. simpl in Hn. apply list_elem_of_singleton in Hn. subst x.
  apply list_elem_of_fmap in Hx as ([id t'] & E & Hin). simpl in E. subst id.
  apply list_elem_of_In in Hin. specialize (Hlt n t' Hin). lia.
Qed.

Lemma is_closed_close w :
  WebSocket.is_closed (WebSocket.close w) = WebSocket.is_closed w.
Proof. apply same_liveness_close. Qed.

Section Orderly.

Variable ua : UserAgent.
Variable opts : Options.

Lemma step_close_inversion i s s' :
  step ua opts (ev_close i) s = Some s' ->
  exists w, socket i s = Some w /\ WebSocket.is_closed w = false /\
    s' = (if WebSocket.listeners w
          then handleClose opts i
                 (on_socket i (WebSocket.set_readyState WebSocket.CLOSED) s)
          else on_socket i (WebSocket.set_readyState WebSocket.CLOSED) s).
Proof.
  unfold step. destruct (socket i s) as [w|]; [|discriminate].
  cbn [mbind option_bind]. destruct (WebSocket.is_closed w) eqn:Hc;
    [discriminate|].
  intros [= <-]. exists w. auto.
Qed.

Lemma step_timer_inversion id s s' :
  step ua opts (ev_timer id) s = Some s' ->
  exists t, pending id s = Some t /\
    s' = fire ua opts (callback t) (clearTimeout id s).
Proof.
  unfold step. destruct (pending id s) as [t|]; [|discriminate].
  cbn [mbind option_bind]. intros [= <-]. exists t. auto.
Qed.

(** [connect], called while no retry timer is pending and the current
    handle has closed, keeps the invariant. *)
Lemma inv_connect s :
  wf s -> inv s -> no_retry_pending s ->
  (forall w, current s = Some w -> WebSocket.is_closed w = true) ->
  inv (connect ua opts s).
Proof.
  intros W I Hno Hcur.
  assert (Ho : current_is_open s = false).
  { unfold current_is_open. destruct (current s) as [w|] eqn:E; [|reflexivity].
    specialize (Hcur w eq_refl). unfold WebSocket.is_open, WebSocket.is_closed in *.
    destruct (WebSocket.readyState w); try discriminate; reflexivity. }
  destruct (constructor_throws ua (url opts)) as [message|] eqn:Hc.
  - rewrite connect_not_open by exact Ho. cbv zeta. rewrite Hc.
    eapply inv_quiet; [|exact I].
    eapply quiet_trans; [apply quiet_connect_prepared|].
    apply quiet_cells; reflexivity.
  - destruct (connect_new_spec ua opts s Ho Hc) as (_&Hr&_&Ht&_&_&_&_&Hrt&_).
    cbv zeta in *.
    pose proof (fun i => socket_connect_new ua opts i s Ho Hc) as Hs.
    destruct W as (W1&W2&W3&W4). destruct I as (I1&I2&I3&I4).
    unfold inv. rewrite Hr, Ht, Hrt. split; [|split; [|split]].
    + apply NoDup_fst_snoc; [exact I1|]. intros id t' Hin.
      apply (W3 id t' Hin).
    + intros i w' Hw'. rewrite Hs in Hw'.
      destruct (decide (i = length (sockets s))).
      { injection Hw' as <-. reflexivity. }
      destruct (decide (webSocketRef s = Some i)); [|eapply I2; eauto].
      destruct (socket i s) as [w|] eqn:E; [|discriminate].
      injection Hw' as <-. destruct (same_liveness_close w) as [Hl Hcl].
      rewrite Hl, Hcl. eapply I2; eauto.
    + intros i w' Hw' Hne. rewrite Hs in Hw'.
      destruct (decide (i = length (sockets s))); [congruence|].
      destruct (decide (webSocketRef s = Some i)) as [Hi|Hni];
        [|eapply I3; eauto].
      destruct (socket i s) as [w|] eqn:E; [|discriminate].
      injection Hw' as <-. rewrite is_closed_close. apply Hcur.
      unfold current. rewrite Hi. exact E.
    + intros id t Hin R. apply in_app_or in Hin as [Hin|[Hin|[]]].
      * rewrite (Hno id t Hin) in R. discriminate.
      * injection Hin as _ <-. discriminate.
Qed.

(** The close event of a handle that has not closed yet. *)
Lemma inv_close i w s :
  wf s -> inv s -> socket i s = Some w -> WebSocket.is_closed w = false ->
  inv (handleClose opts i
         (on_socket i (WebSocket.set_readyState WebSocket.CLOSED) s)) /\
  all_closed (handleClose opts i
                (on_socket i (WebSocket.set_readyState WebSocket.CLOSED) s)).
Proof.
  intros W I Hw Hc.
  destruct (inv_current_of_unclosed s i w I Hw Hc) as [Hcur Hl].
  pose proof (inv_no_retry_while_unclosed s i w I Hw Hc) as Hno.
  set (s0 := on_socket i (WebSocket.set_readyState WebSocket.CLOSED) s).
  assert (Hs' : forall j, socket j (handleClose opts i s0) =
                  if decide (i = j)
                  then Some (WebSocket.set_listeners false
                               (WebSocket.set_readyState WebSocket.CLOSED w))
                  else socket j s).
  { intros j. rewrite socket_handleClose. unfold s0. rewrite socket_on_socket.
    destruct (decide (i = j)) as [<-|]; [|reflexivity].
    rewrite Hw. reflexivity. }
  destruct W as (W1&W2&W3&W4). destruct I as (I1&I2&I3&I4).
  assert (Hall : all_closed (handleClose opts i s0)).
  { intros j w' Hw'. rewrite Hs' in Hw'.
    destruct (decide (i = j)) as [<-|Hne].
    - injection Hw' as <-. reflexivity.
    - apply (I3 j w' Hw'). congruence. }
  split; [|exact Hall].
  destruct (handleClose_spec opts i s0) as (_&_&Hr&_&_&_&H). cbv zeta in H, Hr.
  assert (Hr0 : webSocketRef s0 = webSocketRef s)
    by (unfold s0; autorewrite with frame; reflexivity).
  assert (Hn0 : nextTimer s0 = nextTimer s)
    by (unfold s0; autorewrite with frame; reflexivity).
  rewrite Hr0 in Hr. rewrite Hn0 in H.
  assert (HT : forall p, In p (timers (clear_connectionTimeout i s0)) ->
                         In p (timers s)).
  { intros p Hp. apply In_timers_clearTimeout_if in Hp. unfold s0 in Hp.
    autorewrite with frame in Hp. exact Hp. }
  assert (HN : NoDup (fst <$> timers (clear_connectionTimeout i s0))).
  { apply NoDup_timers_clearTimeout_if. unfold s0. autorewrite with frame.
    exact I1. }
  unfold inv. rewrite Hr. split; [|split; [|split]].
  - destruct H as [(_&_&_&_&_&_&Ht&_)|[(_&_&_&_&_&_&Ht&_)|(_&_&_&_&_&Ht&_)]];
      rewrite Ht; [|exact HN|exact HN].
    apply NoDup_fst_snoc; [exact HN|]. intros id t' Hin.
    apply (W3 id t'). apply HT. exact Hin.
  - intros j w' Hw'. rewrite Hs' in Hw'.
    destruct (decide (i = j)); [|eapply I2; eauto].
    injection Hw' as <-. reflexivity.
  - intros j w' Hw' _. eapply Hall; eauto.
  - intros id t Hin R.
    destruct H as [(_&_&_&_&Hrt&_&Ht&_)|[(_&_&_&_&_&_&Ht&_)|(_&_&_&_&_&Ht&_)]];
      rewrite Ht in Hin.
    + apply in_app_or in Hin as [Hin|[Hin|[]]].
      * rewrite (Hno id t (HT _ Hin)) in R. discriminate.
      * injection Hin as <- _. split; [exact Hrt|exact Hall].
    + rewrite (Hno id t (HT _ Hin)) in R. discriminate.
    + rewrite (Hno id t (HT _ Hin)) in R. discriminate.
Qed.

Lemma no_retry_after_clearing s id t :
  inv s -> In (id, t) (timers s) -> is_retry t = true ->
  forall s', (forall p, In p (timers s') -> In p (timers s) /\ fst p <> id) ->
             no_retry_pending s'.
Proof.
  intros (_&_&_&I4) Hin R s' Hsub id' t' Hin'.
  destruct (is_retry t') eqn:R'; [|reflexivity].
  destruct (Hsub _ Hin') as [Hin0 Hne]. simpl in Hne.
  destruct (I4 id t Hin R) as [E _]. destruct (I4 id' t' Hin0 R') as [E' _].
  congruence.
Qed.

Lemma inv_step e s s' :
  wf s -> inv s -> orderly e s -> step ua opts e s = Some s' -> inv s'.
Proof.
  intros W Hinv Hord Hstep.
  destruct e;
    try (eapply inv_quiet; [eapply step_quiet; eauto; exact Logic.I|exact Hinv]).
  - (* close *)
    apply step_close_inversion in Hstep as (w & Hw & Hc & ->).
    destruct (inv_current_of_unclosed s i w Hinv Hw Hc) as [_ Hl]. rewrite Hl.
    apply (inv_close i w s W Hinv Hw Hc).
  - (* timer *)
    apply step_timer_inversion in Hstep as (t & Hp & ->).
    pose proof (inv_quiet _ _ (quiet_clearTimeout id s) Hinv) as I1.
    pose proof (wf_quiet _ _ (quiet_clearTimeout id s) W) as W1.
    destruct (callback t) as [i|] eqn:Hcb.
    + eapply inv_quiet; [apply quiet_fire_connectionTimeout|exact I1].
    + unfold fire. destruct (connectRef (clearTimeout id s)); [|exact I1].
      assert (R : is_retry t = true) by (unfold is_retry; rewrite Hcb; reflexivity).
      pose proof (pending_Some id s t Hp) as Hin.
      apply inv_connect; [exact W1|exact I1| |].
      * eapply (no_retry_after_clearing s id t Hinv Hin R).
        intros p Hp'. apply In_timers_clearTimeout. exact Hp'.
      * intros w Hcur. destruct Hinv as (_&_&_&I4).
        destruct (I4 id t Hin R) as [_ Hall].
        unfold current in Hcur. cells_in Hcur.
        destruct (webSocketRef s) as [j|]; [|discriminate].
        eapply Hall. exact Hcur.
  - (* reconnect *)
    simpl in Hstep. injection Hstep as <-.
    rewrite reconnect_unfold by (apply W).
    pose proof (quiet_reconnect_prepared s) as Q.
    set (s4 := setError None _) in *.
    apply inv_connect.
    + eapply wf_quiet; eauto.
    + eapply inv_quiet; eauto.
    + intros id t Hin. destruct (is_retry t) eqn:R; [|reflexivity].
      destruct Q as (_&_&_&_&_&Hsub&_).
      pose proof (Hsub _ Hin) as Hin0.
      destruct Hinv as (_&_&_&I4). destruct (I4 id t Hin0 R) as [E _].
      destruct W as (_&_&_&W4). destruct (W4 id E) as [Hpos _].
      unfold s4 in Hin. cells_in Hin. rewrite E in Hin.
      destruct id as [|n]; [lia|]. cbn [clearTimeout_if] in Hin.
      apply In_timers_clearTimeout in Hin as [_ Hne]. destruct Hne. reflexivity.
    + intros w Hcur. unfold current in Hcur.
      destruct Q as (Href&_&_&_&Halike&_). rewrite Href in Hcur.
      destruct (webSocketRef s) as [j|] eqn:Hj; [|discriminate].
      specialize (Halike j). rewrite Hcur in Halike.
      destruct (socket j s) as [w0|] eqn:E; [|contradiction].
      destruct Halike as [_ Hcl]. rewrite Hcl. apply (Hord eq_refl).
      unfold current. rewrite Hj. exact E.
Qed.

Lemma inv_mounted : inv (mounted ua opts).
Proof.
  apply inv_connect.
  - unfold wf. simpl. repeat split; try lia; try tauto; discriminate.
  - unfold inv. simpl. split; [apply NoDup_nil_2|].
    repeat split; intros; try tauto; unfold socket in *; simpl in *;
      rewrite lookup_nil in *; discriminate.
  - intros id t [].
  - intros w. unfold current. simpl. discriminate.
Qed.

Lemma reachable_orderly_reachable s :
  reachable_orderly ua opts s -> reachable ua opts s.
Proof.
  induction 1; [apply reachable_mounted|eapply reachable_step; eauto].
Qed.

Lemma reachable_orderly_inv s : reachable_orderly ua opts s -> inv s.
Proof.
  induction 1 as [|e s s' Hr IH Ho Hstep]; [apply inv_mounted|].
  eapply inv_step; eauto. apply reachable_wf with ua opts.
  apply reachable_orderly_reachable. exact Hr.
Qed.

End Orderly.


(** ** Exponential backoff *)

Lemma ladder_S base n :
  ladder base (S n) = ladder base n ++ [(base * 2 ^ (Z.of_nat (S n) - 1))%Z].
Proof.
  unfold ladder. rewrite seq_S, fmap_app. reflexivity.
Qed.

Lemma length_ladder base n : length (ladder base n) = n.
Proof. unfold ladder. rewrite length_fmap. apply length_seq. Qed.

Lemma lookup_ladder base n k :
  k < n -> ladder base n !! k = Some (base * 2 ^ (Z.of_nat (S k) - 1))%Z.
Proof.
  intros H. unfold ladder. rewrite list_lookup_fmap.
  rewrite lookup_seq_lt by exact H. reflexivity.
Qed.

Lemma NoDup_fst_functional (l : list (nat * Timer)) id t t' :
  NoDup (fst <$> l) -> In (id, t) l -> In (id, t') l -> t = t'.
Proof.
  induction l as [|[a b] l IH]; intros Hnd H1 H2; [destruct H1|].
  simpl in Hnd. apply NoDup_cons in Hnd as [Hnotin Hnd].
  assert (Hfresh : forall x, In (a, x) l -> False).
  { intros x Hx. apply Hnotin. apply list_elem_of_fmap. exists (a, x).
    split; [reflexivity|]. apply list_elem_of_In. exact Hx. }
  destruct H1 as [E1|H1], H2 as [E2|H2].
  - congruence.
  - injection E1 as -> ->. destruct (Hfresh _ H2).
  - injection E2 as -> ->. destruct (Hfresh _ H1).
  - eapply IH; eauto.
Qed.

Lemma pending_of_In s id t :
  NoDup (fst <$> timers s) -> In (id, t) (timers s) -> pending id s = Some t.
Proof.
  intros Hnd Hin. destruct (pending id s) as [t'|] eqn:E.
  - apply pending_Some in E. f_equal.
    eapply NoDup_fst_functional; eauto.
  - destruct (proj1 (pending_None id s) E t Hin).
Qed.

Lemma retry_timers_nil s : no_retry_pending s -> retry_timers s = [].
Proof.
  intros H. unfold retry_timers. apply filter_nil_lookup.
  intros j [id t] Hj. simpl. apply (H id t).
  apply list_elem_of_In. eapply list_elem_of_lookup_2. exact Hj.
Qed.

Lemma retry_timers_In s id t :
  In (id, t) (timers s) -> is_retry t = true -> retry_timers s <> [].
Proof.
  intros Hin R E.
  assert (H : In (id, t) (retry_timers s)).
  { unfold retry_timers. apply filter_In. auto. }
  rewrite E in H. destruct H.
Qed.

Lemma all_closed_dec s :
  all_closed s \/
  exists i w, socket i s = Some w /\ WebSocket.is_closed w = false.
Proof.
  unfold all_closed, socket. induction (sockets s) as [|a l IH].
  - left. intros i w. rewrite lookup_nil. discriminate.
  - destruct (WebSocket.is_closed a) eqn:Ca.
    + destruct IH as [IH|(i & w & Hi & Hc)].
      * left. intros [|i] w Hw; [injection Hw as <-; exact Ca|].
        apply (IH i w Hw).
      * right. exists (S i), w. auto.
    + right. exists 0, a. auto.
Qed.

Section Backoff.

Variable ua : UserAgent.
Variable opts : Options.

Hypothesis reconnects : shouldReconnect opts = true.
Hypothesis constructs : constructor_throws ua (url opts) = None.

Lemma current_is_open_all_closed s :
  all_closed s -> current_is_open s = false.
Proof.
  intros H. unfold current_is_open, current.
  destruct (webSocketRef s) as [i|]; [|reflexivity].
  destruct (socket i s) as [w|] eqn:E; [|reflexivity].
  specialize (H i w E). unfold WebSocket.is_closed, WebSocket.is_open in *.
  destruct (WebSocket.readyState w); try discriminate; reflexivity.
Qed.

Lemma sendMessage_frame message s :
  let s' := sendMessage ua message s in
  retriesRef s' = retriesRef s /\ log s' = log s /\ error s' = error s /\
  timers s' = timers s.
Proof.
  cbv zeta. destruct (current_is_open s) eqn:Ho.
  - unfold current_is_open, current in Ho.
    destruct (webSocketRef s) as [i|] eqn:Hi; [|discriminate].
    destruct (socket i s) as [w|] eqn:Hw; [|discriminate].
    rewrite (sendMessage_transmits ua message s i w Hi Hw Ho).
    autorewrite with frame. auto.
  - rewrite sendMessage_queues by exact Ho. auto.
Qed.

(** A retry timer that fires after every socket has closed opens a new
    socket and changes neither the counter nor the ladder. *)
Lemma fire_retry_spec id s :
  wf s -> all_closed s ->
  let s' := fire ua opts retry (clearTimeout id s) in
  retriesRef s' = retriesRef s /\ error s' = error s /\
  retry_delays (log s') = retry_delays (log s) /\
  socket (length (sockets s)) s' = Some (WebSocket.new (nextTimer s)).
Proof.
  intros W Hall. cbv zeta. unfold fire.
  change (connectRef (clearTimeout id s)) with (connectRef s).
  destruct W as (W1&_). rewrite W1.
  assert (Ho : current_is_open (clearTimeout id s) = false).
  { apply (current_is_open_all_closed s Hall). }
  destruct (connect_new_spec ua opts _ Ho constructs)
    as (_&_&_&_&_&Hl&Hr&He&_).
  cbv zeta in *. rewrite Hr, He, Hl, retry_delays_app. simpl.
  rewrite app_nil_r. repeat split.
  rewrite socket_connect_new by assumption.
  rewrite decide_True by reflexivity. reflexivity.
Qed.

Lemma backoff_inv_step e s s' :
  failure_event e = true ->
  wf s -> inv s -> backoff_inv opts s ->
  step ua opts e s = Some s' -> backoff_inv opts s'.
Proof.
  intros Hf W Hinv (K1&K2&K3) Hstep.
  destruct e; try discriminate.
  - (* message *)
    pose proof (step_quiet ua opts _ _ _ Hstep Logic.I) as Q.
    simpl in Hstep. destruct (socket i s) as [w|]; [|discriminate].
    cbn [mbind option_bind] in Hstep.
    assert (s' = handleMessage ua data s \/ s' = s) as [->| ->].
    { destruct (WebSocket.readyState w), (WebSocket.listeners w);
        try discriminate; injection Hstep as <-; auto. }
    + destruct (handleMessage_spec ua data s)
        as (_&Ht&_&Hq&_&He&Hr&_). cbv zeta in *.
      unfold backoff_inv. rewrite Hr, Hq, He, Ht.
      split; [exact K1|]. split; [exact K2|].
      intros Hall. apply K3. apply (all_closed_quiet _ _ Q). exact Hall.
    + repeat split; tauto.
  - (* error *)
    pose proof (step_quiet ua opts _ _ _ Hstep Logic.I) as Q.
    simpl in Hstep. destruct (socket i s) as [w|] eqn:Hw; [|discriminate].
    cbn [mbind option_bind] in Hstep. injection Hstep as <-.
    destruct (WebSocket.listeners w) eqn:Hl; [|repeat split; tauto].
    destruct (handleError_spec i s) as (_&Hlog&_&Hr&_). cbv zeta in *.
    unfold backoff_inv. rewrite Hr, Hlog, retry_delays_app. simpl.
    rewrite app_nil_r. split; [exact K1|]. split; [exact K2|].
    intros Hall. apply (all_closed_quiet _ _ Q) in Hall.
    destruct Hinv as (_&I2&_). pose proof (I2 i w Hw) as E.
    rewrite Hl, (Hall i w Hw) in E. discriminate.
  - (* close *)
    apply step_close_inversion in Hstep as (w & Hw & Hc & ->).
    destruct (inv_current_of_unclosed s i w Hinv Hw Hc) as [_ Hl]. rewrite Hl.
    set (s0 := on_socket i (WebSocket.set_readyState WebSocket.CLOSED) s).
    destruct (handleClose_spec opts i s0) as (_&_&_&_&_&_&H). cbv zeta in H.
    assert (Hr0 : retriesRef s0 = retriesRef s)
      by (unfold s0; autorewrite with frame; reflexivity).
    assert (Hl0 : log s0 = log s)
      by (unfold s0; autorewrite with frame; reflexivity).
    rewrite Hr0, Hl0 in H. unfold backoff_inv.
    destruct H as [(_&Hlt&Hr&Hlog&_&_&Ht&_)|[(_&Hge&Hr&Hlog&_&_&_&He)|(Hno&_)]].
    + rewrite Hr, Hlog, !retry_delays_app. simpl. rewrite app_nil_r.
      split; [lia|]. split.
      * replace (Z.to_nat (retriesRef s + 1)) with (S (Z.to_nat (retriesRef s)))
          by lia.
        rewrite ladder_S, K2.
        replace (Z.of_nat (S (Z.to_nat (retriesRef s))) - 1)%Z
          with (retriesRef s + 1 - 1)%Z by lia.
        reflexivity.
      * intros _. left. exists (nextTimer s0).
        exists {| callback := retry;
                  delay := (retryDelay opts * 2 ^ (retriesRef s + 1 - 1))%Z |}.
        split; [|reflexivity]. rewrite Ht.
        apply in_or_app. right. left. reflexivity.
    + rewrite Hr, Hlog, !retry_delays_app. simpl. rewrite !app_nil_r.
      split; [exact K1|]. split; [exact K2|].
      intros _. right. split; [lia|exact He].
    + congruence.
  - (* timer *)
    apply step_timer_inversion in Hstep as (t & Hp & ->).
    pose proof (pending_Some id s t Hp) as Hin.
    destruct (callback t) as [i|] eqn:Hcb.
    + pose proof (quiet_trans _ _ _ (quiet_clearTimeout id s)
                    (quiet_fire_connectionTimeout ua opts i _)) as Q.
      rewrite fire_connectionTimeout. unfold backoff_inv.
      autorewrite with frame. cells.
      split; [exact K1|]. split; [exact K2|].
      intros Hall. rewrite fire_connectionTimeout in Q.
      apply (all_closed_quiet _ _ Q) in Hall.
      destruct (K3 Hall) as [(id' & t' & Hin' & R')|Hex]; [|right; exact Hex].
      left. exists id', t'. split; [|exact R'].
      apply filter_In. split; [exact Hin'|]. simpl.
      apply negb_true_iff, Nat.eqb_neq. intros ->.
      destruct Hinv as (I1&_).
      pose proof (NoDup_fst_functional _ _ _ _ I1 Hin Hin') as <-.
      unfold is_retry in R'. rewrite Hcb in R'. discriminate.
    + assert (R : is_retry t = true)
        by (unfold is_retry; rewrite Hcb; reflexivity).
      destruct Hinv as (_&_&_&I4). destruct (I4 id t Hin R) as [_ Hall].
      destruct (fire_retry_spec id s W Hall) as (Hr&He&Hq&Hs). cbv zeta in *.
      unfold backoff_inv. rewrite Hr, Hq.
      split; [exact K1|]. split; [exact K2|].
      intros Hall'. specialize (Hall' _ _ Hs). discriminate.
  - (* sendMessage *)
    pose proof (step_quiet ua opts _ _ _ Hstep Logic.I) as Q.
    simpl in Hstep. injection Hstep as <-.
    destruct (sendMessage_frame message s) as (Hr&Hl&He&Ht). cbv zeta in *.
    unfold backoff_inv. rewrite Hr, Hl, He, Ht.
    split; [exact K1|]. split; [exact K2|].
    intros Hall. apply K3. apply (all_closed_quiet _ _ Q). exact Hall.
Qed.

Lemma failure_event_orderly e s : failure_event e = true -> orderly e s.
Proof. intros H ->. discriminate. Qed.

Lemma backoff_run es : forall s s',
  forallb failure_event es = true ->
  wf s -> inv s -> backoff_inv opts s ->
  run ua opts es s = Some s' ->
  wf s' /\ inv s' /\ backoff_inv opts s'.
Proof.
  induction es as [|e es IH]; intros s s' Hes W Hinv K Hrun.
  - injection Hrun as <-. auto.
  - simpl in Hes. apply andb_true_iff in Hes as [He Hes]. simpl in Hrun.
    destruct (step ua opts e s) as [s1|] eqn:Hstep; [|discriminate].
    cbn [mbind option_bind] in Hrun.
    apply (IH s1 s' Hes); [| | |exact Hrun].
    + eapply wf_step; eauto.
    + eapply inv_step; eauto. apply failure_event_orderly. exact He.
    + eapply backoff_inv_step; eauto.
Qed.

Lemma backoff_inv_mounted :
  (0 <= maxRetries opts)%Z -> backoff_inv opts (mounted ua opts).
Proof.
  intros Hmax. unfold mounted, mount.
  assert (Ho : current_is_open (set_connectRef true initial) = false)
    by reflexivity.
  destruct (connect_new_spec ua opts _ Ho constructs)
    as (_&_&_&_&_&Hl&Hr&_).
  cbv zeta in *. unfold backoff_inv. rewrite Hr, Hl.
  split; [simpl; lia|]. split; [reflexivity|].
  intros Hall.
  assert (Hs : socket 0 (connect ua opts (set_connectRef true initial)) =
               Some (WebSocket.new 1)).
  { rewrite socket_connect_new by assumption. reflexivity. }
  specialize (Hall _ _ Hs). discriminate.
Qed.

(** A pending retry timer can fire; the attempt it starts has a socket
    that has not closed. *)
Lemma retry_timer_fires s id t :
  wf s -> inv s -> backoff_inv opts s ->
  In (id, t) (timers s) -> is_retry t = true ->
  exists s2,
    step ua opts (ev_timer id) s = Some s2 /\
    wf s2 /\ inv s2 /\ backoff_inv opts s2 /\
    retriesRef s2 = retriesRef s /\
    exists j w, socket j s2 = Some w /\ WebSocket.is_closed w = false.
Proof.
  intros W Hinv K Hin R.
  assert (Hp : pending id s = Some t).
  { apply pending_of_In; [apply Hinv|exact Hin]. }
  assert (Hstep : step ua opts (ev_timer id) s =
                  Some (fire ua opts (callback t) (clearTimeout id s))).
  { unfold step. rewrite Hp. reflexivity. }
  eexists. split; [exact Hstep|].
  split; [eapply wf_step; eauto|].
  split; [eapply inv_step; eauto; apply failure_event_orderly; reflexivity|].
  split; [apply (backoff_inv_step (ev_timer id) _ _ eq_refl W Hinv K Hstep)|].
  assert (Hcb : callback t = retry).
  { unfold is_retry in R. destruct (callback t); [discriminate|reflexivity]. }
  rewrite Hcb.
  destruct Hinv as (_&_&_&I4). destruct (I4 id t Hin R) as [_ Hall].
  destruct (fire_retry_spec id s W Hall) as (Hr&_&_&Hs). cbv zeta in *.
  split; [exact Hr|]. eexists. eexists. split; [exact Hs|reflexivity].
Qed.

(** The close event of the attempt in flight either settles the run or
    leaves a retry timer that starts the next attempt. *)
Lemma attempt_fails s i w :
  wf s -> inv s -> backoff_inv opts s ->
  socket i s = Some w -> WebSocket.is_closed w = false ->
  exists s1,
    step ua opts (ev_close i) s = Some s1 /\
    (settled s1 \/
     ((retriesRef s < maxRetries opts)%Z /\
      exists id s2,
        step ua opts (ev_timer id) s1 = Some s2 /\
        wf s2 /\ inv s2 /\ backoff_inv opts s2 /\
        retriesRef s2 = (retriesRef s + 1)%Z /\
        exists j w', socket j s2 = Some w' /\ WebSocket.is_closed w' = false)).
Proof.
  intros W Hinv K Hw Hc.
  destruct (inv_current_of_unclosed s i w Hinv Hw Hc) as [_ Hl].
  pose proof (inv_no_retry_while_unclosed s i w Hinv Hw Hc) as Hno.
  set (s0 := on_socket i (WebSocket.set_readyState WebSocket.CLOSED) s).
  assert (Hstep : step ua opts (ev_close i) s = Some (handleClose opts i s0)).
  { unfold step. rewrite Hw. cbn [mbind option_bind]. rewrite Hc, Hl.
    reflexivity. }
  exists (handleClose opts i s0). split; [exact Hstep|].
  pose proof (wf_step ua opts _ _ _ Hstep W) as W1.
  pose proof (inv_step ua opts _ _ _ W Hinv
                (failure_event_orderly (ev_close i) _ eq_refl) Hstep) as I1.
  pose proof (backoff_inv_step (ev_close i) _ _ eq_refl W Hinv K Hstep) as K1.
  destruct (inv_close opts i w s W Hinv Hw Hc) as [_ Hall].
  fold s0 in Hall.
  destruct (handleClose_spec opts i s0) as (_&_&_&_&_&_&H). cbv zeta in H.
  assert (Hr0 : retriesRef s0 = retriesRef s)
    by (unfold s0; autorewrite with frame; reflexivity).
  rewrite Hr0 in H.
  destruct H as [(_&Hlt&Hr&_&_&_&Ht&_)|[(_&_&_&_&_&_&Ht&_)|(Hf&_)]].
  - right. split; [exact Hlt|].
    destruct (retry_timer_fires (handleClose opts i s0) (nextTimer s0)
                {| callback := retry;
                   delay := (retryDelay opts * 2 ^ (retriesRef s + 1 - 1))%Z |}
                W1 I1 K1)
      as (s2 & Hstep2 & W2 & I2 & K2 & Hr2 & Hopen).
    { rewrite Ht. apply in_or_app. right. left. reflexivity. }
    { reflexivity. }
    exists (nextTimer s0), s2. rewrite Hr2, Hr.
    split; [exact Hstep2|]. split; [exact W2|]. split; [exact I2|].
    split; [exact K2|]. split; [reflexivity|exact Hopen].
  - left. split; [|exact Hall]. apply retry_timers_nil.
    intros id t Hin. rewrite Ht in Hin.
    apply In_timers_clearTimeout_if in Hin. unfold s0 in Hin.
    autorewrite with frame in Hin. apply (Hno id t Hin).
  - congruence.
Qed.

(** From an attempt in flight the failing run can always be carried on
    until it settles. *)
Lemma settles_from_attempt k : forall s i w,
  wf s -> inv s -> backoff_inv opts s ->
  (maxRetries opts - retriesRef s <= Z.of_nat k)%Z ->
  socket i s = Some w -> WebSocket.is_closed w = false ->
  exists es s',
    forallb failure_event es = true /\
    run ua opts es s = Some s' /\ settled s'.
Proof.
  induction k as [|k IH]; intros s i w W Hinv K Hk Hw Hc;
    destruct (attempt_fails s i w W Hinv K Hw Hc)
      as (s1 & Hstep & [Hset|(Hlt & id & s2 & Hstep2 & W2 & I2 & K2 & Hr2
                                  & j & w' & Hw' & Hc')]).
  - exists [ev_close i], s1. split; [reflexivity|]. split; [|exact Hset].
    cbn [run]. rewrite Hstep. reflexivity.
  - lia.
  - exists [ev_close i], s1. split; [reflexivity|]. split; [|exact Hset].
    cbn [run]. rewrite Hstep. reflexivity.
  - destruct (IH s2 j w' W2 I2 K2) as (es & s' & Hes & Hrun & Hset);
      [lia|exact Hw'|exact Hc'|].
    exists (ev_close i :: ev_timer id :: es), s'.
    split; [exact Hes|]. split; [|exact Hset].
    cbn [run]. rewrite Hstep. cbn [mbind option_bind]. rewrite Hstep2.
    exact Hrun.
Qed.

Lemma settles s :
  wf s -> inv s -> backoff_inv opts s ->
  exists es s',
    forallb failure_event es = true /\
    run ua opts es s = Some s' /\ settled s'.
Proof.
  intros W Hinv K.
  destruct (all_closed_dec s) as [Hall|(i & w & Hw & Hc)].
  - destruct (retry_timers s) as [|[id t] l] eqn:E.
    + exists [], s. repeat split; auto.
    + assert (Hin : In (id, t) (retry_timers s)) by (rewrite E; left; reflexivity).
      unfold retry_timers in Hin. apply filter_In in Hin as [Hin R].
      simpl in R.
      destruct (retry_timer_fires s id t W Hinv K Hin R)
        as (s2 & Hstep & W2 & I2 & K2 & Hr2 & j & w' & Hw' & Hc').
      destruct (settles_from_attempt
                  (Z.to_nat (maxRetries opts - retriesRef s2)) s2 j w' W2 I2 K2)
        as (es & s' & Hes & Hrun & Hset); [lia|exact Hw'|exact Hc'|].
      exists (ev_timer id :: es), s'.
      split; [exact Hes|]. split; [|exact Hset].
      cbn [run]. rewrite Hstep. exact Hrun.
  - apply (settles_from_attempt
             (Z.to_nat (maxRetries opts - retriesRef s)) s i w W Hinv K);
      [lia|exact Hw|exact Hc].
Qed.

(** C1. With reconnection enabled, [maxRetries = N] and a URL the
    constructor accepts, take any run from mount in which no attempt
    opens and the consumer neither reconnects nor unmounts. At every
    point of it the retry counter is at most [N], the retry timers set
    so far are, in order, the first [retriesRef] steps of the ladder
    [retryDelay * 2^(k-1)] for [k = 1, 2, ...], and at most one of them
    is pending. Once the run has settled (no retry timer pending, every
    socket closed) exactly [N] retries have been scheduled, with the
    delays of the whole ladder, and the last error is the
    retries-exhausted error. Every such run can be carried on until it
    settles. *)
Theorem retries_follow_backoff_ladder
    (N : nat) (es : list Event) (s : State) :
  maxRetries opts = Z.of_nat N ->
  forallb failure_event es = true ->
  run ua opts es (mounted ua opts) = Some s ->
  (0 <= retriesRef s <= Z.of_nat N)%Z /\
  retry_delays (log s) =
    ladder (retryDelay opts) (Z.to_nat (retriesRef s)) /\
  length (retry_timers s) <= 1 /\
  (settled s ->
   retry_delays (log s) = ladder (retryDelay opts) N /\
   length (retry_delays (log s)) = N /\
   error s = Some maxRetriesError) /\
  (forall k, k < N ->
     ladder (retryDelay opts) N !! k =
     Some (retryDelay opts * 2 ^ (Z.of_nat (S k) - 1))%Z) /\
  exists es' s',
    forallb failure_event es' = true /\
    run ua opts es' s = Some s' /\ settled s'.
Proof.
  intros HN Hes Hrun.
  assert (Hmax : (0 <= maxRetries opts)%Z) by lia.
  destruct (backoff_run es _ _ Hes (wf_mounted ua opts) (inv_mounted ua opts)
              (backoff_inv_mounted Hmax) Hrun) as (W & Hinv & K).
  pose proof K as (K1 & K2 & K3). rewrite HN in K1.
  split; [exact K1|]. split; [exact K2|].
  split; [apply inv_at_most_one_retry_timer; exact Hinv|].
  split; [|split; [intros k Hk; apply lookup_ladder; exact Hk|]].
  - intros [Hnone Hall].
    destruct (K3 Hall) as [(id & t & Hin & R)|[Hr He]].
    + destruct (retry_timers_In s id t Hin R Hnone).
    + assert (E : Z.to_nat (retriesRef s) = N) by lia.
      rewrite K2, E, length_ladder. auto.
  - apply settles; assumption.
Qed.

End Backoff.

Lemma retries_follow_backoff_ladder_witness :
  exists s,
    run reliable_agent demo_options
      [ev_timer 1; ev_error 0; ev_close 0; ev_timer 2; ev_close 1]
      (mounted reliable_agent demo_options) = Some s /\
    retry_delays (log s) = [1000; 2000]%Z /\
    length (retry_timers s) <= 1.
Proof.
  eexists. split; [vm_compute; reflexivity|].
  epose proof (retries_follow_backoff_ladder reliable_agent demo_options
                 ltac:(reflexivity) ltac:(reflexivity) 5
                 [ev_timer 1; ev_error 0; ev_close 0; ev_timer 2; ev_close 1] _
                 ltac:(reflexivity) ltac:(vm_compute; reflexivity)
                 ltac:(vm_compute; reflexivity)) as (_ & H2 & H3 & _).
  split; [|exact H3].
  rewrite H2. vm_compute. reflexivity.
Defined.

(** ** The state exposed to the consumer and the queue *)

Section StateTracksOpen.

Variable ua : UserAgent.
Variable opts : Options.







End StateTracksOpen.


(** ** The handles in every reachable state *)

Lemma ages_refl w : ages w w.
Proof. repeat split; auto. Qed.

Lemma ages_close w : ages w (WebSocket.close w).
Proof.
  unfold ages, active, WebSocket.close, WebSocket.is_closed,
    WebSocket.is_connecting, WebSocket.is_open.
  destruct (WebSocket.readyState w) eqn:R; simpl; rewrite ?R; auto.
  all: repeat split; auto; discriminate.
Qed.

Lemma active_not_closed w : active w = true -> WebSocket.is_closed w = false.
Proof.
  unfold active, WebSocket.is_connecting, WebSocket.is_open, WebSocket.is_closed.
  destruct (WebSocket.readyState w); simpl; auto; discriminate.
Qed.

(** A task that writes one socket, keeping [webSocketRef] and issuing no
    timer id, keeps the handles in order. *)
Lemma handles_ok_pointwise i f s s' :
  handles_ok s ->
  webSocketRef s' = webSocketRef s -> nextTimer s' = nextTimer s ->
  (forall j, socket j s' =
             if decide (i = j) then f <$> socket j s else socket j s) ->
  (forall w, socket i s = Some w -> ages w (f w)) ->
  handles_ok s'.
Proof.
  intros (G1&G2&G3) Hr Hn Hs Hf. unfold handles_ok. rewrite Hr, Hn.
  assert (Hj : forall j w', socket j s' = Some w' ->
                 exists w, socket j s = Some w /\ ages w w').
  { intros j w' Hw'. rewrite Hs in Hw'. destruct (decide (i = j)) as [<-|].
    - destruct (socket i s) as [w|] eqn:E; [|discriminate].
      injection Hw' as <-. exists w. auto.
    - exists w'. split; [exact Hw'|apply ages_refl]. }
  split; [|split].
  - intros j w' Hw'. destruct (Hj j w' Hw') as (w & Hw & Hl & Hc & _).
    rewrite Hl, Hc. eapply G1; eauto.
  - intros j w' Hw' Hne. destruct (Hj j w' Hw') as (w & Hw & _ & _ & _ & Ha & _).
    destruct (active w') eqn:E; [|reflexivity].
    rewrite (G2 j w Hw Hne) in Ha. symmetry. apply Ha. reflexivity.
  - intros j w' Hw'. destruct (Hj j w' Hw') as (w & Hw & _ & _ & Ht & _ & _).
    rewrite Ht. eapply G3; eauto.
Qed.

Lemma handles_ok_on_socket i f s :
  handles_ok s -> (forall w, socket i s = Some w -> ages w (f w)) ->
  handles_ok (on_socket i f s).
Proof.
  intros G Hf. apply (handles_ok_pointwise i f s); auto.
  - apply webSocketRef_on_socket.
  - apply nextTimer_on_socket.
  - intros j. apply socket_on_socket.
Qed.

(** A task that leaves the sockets, the ref and the timer counter
    alone. *)
Lemma handles_ok_cells s s' :
  handles_ok s -> webSocketRef s' = webSocketRef s ->
  nextTimer s' = nextTimer s -> sockets s' = sockets s -> handles_ok s'.
Proof.
  intros (G1&G2&G3) Hr Hn Hs. unfold handles_ok, socket. rewrite Hr, Hn, Hs.
  auto.
Qed.

Section Handles.

Variable ua : UserAgent.
Variable opts : Options.

Lemma ages_transmit data w : ages w (transmit ua data w).
Proof.
  unfold ages, active, transmit, WebSocket.send, WebSocket.is_closed,
    WebSocket.is_connecting, WebSocket.is_open.
  destruct (WebSocket.readyState w) eqn:R; simpl; rewrite ?R; auto.
  destruct (buffers ua (WebSocket.sent w) data); simpl; rewrite ?R; auto.
Qed.

Lemma ages_drain_ws q w : ages w (drain_ws ua q w).
Proof.
  destruct (drain_ws_listeners ua q w) as (H1 & H2 & H3 & H4).
  unfold ages. split; [exact H1|]. split; [exact H3|]. split; [exact H2|].
  split; [|rewrite H4; auto].
  unfold active. rewrite H4.
  destruct (WebSocket.is_connecting w); [reflexivity|]. simpl.
  destruct (WebSocket.is_open w) eqn:O; [reflexivity|].
  rewrite (drain_ws_not_open ua q w O), O. auto.
Qed.

Lemma handles_ok_close_current s :
  handles_ok s ->
  handles_ok (match webSocketRef s with
              | Some i => on_socket i WebSocket.close s
              | None => s
              end).
Proof.
  intros G. destruct (webSocketRef s); [|exact G].
  apply handles_ok_on_socket; [exact G|]. intros w _. apply ages_close.
Qed.

Lemma handles_ok_connect s :
  wf s -> handles_ok s -> handles_ok (connect ua opts s).
Proof.
  intros W G. destruct (current_is_open s) eqn:Ho.
  { rewrite connect_open by exact Ho. exact G. }
  assert (G0 : handles_ok (connect_prepared s)).
  { unfold connect_prepared.
    eapply handles_ok_cells; [apply (handles_ok_close_current s G)| | |];
      reflexivity. }
  destruct (constructor_throws ua (url opts)) as [message|] eqn:Hc.
  - rewrite connect_not_open by exact Ho. cbv zeta. rewrite Hc.
    eapply handles_ok_cells; [exact G0| | |]; reflexivity.
  - destruct (connect_new_spec ua opts s Ho Hc) as (_&Hr&_&_&Hn&_).
    cbv zeta in *.
    pose proof (fun i => socket_connect_new ua opts i s Ho Hc) as Hs.
    destruct W as (_&W2&_). destruct G as (G1&G2&G3).
    unfold handles_ok. rewrite Hr, Hn. split; [|split].
    + intros i w' Hw'. rewrite Hs in Hw'.
      destruct (decide (i = length (sockets s))).
      { injection Hw' as <-. reflexivity. }
      destruct (decide (webSocketRef s = Some i)); [|eapply G1; eauto].
      destruct (socket i s) as [w|] eqn:E; [|discriminate].
      injection Hw' as <-. destruct (ages_close w) as (Hl & Hcl & _).
      rewrite Hl, Hcl. eapply G1; eauto.
    + intros i w' Hw' Hne. rewrite Hs in Hw'.
      destruct (decide (i = length (sockets s))); [congruence|].
      destruct (decide (webSocketRef s = Some i)) as [Hi|Hni];
        [|eapply G2; eauto].
      destruct (socket i s) as [w|] eqn:E; [|discriminate].
      injection Hw' as <-.
      assert (Hno : WebSocket.is_open w = false).
      { unfold current_is_open, current in Ho. rewrite Hi, E in Ho. exact Ho. }
      unfold active, WebSocket.close, WebSocket.is_connecting,
        WebSocket.is_open in *.
      destruct (WebSocket.readyState w) eqn:R; simpl; rewrite ?R;
        try reflexivity; discriminate.
    + intros i w' Hw'. rewrite Hs in Hw'.
      destruct (decide (i = length (sockets s))).
      { injection Hw' as <-. simpl. lia. }
      assert (exists w, socket i s = Some w /\
                        WebSocket.connectionTimeoutId w' =
                        WebSocket.connectionTimeoutId w) as (w & Hw & ->).
      { destruct (decide (webSocketRef s = Some i)).
        - destruct (socket i s) as [w|] eqn:E; [|discriminate].
          injection Hw' as <-. exists w. split; [reflexivity|].
          apply (ages_close w).
        - exists w'. auto. }
      specialize (G3 i w Hw). lia.
Qed.

Lemma handles_ok_step e s s' :
  wf s -> handles_ok s -> step ua opts e s = Some s' -> handles_ok s'.
Proof.
  intros W G Hstep. destruct e.
  - (* open *)
    unfold step in Hstep. destruct (socket i s) as [w|] eqn:Hw; [|discriminate].
    cbn [mbind option_bind] in Hstep.
    destruct (WebSocket.is_connecting w) eqn:Hc; [|discriminate].
    injection Hstep as <-.
    assert (G0 : handles_ok
                   (on_socket i (WebSocket.set_readyState WebSocket.OPEN) s)).
    { apply handles_ok_on_socket; [exact G|]. intros w0 Hw0.
      rewrite Hw in Hw0. injection Hw0 as <-.
      unfold ages, active, WebSocket.is_closed, WebSocket.is_connecting,
        WebSocket.is_open in *. simpl.
      destruct (WebSocket.readyState w); try discriminate.
      repeat split; auto. }
    destruct (WebSocket.listeners w); [|exact G0].
    destruct (handleOpen_spec ua i
                (on_socket i (WebSocket.set_readyState WebSocket.OPEN) s))
      as (_&_&_&_&_&Hr&_&_&Hn&_&_&_&Hs).
    cbv zeta in *.
    apply (handles_ok_pointwise i (drain_ws ua
             (messageQueueRef
                (on_socket i (WebSocket.set_readyState WebSocket.OPEN) s)))
             _ _ G0 Hr Hn Hs).
    intros w0 _. apply ages_drain_ws.
  - (* message *)
    unfold step in Hstep. destruct (socket i s) as [w|]; [|discriminate].
    cbn [mbind option_bind] in Hstep.
    assert (s' = handleMessage ua data s \/ s' = s) as [->| ->].
    { destruct (WebSocket.readyState w), (WebSocket.listeners w);
        try discriminate; injection Hstep as <-; auto. }
    + destruct (handleMessage_spec ua data s)
        as (Hs&_&_&_&_&_&_&_&Hr&_&Hn&_). cbv zeta in *.
      eapply handles_ok_cells; eauto.
    + exact G.
  - (* error *)
    unfold step in Hstep. destruct (socket i s) as [w|]; [|discriminate].
    cbn [mbind option_bind] in Hstep. injection Hstep as <-.
    destruct (WebSocket.listeners w); [|exact G].
    destruct (handleError_spec i s) as (_&_&_&_&_&Hs&Hr&_&Hn&_).
    cbv zeta in *. eapply handles_ok_cells; eauto.
  - (* close *)
    apply step_close_inversion in Hstep as (w & Hw & Hc & ->).
    destruct G as (G1&G2&G3).
    assert (Hl : WebSocket.listeners w = true).
    { rewrite (G1 i w Hw), Hc. reflexivity. }
    rewrite Hl.
    set (s0 := on_socket i (WebSocket.set_readyState WebSocket.CLOSED) s).
    assert (Hs' : forall j, socket j (handleClose opts i s0) =
                    if decide (i = j)
                    then Some (WebSocket.set_listeners false
                                 (WebSocket.set_readyState WebSocket.CLOSED w))
                    else socket j s).
    { intros j. rewrite socket_handleClose. unfold s0. rewrite socket_on_socket.
      destruct (decide (i = j)) as [<-|]; [|reflexivity].
      rewrite Hw. reflexivity. }
    destruct (handleClose_spec opts i s0) as (_&_&Hr&_&_&_&H). cbv zeta in H, Hr.
    assert (Hr0 : webSocketRef s0 = webSocketRef s)
      by (unfold s0; autorewrite with frame; reflexivity).
    assert (Hn0 : nextTimer s0 = nextTimer s)
      by (unfold s0; autorewrite with frame; reflexivity).
    rewrite Hr0 in Hr. rewrite Hn0 in H.
    assert (Hn : nextTimer s <= nextTimer (handleClose opts i s0)).
    { destruct H as [(_&_&_&_&_&Hn&_)|[(_&_&_&_&_&Hn&_)|(_&_&_&_&Hn&_)]];
        rewrite Hn; lia. }
    unfold handles_ok. rewrite Hr. split; [|split].
    + intros j w' Hw'. rewrite Hs' in Hw'.
      destruct (decide (i = j)); [|eapply G1; eauto].
      injection Hw' as <-. reflexivity.
    + intros j w' Hw' Hne. rewrite Hs' in Hw'.
      destruct (decide (i = j)); [|eapply G2; eauto].
      injection Hw' as <-. reflexivity.
    + intros j w' Hw'. rewrite Hs' in Hw'.
      destruct (decide (i = j)) as [<-|].
      * injection Hw' as <-. specialize (G3 i w Hw). simpl. lia.
      * specialize (G3 j w' Hw'). lia.
  - (* timer *)
    apply step_timer_inversion in Hstep as (t & Hp & ->).
    assert (G0 : handles_ok (clearTimeout id s)).
    { eapply handles_ok_cells; [exact G| | |]; reflexivity. }
    destruct (callback t) as [i|].
    + rewrite fire_connectionTimeout. apply handles_ok_on_socket; [exact G0|].
      intros w _. destruct (WebSocket.is_connecting w);
        [apply ages_close|apply ages_refl].
    + unfold fire. destruct (connectRef (clearTimeout id s)); [|exact G0].
      apply handles_ok_connect; [|exact G0].
      eapply wf_quiet; [apply quiet_clearTimeout|exact W].
  - (* sendMessage *)
    simpl in Hstep. injection Hstep as <-.
    destruct (current_is_open s) eqn:Ho.
    + unfold current_is_open, current in Ho.
      destruct (webSocketRef s) as [i|] eqn:Hi; [|discriminate].
      destruct (socket i s) as [w|] eqn:Hw; [|discriminate].
      rewrite (sendMessage_transmits ua message s i w Hi Hw Ho).
      apply handles_ok_on_socket; [exact G|]. intros w' _.
      apply ages_transmit.
    + rewrite sendMessage_queues by exact Ho.
      eapply handles_ok_cells; [exact G| | |]; reflexivity.
  - (* reconnect *)
    simpl in Hstep. injection Hstep as <-.
    rewrite reconnect_unfold by (apply W).
    apply handles_ok_connect.
    + eapply wf_quiet; [apply quiet_reconnect_prepared|exact W].
    + eapply handles_ok_cells; [apply (handles_ok_close_current s G)| | |];
        cells; autorewrite with frame; reflexivity.
  - (* unmount *)
    simpl in Hstep. injection Hstep as <-. unfold cleanup.
    assert (G0 : handles_ok (clearTimeout_if (retryTimeoutRef s) s)).
    { eapply handles_ok_cells; [exact G| | |]; autorewrite with frame;
        reflexivity. }
    exact (handles_ok_close_current _ G0).
Qed.

Lemma handles_ok_mounted : handles_ok (mounted ua opts).
Proof.
  apply handles_ok_connect.
  - unfold wf. simpl. repeat split; try lia; try tauto; discriminate.
  - unfold handles_ok, socket. simpl.
    split; [|split]; intros i w Hw; rewrite lookup_nil in Hw; discriminate.
Qed.

Lemma reachable_handles_ok s : reachable ua opts s -> handles_ok s.
Proof.
  induction 1 as [|e s s' Hr IH Hstep]; [apply handles_ok_mounted|].
  eapply handles_ok_step; eauto. apply reachable_wf with ua opts. exact Hr.
Qed.

End Handles.

(** ** One physical connection, and what the indicator shows *)

Lemma current_is_live_pointwise i f s s' :
  current_is_live s ->
  webSocketRef s' = webSocketRef s ->
  (forall j, socket j s' =
             if decide (i = j) then f <$> socket j s else socket j s) ->
  (forall w, socket i s = Some w -> ages w (f w)) ->
  current_is_live s'.
Proof.
  intros (c & w & Hc & Hw & Hl & Hcon & Hcl) Hr Hs Hf.
  unfold current_is_live. rewrite Hr.
  destruct (decide (i = c)) as [->|Hne].
  - exists c, (f w). split; [exact Hc|].
    split; [rewrite Hs, decide_True by reflexivity; rewrite Hw; reflexivity|].
    destruct (Hf w Hw) as (A1 & A2 & _ & _ & A5).
    rewrite A1, A2. split; [exact Hl|]. split; [|exact Hcl].
    destruct (WebSocket.is_connecting (f w)) eqn:E; [|reflexivity].
    rewrite (A5 eq_refl) in Hcon. discriminate.
  - exists c, w. split; [exact Hc|].
    split; [rewrite Hs, decide_False by exact Hne; exact Hw|]. auto.
Qed.

Lemma current_is_live_cells s s' :
  current_is_live s -> webSocketRef s' = webSocketRef s ->
  sockets s' = sockets s -> current_is_live s'.
Proof.
  intros (c & w & Hc & Hw & H) Hr Hs. exists c, w.
  unfold socket in *. rewrite Hr, Hs. auto.
Qed.

Section Indicator.

Variable ua : UserAgent.
Variable opts : Options.

(** [connect] either returns at once or leaves the state short of
    OPEN. *)
Lemma isConnected_connect s :
  connect ua opts s = s \/ isConnected (connect ua opts s) = false.
Proof.
  destruct (current_is_open s) eqn:Ho.
  - left. apply connect_open. exact Ho.
  - right. rewrite connect_not_open by exact Ho. cbv zeta.
    destruct (constructor_throws ua (url opts)); reflexivity.
Qed.

Lemma isConnected_step e s s' :
  wf s -> handles_ok s ->
  (isConnected s = true -> current_is_live s) ->
  step ua opts e s = Some s' ->
  isConnected s' = true -> current_is_live s'.
Proof.
  intros W G J Hstep Hon. destruct e.
  - (* open *)
    unfold step in Hstep. destruct (socket i s) as [w|] eqn:Hw; [|discriminate].
    cbn [mbind option_bind] in Hstep.
    destruct (WebSocket.is_connecting w) eqn:Hc; [|discriminate].
    destruct G as (G1&G2&_).
    assert (Hncl : WebSocket.is_closed w = false).
    { apply active_not_closed. unfold active. rewrite Hc. reflexivity. }
    assert (Hl : WebSocket.listeners w = true).
    { rewrite (G1 i w Hw), Hncl. reflexivity. }
    assert (Hcur : webSocketRef s = Some i).
    { destruct (decide (webSocketRef s = Some i)) as [|Hne]; [assumption|].
      pose proof (G2 i w Hw Hne) as E. unfold active in E. rewrite Hc in E.
      discriminate. }
    rewrite Hl in Hstep. injection Hstep as <-.
    set (s0 := on_socket i (WebSocket.set_readyState WebSocket.OPEN) s).
    destruct (handleOpen_spec ua i s0) as (_&_&_&_&_&Hr&_&_&_&_&_&_&Hs).
    cbv zeta in *.
    exists i, (drain_ws ua (messageQueueRef s0)
                 (WebSocket.set_readyState WebSocket.OPEN w)).
    split; [rewrite Hr; unfold s0; autorewrite with frame; exact Hcur|].
    split.
    { rewrite Hs, decide_True by reflexivity. unfold s0.
      rewrite (socket_on_socket_eq _ _ _ _ Hw). reflexivity. }
    destruct (drain_ws_listeners ua (messageQueueRef s0)
                (WebSocket.set_readyState WebSocket.OPEN w))
      as (H1 & _ & H3 & H4).
    rewrite H1, H3, H4. auto.
  - (* message *)
    unfold step in Hstep. destruct (socket i s) as [w|]; [|discriminate].
    cbn [mbind option_bind] in Hstep.
    assert (s' = handleMessage ua data s \/ s' = s) as [->| ->].
    { destruct (WebSocket.readyState w), (WebSocket.listeners w);
        try discriminate; injection Hstep as <-; auto. }
    + destruct (handleMessage_spec ua data s)
        as (Hs&_&_&_&_&_&_&_&Hr&_&_&_&Hst). cbv zeta in *.
      apply (current_is_live_cells s); [|exact Hr|exact Hs].
      apply J. unfold isConnected in *. rewrite <- Hst. exact Hon.
    + apply J. exact Hon.
  - (* error *)
    unfold step in Hstep. destruct (socket i s) as [w|]; [|discriminate].
    cbn [mbind option_bind] in Hstep. injection Hstep as <-.
    destruct (WebSocket.listeners w); [|apply J; exact Hon].
    destruct (handleError_spec i s) as (_&_&Hst&_&_&Hs&Hr&_). cbv zeta in *.
    apply (current_is_live_cells s); [|exact Hr|exact Hs].
    apply J. unfold isConnected in *. rewrite <- Hst. exact Hon.
  - (* close *)
    apply step_close_inversion in Hstep as (w & Hw & Hc & ->).
    destruct G as (G1&_).
    assert (Hl : WebSocket.listeners w = true).
    { rewrite (G1 i w Hw), Hc. reflexivity. }
    rewrite Hl in Hon.
    destruct (handleClose_spec opts i
                (on_socket i (WebSocket.set_readyState WebSocket.CLOSED) s))
      as (Hst&_). cbv zeta in Hst.
    unfold isConnected in Hon. rewrite Hst in Hon. discriminate.
  - (* timer *)
    apply step_timer_inversion in Hstep as (t & Hp & ->).
    destruct (callback t) as [i|].
    + rewrite fire_connectionTimeout in *.
      apply (current_is_live_pointwise i
               (fun w => if WebSocket.is_connecting w
                         then WebSocket.close w else w) s).
      * apply J. unfold isConnected in *.
        rewrite state_on_socket in Hon. exact Hon.
      * autorewrite with frame. reflexivity.
      * intros j. rewrite socket_on_socket. reflexivity.
      * intros w _. destruct (WebSocket.is_connecting w);
          [apply ages_close|apply ages_refl].
    + unfold fire in *. destruct (connectRef (clearTimeout id s)).
      * destruct (isConnected_connect (clearTimeout id s)) as [E|E].
        { rewrite E in *. apply (current_is_live_cells s);
            [apply J; exact Hon|reflexivity|reflexivity]. }
        { rewrite E in Hon. discriminate. }
      * apply (current_is_live_cells s);
          [apply J; exact Hon|reflexivity|reflexivity].
  - (* sendMessage *)
    simpl in Hstep. injection Hstep as <-.
    destruct (current_is_open s) eqn:Ho.
    + unfold current_is_open, current in Ho.
      destruct (webSocketRef s) as [i|] eqn:Hi; [|discriminate].
      destruct (socket i s) as [w|] eqn:Hw; [|discriminate].
      rewrite (sendMessage_transmits ua message s i w Hi Hw Ho) in *.
      apply (current_is_live_pointwise i
               (transmit ua (JSON_stringify message)) s).
      * apply J. unfold isConnected in *.
        rewrite state_on_socket in Hon. exact Hon.
      * autorewrite with frame. reflexivity.
      * intros j. rewrite socket_on_socket. reflexivity.
      * intros w' _. apply ages_transmit.
    + rewrite sendMessage_queues in * by exact Ho.
      apply (current_is_live_cells s);
        [apply J; exact Hon|reflexivity|reflexivity].
  - (* reconnect *)
    simpl in Hstep. injection Hstep as <-.
    rewrite reconnect_unfold in Hon by (apply W).
    rewrite connect_not_open in Hon
      by apply current_is_open_reconnect_prepared.
    cbv zeta in Hon.
    destruct (constructor_throws ua (url opts)); discriminate.
  - (* unmount *)
    simpl in Hstep. injection Hstep as <-. unfold cleanup in *.
    assert (Hst : state (match webSocketRef (clearTimeout_if (retryTimeoutRef s) s) with
                         | Some i => on_socket i WebSocket.close
                                       (clearTimeout_if (retryTimeoutRef s) s)
                         | None => clearTimeout_if (retryTimeoutRef s) s
                         end) = state s).
    { destruct (webSocketRef _); autorewrite with frame; reflexivity. }
    assert (J0 : current_is_live s).
    { apply J. unfold isConnected in *. rewrite <- Hst. exact Hon. }
    rewrite webSocketRef_clearTimeout_if.
    destruct (webSocketRef s) as [i|] eqn:Hi.
    * apply (current_is_live_pointwise i WebSocket.close s); [exact J0| | |].
      -- autorewrite with frame. reflexivity.
      -- intros j. rewrite socket_on_socket, socket_clearTimeout_if.
         reflexivity.
      -- intros w _. apply ages_close.
    * apply (current_is_live_cells s); [exact J0| |];
        autorewrite with frame; auto.
Qed.

Lemma reachable_isConnected s :
  reachable ua opts s -> isConnected s = true -> current_is_live s.
Proof.
  induction 1 as [|e s s' Hr IH Hstep].
  - intros Hon. unfold mounted, mount in Hon.
    destruct (isConnected_connect (set_connectRef true initial)) as [E|E].
    + rewrite E in Hon. discriminate.
    + rewrite E in Hon. discriminate.
  - eapply isConnected_step; eauto.
    + apply reachable_wf with ua opts. exact Hr.
    + apply reachable_handles_ok with ua opts. exact Hr.
Qed.

(** X1. In every state the hook can reach, whatever the consumer does,
    every handle other than the current one is CLOSING or CLOSED, so at
    most one socket is CONNECTING or OPEN; and a socket has its
    listeners attached exactly until its close event. *)
Theorem only_current_handle_is_active (s : State) :
  reachable ua opts s ->
  (forall i w, socket i s = Some w -> webSocketRef s <> Some i ->
               WebSocket.readyState w = WebSocket.CLOSING \/
               WebSocket.readyState w = WebSocket.CLOSED) /\
  length (List.filter active (sockets s)) <= 1 /\
  (forall i w, socket i s = Some w ->
               WebSocket.listeners w = negb (WebSocket.is_closed w)).
Proof.
  intros Hr. destruct (reachable_handles_ok ua opts s Hr) as (G1&G2&_).
  split; [|split; [|exact G1]].
  - intros i w Hw Hne. pose proof (G2 i w Hw Hne) as E.
    unfold active, WebSocket.is_connecting, WebSocket.is_open in E.
    destruct (WebSocket.readyState w); try discriminate; auto.
  - apply at_most_one_filter. intros i j x y Hi Hj Ax Ay.
    assert (Ri : webSocketRef s = Some i).
    { destruct (decide (webSocketRef s = Some i)) as [|Hne]; [assumption|].
      rewrite (G2 i x Hi Hne) in Ax. discriminate. }
    assert (Rj : webSocketRef s = Some j).
    { destruct (decide (webSocketRef s = Some j)) as [|Hne]; [assumption|].
      rewrite (G2 j y Hj Hne) in Ay. discriminate. }
    congruence.
Qed.

(** X2. In every reachable state, when the hook reports
    [isConnected = true] the current handle exists, has its listeners
    attached and is OPEN or CLOSING: the indicator never shows Connected
    for a missing, connecting or closed socket. *)
Theorem isConnected_means_current_handle_live (s : State) :
  reachable ua opts s -> isConnected s = true ->
  exists i w,
    webSocketRef s = Some i /\ socket i s = Some w /\
    WebSocket.listeners w = true /\
    (WebSocket.readyState w = WebSocket.OPEN \/
     WebSocket.readyState w = WebSocket.CLOSING).
Proof.
  intros Hr Hon.
  destruct (reachable_isConnected s Hr Hon) as (i & w & Hi & Hw & Hl & Hc & Hcl).
  exists i, w. repeat split; auto.
  unfold WebSocket.is_connecting, WebSocket.is_closed in *.
  destruct (WebSocket.readyState w); try discriminate; auto.
Qed.

End Indicator.

(** ** Accounting: close handlers, retries and delays *)

Lemma length_filter_fmap {A} (P : A -> bool) (l : list A) :
  length (List.filter P l) = length (List.filter (fun b : bool => b) (P <$> l)).
Proof.
  induction l as [|a l IH]; [reflexivity|].
  simpl. destruct (P a); simpl; rewrite IH; reflexivity.
Qed.

Lemma length_filter_insert_true (l : list bool) i :
  l !! i = Some false ->
  length (List.filter (fun b : bool => b) (<[i := true]> l)) =
  S (length (List.filter (fun b : bool => b) l)).
Proof.
  revert i. induction l as [|b l IH]; intros i Hi; [discriminate|].
  destruct i as [|i]; simpl in *.
  - injection Hi as ->. reflexivity.
  - destruct b; simpl; rewrite (IH i Hi); reflexivity.
Qed.

Lemma closed_sockets_alike s s' :
  sockets_alike s' s ->
  length (closed_sockets s') = length (closed_sockets s).
Proof.
  intros H. unfold closed_sockets.
  rewrite (length_filter_fmap WebSocket.is_closed (sockets s')),
    (length_filter_fmap WebSocket.is_closed (sockets s)).
  f_equal. f_equal. apply list_eq. intros j. rewrite !list_lookup_fmap.
  specialize (H j). unfold socket in H.
  destruct (sockets s' !! j), (sockets s !! j); simpl; try tauto.
  destruct H as [_ ->]. reflexivity.
Qed.

Lemma closed_sockets_snoc l w :
  WebSocket.is_closed w = false ->
  length (List.filter WebSocket.is_closed (l ++ [w])) =
  length (List.filter WebSocket.is_closed l).
Proof.
  intros H. rewrite List.filter_app. simpl. rewrite H, app_nil_r. reflexivity.
Qed.

(** One socket goes from not closed to closed. *)
Lemma closed_sockets_close i w w' s s' :
  socket i s = Some w -> WebSocket.is_closed w = false ->
  WebSocket.is_closed w' = true ->
  (forall j, socket j s' = if decide (i = j) then Some w' else socket j s) ->
  length (closed_sockets s') = S (length (closed_sockets s)).
Proof.
  intros Hw Hc Hc' Hs. unfold closed_sockets.
  rewrite (length_filter_fmap WebSocket.is_closed (sockets s')),
    (length_filter_fmap WebSocket.is_closed (sockets s)).
  assert (E : WebSocket.is_closed <$> sockets s' =
              <[i := true]> (WebSocket.is_closed <$> sockets s)).
  { apply list_eq. intros j. rewrite list_lookup_fmap.
    change (sockets s' !! j) with (socket j s'). rewrite Hs.
    destruct (decide (i = j)) as [<-|Hne].
    - rewrite list_lookup_insert_eq; [simpl; rewrite Hc'; reflexivity|].
      rewrite length_fmap. eapply lookup_lt_Some. exact Hw.
    - rewrite list_lookup_insert_ne by exact Hne.
      rewrite list_lookup_fmap. reflexivity. }
  rewrite E. apply length_filter_insert_true.
  rewrite list_lookup_fmap. change (sockets s !! i) with (socket i s).
  rewrite Hw. simpl. rewrite Hc. reflexivity.
Qed.

Section Accounting.

Variable ua : UserAgent.
Variable opts : Options.

(** [connect] runs no close handler, closes no socket, leaves the retry
    counter alone and sets no retry timer. *)
Lemma connect_accounting s :
  let s' := connect ua opts s in
  disconnects (log s') = disconnects (log s) /\
  length (closed_sockets s') = length (closed_sockets s) /\
  retriesRef s' = retriesRef s /\
  retry_delays (log s') = retry_delays (log s) /\
  (forall id t, In (id, t) (timers s') -> is_retry t = true ->
                In (id, t) (timers s)).
Proof.
  cbv zeta. destruct (current_is_open s) eqn:Ho.
  { rewrite connect_open by exact Ho. auto. }
  pose proof (quiet_connect_prepared s) as Q.
  pose proof (closed_sockets_alike _ _ (proj1 (proj2 (proj2 (proj2 (proj2 Q))))))
    as Hcl.
  destruct (connect_prepared_frame s) as (_&_&_&Hr&_&_&_&Ht&_&Hl).
  cbv zeta in *.
  destruct (constructor_throws ua (url opts)) as [message|] eqn:Hc.
  - rewrite connect_not_open by exact Ho. cbv zeta. rewrite Hc. cells.
    rewrite Hl, Hr, Ht, disconnects_app, retry_delays_app.
    unfold disconnects at 2. simpl. rewrite app_nil_r, Nat.add_0_r.
    repeat split; auto.
  - destruct (connect_new_spec ua opts s Ho Hc)
      as (_&_&Hs&Ht'&_&Hl'&Hr'&_).
    cbv zeta in *. rewrite Hl', Hr', Ht', disconnects_app, retry_delays_app.
    unfold disconnects at 2. simpl. rewrite app_nil_r, Nat.add_0_r.
    split; [reflexivity|]. split.
    { unfold closed_sockets at 1. rewrite Hs.
      rewrite closed_sockets_snoc by reflexivity. exact Hcl. }
    split; [reflexivity|]. split; [reflexivity|].
    intros id t Hin R. apply in_app_or in Hin as [Hin|[Hin|[]]]; [exact Hin|].
    injection Hin as _ <-. discriminate.
Qed.

(** A task other than a close event runs no close handler and closes
    no socket. *)
Lemma step_keeps_closed e s s' :
  is_ev_close e = false ->
  step ua opts e s = Some s' ->
  disconnects (log s') = disconnects (log s) /\
  length (closed_sockets s') = length (closed_sockets s).
Proof.
  intros He Hstep.
  assert (Hq : forall s1, quiet s s1 ->
                 length (closed_sockets s1) = length (closed_sockets s)).
  { intros s1 Q. apply closed_sockets_alike. apply Q. }
  destruct e; try discriminate.
  - (* open *)
    pose proof (step_quiet ua opts _ _ _ Hstep Logic.I) as Q.
    split; [|apply Hq; exact Q].
    unfold step in Hstep. destruct (socket i s) as [w|]; [|discriminate].
    cbn [mbind option_bind] in Hstep.
    destruct (WebSocket.is_connecting w); [|discriminate].
    injection Hstep as <-. destruct (WebSocket.listeners w).
    + destruct (handleOpen_spec ua i
                  (on_socket i (WebSocket.set_readyState WebSocket.OPEN) s))
        as (_&_&_&Hl&_). cbv zeta in Hl. rewrite Hl, disconnects_app.
      autorewrite with frame. unfold disconnects at 2. simpl. lia.
    + autorewrite with frame. reflexivity.
  - (* message *)
    pose proof (step_quiet ua opts _ _ _ Hstep Logic.I) as Q.
    split; [|apply Hq; exact Q].
    unfold step in Hstep. destruct (socket i s) as [w|]; [|discriminate].
    cbn [mbind option_bind] in Hstep.
    assert (s' = handleMessage ua data s \/ s' = s) as [->| ->].
    { destruct (WebSocket.readyState w), (WebSocket.listeners w);
        try discriminate; injection Hstep as <-; auto. }
    + apply (handleMessage_spec ua data s).
    + reflexivity.
  - (* error *)
    pose proof (step_quiet ua opts _ _ _ Hstep Logic.I) as Q.
    split; [|apply Hq; exact Q].
    unfold step in Hstep. destruct (socket i s) as [w|]; [|discriminate].
    cbn [mbind option_bind] in Hstep. injection Hstep as <-.
    destruct (WebSocket.listeners w); [|reflexivity].
    destruct (handleError_spec i s) as (_&Hl&_). cbv zeta in Hl.
    rewrite Hl, disconnects_app. unfold disconnects at 2. simpl. lia.
  - (* timer *)
    apply step_timer_inversion in Hstep as (t & Hp & ->).
    destruct (callback t) as [i|].
    + split.
      * rewrite fire_connectionTimeout. autorewrite with frame. reflexivity.
      * apply Hq. eapply quiet_trans; [apply quiet_clearTimeout|].
        apply quiet_fire_connectionTimeout.
    + unfold fire. destruct (connectRef (clearTimeout id s)).
      * destruct (connect_accounting (clearTimeout id s)) as (H1&H2&_).
        cbv zeta in *. rewrite H1, H2. auto.
      * auto.
  - (* sendMessage *)
    pose proof (step_quiet ua opts _ _ _ Hstep Logic.I) as Q.
    split; [|apply Hq; exact Q].
    simpl in Hstep. injection Hstep as <-.
    destruct (sendMessage_frame ua message s) as (_&Hl&_). cbv zeta in Hl.
    rewrite Hl. reflexivity.
  - (* reconnect *)
    simpl in Hstep. injection Hstep as <-. unfold reconnect.
    set (s4 := setError None _).
    assert (Hl4 : log s4 = log s).
    { unfold s4. cells. autorewrite with frame. cells.
      destruct (webSocketRef s); autorewrite with frame; reflexivity. }
    assert (Hc4 : length (closed_sockets s4) = length (closed_sockets s)).
    { apply closed_sockets_alike.
      destruct (quiet_close_current s) as (_&_&_&_&Ha&_).
      eapply sockets_alike_trans; [|exact Ha].
      apply sockets_alike_refl. unfold s4. cells. autorewrite with frame.
      reflexivity. }
    destruct (connectRef s4).
    + destruct (connect_accounting s4) as (H1&H2&_). cbv zeta in *.
      rewrite H1, H2, Hl4, Hc4. auto.
    + rewrite Hl4, Hc4. auto.
  - (* unmount *)
    pose proof (step_quiet ua opts _ _ _ Hstep Logic.I) as Q.
    split; [|apply Hq; exact Q].
    simpl in Hstep. injection Hstep as <-. unfold cleanup.
    destruct (webSocketRef _); autorewrite with frame; reflexivity.
Qed.

(** X3. In every reachable state [onDisconnect] has been called exactly
    once for each socket that has had its close event: no close goes
    unreported and no handle is torn down twice. *)
Theorem onDisconnect_once_per_closed_socket (s : State) :
  reachable ua opts s ->
  disconnects (log s) = length (closed_sockets s).
Proof.
  induction 1 as [|e s s' Hr IH Hstep].
  - unfold mounted, mount.
    destruct (connect_accounting (set_connectRef true initial)) as (H1&H2&_).
    cbv zeta in *. rewrite H1, H2. reflexivity.
  - destruct (is_ev_close e) eqn:He.
    + destruct e; try discriminate.
      apply step_close_inversion in Hstep as (w & Hw & Hc & ->).
      destruct (reachable_handles_ok ua opts s Hr) as (G1&_).
      assert (Hl : WebSocket.listeners w = true).
      { rewrite (G1 i w Hw), Hc. reflexivity. }
      rewrite Hl.
      set (s0 := on_socket i (WebSocket.set_readyState WebSocket.CLOSED) s).
      destruct (handleClose_counts opts i s0) as [Hd _]. cbv zeta in Hd.
      assert (Hl0 : log s0 = log s)
        by (unfold s0; autorewrite with frame; reflexivity).
      rewrite Hd, Hl0, IH.
      rewrite (closed_sockets_close i w
                 (WebSocket.set_listeners false
                    (WebSocket.set_readyState WebSocket.CLOSED w))
                 s (handleClose opts i s0) Hw Hc eq_refl); [lia|].
      intros j. rewrite socket_handleClose. unfold s0.
      rewrite socket_on_socket.
      destruct (decide (i = j)) as [<-|]; [|reflexivity].
      rewrite Hw. reflexivity.
    + destruct (step_keeps_closed e s s' He Hstep) as [H1 H2].
      rewrite H1, H2. exact IH.
Qed.

(** What one task can do to the retry counter, the retry delays set and
    the retry timers: nothing, a reset of the counter, or one more step
    of the ladder taken by the close handler. *)
Lemma step_retry_accounting e s s' :
  step ua opts e s = Some s' ->
  ((retriesRef s' = retriesRef s \/ retriesRef s' = 0%Z) /\
   retry_delays (log s') = retry_delays (log s) /\
   (forall id t, In (id, t) (timers s') -> is_retry t = true ->
                 In (id, t) (timers s)))
  \/
  (shouldReconnect opts = true /\ (retriesRef s < maxRetries opts)%Z /\
   retriesRef s' = (retriesRef s + 1)%Z /\
   retry_delays (log s') =
     retry_delays (log s) ++
     [(retryDelay opts * 2 ^ (retriesRef s + 1 - 1))%Z] /\
   exists i, e = ev_close i).
Proof.
  intros Hstep. destruct e.
  - (* open *)
    left. unfold step in Hstep. destruct (socket i s) as [w|]; [|discriminate].
    cbn [mbind option_bind] in Hstep.
    destruct (WebSocket.is_connecting w); [|discriminate].
    injection Hstep as <-. destruct (WebSocket.listeners w).
    + destruct (handleOpen_spec ua i
                  (on_socket i (WebSocket.set_readyState WebSocket.OPEN) s))
        as (_&Hr&_&Hl&_&_&_&_&_&_&Ht&_). cbv zeta in *.
      rewrite Hr, Hl, Ht, retry_delays_app. autorewrite with frame. simpl.
      rewrite app_nil_r. split; [auto|]. split; [reflexivity|].
      intros id t Hin _. apply In_timers_clearTimeout_if in Hin.
      autorewrite with frame in Hin. exact Hin.
    + autorewrite with frame. auto.
  - (* message *)
    left. unfold step in Hstep. destruct (socket i s) as [w|]; [|discriminate].
    cbn [mbind option_bind] in Hstep.
    assert (s' = handleMessage ua data s \/ s' = s) as [->| ->].
    { destruct (WebSocket.readyState w), (WebSocket.listeners w);
        try discriminate; injection Hstep as <-; auto. }
    + destruct (handleMessage_spec ua data s) as (_&Ht&_&Hq&_&_&Hr&_).
      cbv zeta in *. rewrite Hr, Hq, Ht. auto.
    + auto.
  - (* error *)
    left. unfold step in Hstep. destruct (socket i s) as [w|]; [|discriminate].
    cbn [mbind option_bind] in Hstep. injection Hstep as <-.
    destruct (WebSocket.listeners w); [|auto].
    destruct (handleError_spec i s) as (_&Hl&_&Hr&_&_&_&_&_&_&Ht).
    cbv zeta in *. rewrite Hr, Hl, retry_delays_app. simpl.
    rewrite app_nil_r. split; [auto|]. split; [reflexivity|].
    intros id t Hin _. apply Ht. exact Hin.
  - (* close *)
    apply step_close_inversion in Hstep as (w & Hw & Hc & ->).
    set (s0 := on_socket i (WebSocket.set_readyState WebSocket.CLOSED) s).
    assert (Hr0 : retriesRef s0 = retriesRef s)
      by (unfold s0; autorewrite with frame; reflexivity).
    assert (Hl0 : log s0 = log s)
      by (unfold s0; autorewrite with frame; reflexivity).
    assert (Ht0 : forall p, In p (timers (clear_connectionTimeout i s0)) ->
                            In p (timers s)).
    { intros p Hp. apply In_timers_clearTimeout_if in Hp. unfold s0 in Hp.
      autorewrite with frame in Hp. exact Hp. }
    destruct (WebSocket.listeners w).
    + destruct (handleClose_spec opts i s0) as (_&_&_&_&_&_&H). cbv zeta in H.
      rewrite Hr0, Hl0 in H.
      destruct H as [(Hs&Hlt&Hr&Hl&_)|[(_&_&Hr&Hl&_&_&Ht&_)|(_&Hr&Hl&_&_&Ht&_)]].
      * right. rewrite Hr, Hl, !retry_delays_app. simpl. rewrite app_nil_r.
        repeat split; eauto.
      * left. rewrite Hr, Hl, Ht, !retry_delays_app. simpl.
        rewrite !app_nil_r. split; [auto|]. split; [reflexivity|].
        intros id t Hin _. apply Ht0. exact Hin.
      * left. rewrite Hr, Hl, Ht, !retry_delays_app. simpl.
        rewrite !app_nil_r. split; [auto|]. split; [reflexivity|].
        intros id t Hin _. apply Ht0. exact Hin.
    + left. rewrite Hr0, Hl0. unfold s0. autorewrite with frame. auto.
  - (* timer *)
    left. apply step_timer_inversion in Hstep as (t & Hp & ->).
    assert (Hsub : forall p, In p (timers (clearTimeout id s)) ->
                             In p (timers s)).
    { intros p Hin. apply In_timers_clearTimeout in Hin. tauto. }
    destruct (callback t) as [i|].
    + rewrite fire_connectionTimeout. autorewrite with frame. cells.
      split; [auto|]. split; [reflexivity|].
      intros id' t' Hin _. apply (Hsub _ Hin).
    + unfold fire. destruct (connectRef (clearTimeout id s)).
      * destruct (connect_accounting (clearTimeout id s)) as (_&_&Hr&Hl&Ht).
        cbv zeta in *. rewrite Hr, Hl. split; [auto|]. split; [reflexivity|].
        intros id' t' Hin R. apply Hsub. apply (Ht id' t' Hin R).
      * split; [auto|]. split; [reflexivity|].
        intros id' t' Hin _. apply (Hsub _ Hin).
  - (* sendMessage *)
    left. simpl in Hstep. injection Hstep as <-.
    destruct (sendMessage_frame ua message s) as (Hr&Hl&_&Ht). cbv zeta in *.
    rewrite Hr, Hl, Ht. auto.
  - (* reconnect *)
    left. simpl in Hstep. injection Hstep as <-. unfold reconnect.
    set (s4 := setError None _).
    assert (Hl4 : log s4 = log s).
    { unfold s4. cells. autorewrite with frame. cells.
      destruct (webSocketRef s); autorewrite with frame; reflexivity. }
    assert (Hr4 : retriesRef s4 = 0%Z).
    { unfold s4. cells. autorewrite with frame. reflexivity. }
    assert (Ht4 : forall p, In p (timers s4) -> In p (timers s)).
    { intros p Hin. unfold s4 in Hin. cells_in Hin.
      apply In_timers_clearTimeout_if in Hin. cells_in Hin.
      destruct (webSocketRef s); autorewrite with frame in Hin; exact Hin. }
    destruct (connectRef s4).
    + destruct (connect_accounting s4) as (_&_&Hr&Hl&Ht). cbv zeta in *.
      rewrite Hr, Hl, Hr4, Hl4. split; [auto|]. split; [reflexivity|].
      intros id t Hin R. apply Ht4. apply (Ht id t Hin R).
    + rewrite Hr4, Hl4. split; [auto|]. split; [reflexivity|].
      intros id t Hin _. apply (Ht4 _ Hin).
  - (* unmount *)
    left. simpl in Hstep. injection Hstep as <-. unfold cleanup.
    assert (Ht : forall p,
               In p (timers (match webSocketRef
                                     (clearTimeout_if (retryTimeoutRef s) s) with
                             | Some i => on_socket i WebSocket.close
                                           (clearTimeout_if (retryTimeoutRef s) s)
                             | None => clearTimeout_if (retryTimeoutRef s) s
                             end)) -> In p (timers s)).
    { intros p Hin. destruct (webSocketRef _);
        autorewrite with frame in Hin;
        apply In_timers_clearTimeout_if in Hin; exact Hin. }
    split; [|split].
    + left. destruct (webSocketRef _); autorewrite with frame; reflexivity.
    + destruct (webSocketRef _); autorewrite with frame; reflexivity.
    + intros id t Hin _. apply (Ht _ Hin).
Qed.

(** X4. In every reachable state, whatever the consumer does, the retry
    counter lies between 0 and [maxRetries] (it is 0 when [maxRetries]
    is negative), and every retry delay ever passed to [setTimeout] is a
    step [retryDelay * 2^(k-1)] of the ladder with
    [1 <= k <= maxRetries]; for a non-negative [retryDelay] it therefore
    lies between [retryDelay] and [retryDelay * 2^(maxRetries-1)]. *)
Theorem retry_counter_and_delays_bounded (s : State) :
  reachable ua opts s ->
  (0 <= retriesRef s <= Z.max 0 (maxRetries opts))%Z /\
  on_ladder opts (retry_delays (log s)) /\
  ((0 <= retryDelay opts)%Z ->
   forall d, In d (retry_delays (log s)) ->
             (retryDelay opts <= d <=
              retryDelay opts * 2 ^ (maxRetries opts - 1))%Z).
Proof.
  intros Hr.
  assert (H : (0 <= retriesRef s <= Z.max 0 (maxRetries opts))%Z /\
              on_ladder opts (retry_delays (log s))).
  { induction Hr as [|e s s' Hr IH Hstep].
    - unfold mounted, mount.
      destruct (connect_accounting (set_connectRef true initial))
        as (_&_&Hr&Hl&_).
      cbv zeta in *. rewrite Hr, Hl. simpl. split; [lia|]. intros d [].
    - destruct IH as [Hb Hlad].
      destruct (step_retry_accounting e s s' Hstep)
        as [([Hr'|Hr'] & Hl & _)|(_ & Hlt & Hr' & Hl & _)];
        rewrite Hr', Hl; try (split; [lia|exact Hlad]).
      split; [lia|]. intros d Hin. apply in_app_or in Hin as [Hin|[<-|[]]].
      + apply Hlad. exact Hin.
      + exists (retriesRef s + 1)%Z. split; [lia|reflexivity]. }
  destruct H as [Hb Hlad]. split; [exact Hb|]. split; [exact Hlad|].
  intros Hpos d Hin. destruct (Hlad d Hin) as (k & Hk & ->).
  assert (H1 : (1 <= 2 ^ (k - 1))%Z).
  { change 1%Z with (2 ^ 0)%Z at 1. apply Z.pow_le_mono_r; lia. }
  assert (H2 : (2 ^ (k - 1) <= 2 ^ (maxRetries opts - 1))%Z).
  { apply Z.pow_le_mono_r; lia. }
  split; nia.
Qed.

(** X5. With [shouldReconnect = false] the hook never retries: in every
    reachable state the retry counter is 0, no retry timer has ever been
    set and none is pending. *)
Theorem no_retry_when_reconnect_disabled (s : State) :
  shouldReconnect opts = false ->
  reachable ua opts s ->
  retriesRef s = 0%Z /\ retry_delays (log s) = [] /\ retry_timers s = [].
Proof.
  intros Hoff Hr.
  assert (H : retriesRef s = 0%Z /\ retry_delays (log s) = [] /\
              no_retry_pending s).
  { induction Hr as [|e s s' Hr IH Hstep].
    - unfold mounted, mount.
      destruct (connect_accounting (set_connectRef true initial))
        as (_&_&Hr&Hl&Ht).
      cbv zeta in *. rewrite Hr, Hl. split; [reflexivity|].
      split; [reflexivity|]. intros id t Hin.
      destruct (is_retry t) eqn:R; [|reflexivity].
      destruct (Ht id t Hin R).
    - destruct IH as (H0 & Hl0 & Hno).
      destruct (step_retry_accounting e s s' Hstep)
        as [(Hr' & Hl & Ht)|(Hon & _)]; [|congruence].
      split; [destruct Hr'; congruence|]. split; [congruence|].
      intros id t Hin. destruct (is_retry t) eqn:R; [|reflexivity].
      rewrite (Hno id t (Ht id t Hin R)) in R. discriminate. }
  destruct H as (H0 & Hl & Hno). split; [exact H0|]. split; [exact Hl|].
  apply retry_timers_nil. exact Hno.
Qed.

End Accounting.

(** ** Sending, unmounting, the connection timeout and a fresh start *)

Section Lifecycle.
Context (ua : UserAgent) (opts : Options).

Lemma transmit_buffered data w :
  WebSocket.is_open w = true -> buffers ua (WebSocket.sent w) data = true ->
  transmit ua data w = WebSocket.set_sent (WebSocket.sent w ++ [data]) w.
Proof.
  unfold transmit, WebSocket.send, WebSocket.is_open.
  destruct (WebSocket.readyState w); try discriminate. intros _ ->.
  reflexivity.
Qed.

(** X6. While the current socket is OPEN and the browser buffers the
    frames, a series of [sendMessage] calls hands the JSON texts to the
    socket in call order; the queue, the error and the callbacks are
    left alone, and so is every other socket. *)
Theorem sends_while_open_go_out_in_order (msgs : list JsValue) :
  forall (s : State) (i : nat) (w : WebSocket.t),
  webSocketRef s = Some i -> socket i s = Some w ->
  WebSocket.is_open w = true ->
  buffers_all ua (WebSocket.sent w) (JSON_stringify <$> msgs) = true ->
  exists s',
    run ua opts (call_sendMessage <$> msgs) s = Some s' /\
    socket i s' =
      Some (WebSocket.set_sent
              (WebSocket.sent w ++ (JSON_stringify <$> msgs)) w) /\
    (forall j, j <> i -> socket j s' = socket j s) /\
    messageQueueRef s' = messageQueueRef s /\
    error s' = error s /\ log s' = log s.
Proof.
  induction msgs as [|m msgs IH]; intros s i w Hi Hw Ho Hb.
  - exists s. simpl. rewrite app_nil_r. repeat split; auto.
    rewrite Hw. destruct w; reflexivity.
  - simpl in Hb. apply andb_prop in Hb as [Hb1 Hb2].
    set (w1 := WebSocket.set_sent (WebSocket.sent w ++ [JSON_stringify m]) w).
    set (s1 := sendMessage ua m s).
    assert (E1 : s1 = on_socket i (transmit ua (JSON_stringify m)) s)
      by (apply (sendMessage_transmits ua m s i w); assumption).
    assert (Hw1 : socket i s1 = Some w1).
    { rewrite E1, socket_on_socket, decide_True by reflexivity.
      rewrite Hw. simpl. rewrite transmit_buffered by assumption.
      reflexivity. }
    assert (Hi1 : webSocketRef s1 = Some i)
      by (rewrite E1; autorewrite with frame; exact Hi).
    destruct (IH s1 i w1 Hi1 Hw1 Ho Hb2)
      as (s' & Hrun & Hs' & Hoth & Hq & He & Hl).
    exists s'. split.
    { change (run ua opts (call_sendMessage <$> m :: msgs) s)
        with (run ua opts (call_sendMessage <$> msgs) s1). exact Hrun. }
    split.
    { rewrite Hs'. unfold w1. simpl. rewrite <- app_assoc. reflexivity. }
    split.
    { intros j Hj. rewrite (Hoth j Hj), E1, socket_on_socket.
      rewrite decide_False by congruence. reflexivity. }
    rewrite Hq, He, Hl, E1. autorewrite with frame. auto.
Qed.

Lemma active_close w : active (WebSocket.close w) = false.
Proof.
  unfold active, WebSocket.close, WebSocket.is_connecting, WebSocket.is_open.
  destruct (WebSocket.readyState w) eqn:R; simpl; rewrite ?R; reflexivity.
Qed.

Lemma timers_clearTimeout_if_twice o s1 s :
  timers s1 = timers (clearTimeout_if o s) ->
  timers (clearTimeout_if o s1) = timers (clearTimeout_if o s).
Proof.
  intros H. destruct o as [[|n]|]; unfold clearTimeout_if in *; try exact H.
  rewrite !timers_clearTimeout in *. rewrite H. clear H.
  induction (timers s) as [|p l IH]; [reflexivity|]. simpl.
  destruct (negb (Nat.eqb (fst p) (S n))) eqn:E; simpl; rewrite ?E, IH;
    reflexivity.
Qed.

Lemma sockets_close_current_twice s1 s :
  webSocketRef s1 = webSocketRef s ->
  sockets s1 = sockets (match webSocketRef s with
                        | Some i => on_socket i WebSocket.close s
                        | None => s
                        end) ->
  sockets (match webSocketRef s1 with
           | Some i => on_socket i WebSocket.close s1
           | None => s1
           end) = sockets s1.
Proof.
  intros Hr Hs. rewrite Hr. destruct (webSocketRef s) as [i|]; [|reflexivity].
  unfold on_socket, socket in *.
  destruct (sockets s !! i) as [w|] eqn:E; simpl in Hs.
  - rewrite Hs.
    rewrite list_lookup_insert_eq by (eapply lookup_lt_Some; exact E).
    simpl. rewrite WebSocket_close_twice, list_insert_insert_eq.
    reflexivity.
  - rewrite Hs, E. exact Hs.
Qed.

Lemma cleanup_spec s :
  let s' := cleanup s in
  state s' = state s /\ lastMessage s' = lastMessage s /\
  error s' = error s /\ webSocketRef s' = webSocketRef s /\
  retriesRef s' = retriesRef s /\ retryTimeoutRef s' = retryTimeoutRef s /\
  messageQueueRef s' = messageQueueRef s /\ connectRef s' = connectRef s /\
  nextTimer s' = nextTimer s /\ log s' = log s /\
  timers s' = timers (clearTimeout_if (retryTimeoutRef s) s) /\
  sockets s' = sockets (match webSocketRef s with
                        | Some i => on_socket i WebSocket.close s
                        | None => s
                        end).
Proof.
  unfold cleanup. set (s0 := clearTimeout_if (retryTimeoutRef s) s).
  assert (Hw0 : webSocketRef s0 = webSocketRef s)
    by (unfold s0; autorewrite with frame; reflexivity).
  assert (Hs0 : sockets s0 = sockets s)
    by (unfold s0; autorewrite with frame; reflexivity).
  rewrite Hw0. destruct (webSocketRef s) as [i|] eqn:Hws.
  - autorewrite with frame. unfold s0 at 1 2 3 4 5 6 7 8 9 10.
    autorewrite with frame. repeat split; try reflexivity; try assumption.
    apply sockets_on_socket_ext. exact Hs0.
  - unfold s0 at 1 2 3 4 5 6 7 8 9 10. autorewrite with frame.
    repeat split; try reflexivity; try assumption.
Qed.

(** X8. Unmounting, from any state the hook can be in: afterwards no
    socket is CONNECTING or OPEN, the retry timer recorded in
    [retryTimeoutRef] is no longer pending, and running the cleanup a
    second time changes nothing.  When every manual reconnect was
    orderly, no retry timer at all is left pending. *)
Theorem unmount_closes_and_cancels (s : State) :
  reachable ua opts s ->
  let s' := cleanup s in
  (forall i w, socket i s' = Some w -> active w = false) /\
  (forall id, retryTimeoutRef s = Some id -> pending id s' = None) /\
  cleanup s' = s' /\
  (reachable_orderly ua opts s -> retry_timers s' = []).
Proof.
  intros Hr s'.
  pose proof (reachable_handles_ok ua opts s Hr) as (_ & Hcur & _).
  pose proof (reachable_wf ua opts s Hr) as (_ & _ & _ & Hid).
  set (s0 := clearTimeout_if (retryTimeoutRef s) s).
  assert (Hw0 : webSocketRef s0 = webSocketRef s)
    by (unfold s0; autorewrite with frame; reflexivity).
  assert (Ht : timers s' = timers s0).
  { unfold s', cleanup. fold s0.
    destruct (webSocketRef s0); autorewrite with frame; reflexivity. }
  assert (Hrt : retryTimeoutRef s' = retryTimeoutRef s).
  { unfold s', cleanup. fold s0.
    destruct (webSocketRef s0); unfold s0; autorewrite with frame;
      reflexivity. }
  assert (Hws : webSocketRef s' = webSocketRef s).
  { unfold s', cleanup. fold s0.
    destruct (webSocketRef s0) eqn:E; autorewrite with frame; congruence. }
  assert (Hpend : forall id, retryTimeoutRef s = Some id ->
                             pending id s' = None).
  { intros id Hrid. apply pending_None. intros t Hin. rewrite Ht in Hin.
    unfold s0 in Hin. rewrite Hrid in Hin.
    destruct id as [|n]; [destruct (Hid 0 Hrid); lia|].
    simpl in Hin. apply In_timers_clearTimeout in Hin as [_ Hne].
    apply Hne. reflexivity. }
  split; [|split; [exact Hpend|split]].
  - intros i w Hw. unfold s', cleanup in Hw. fold s0 in Hw.
    rewrite socket_close_current, Hw0 in Hw. unfold s0 in Hw.
    rewrite socket_clearTimeout_if in Hw.
    destruct (decide (webSocketRef s = Some i)) as [Hi|Hi].
    + destruct (socket i s) as [w0|]; [|discriminate].
      injection Hw as <-. apply active_close.
    + apply (Hcur i w Hw Hi).
  - destruct (cleanup_spec s')
      as (A1&A2&A3&A4&A5&A6&A7&A8&A9&A10&A11&A12).
    destruct (cleanup_spec s)
      as (B1&B2&B3&B4&B5&B6&B7&B8&B9&B10&B11&B12).
    cbv zeta in *. fold s' in B1, B2, B3, B4, B5, B6, B7, B8, B9, B10, B11, B12.
    apply State_eq; try assumption.
    + rewrite A12. apply (sockets_close_current_twice s' s); assumption.
    + rewrite A11, B6. etransitivity; [|symmetry; exact B11].
      apply timers_clearTimeout_if_twice. exact B11.
  - intros Ho. apply retry_timers_nil. intros id t Hin.
    destruct (is_retry t) eqn:R; [|reflexivity].
    pose proof (reachable_orderly_inv ua opts s Ho) as (_ & _ & _ & Hretry).
    assert (Hin0 : In (id, t) (timers s)).
    { rewrite Ht in Hin. unfold s0 in Hin.
      apply In_timers_clearTimeout_if in Hin. exact Hin. }
    destruct (Hretry id t Hin0 R) as [Hrid _].
    apply Hpend in Hrid. rewrite pending_None in Hrid.
    destruct (Hrid t Hin).
Qed.

Lemma not_in_clear_connectionTimeout i s w t :
  socket i s = Some w -> 0 < WebSocket.connectionTimeoutId w ->
  ~ In (WebSocket.connectionTimeoutId w, t)
       (timers (clear_connectionTimeout i s)).
Proof.
  intros Hw Hpos Hin. unfold clear_connectionTimeout in Hin.
  rewrite Hw in Hin. simpl in Hin.
  destruct (WebSocket.connectionTimeoutId w) as [|n]; [lia|].
  unfold clearTimeout_if in Hin.
  apply In_timers_clearTimeout in Hin as [_ Hne]. apply Hne. reflexivity.
Qed.

(** X9. The open, the error and the close handler each cancel the
    connection timeout of their own attempt: once such an event of a
    listening socket has been handled, the 5 s timer set for that socket
    in [connect] is no longer pending, so it cannot fire on a socket
    that has opened, failed or closed. *)
Theorem connection_timeout_cancelled_by_handlers (e : Event) (i : nat)
    (w : WebSocket.t) (s s' : State) :
  reachable ua opts s ->
  socket i s = Some w -> WebSocket.listeners w = true ->
  e = ev_open i \/ e = ev_error i \/ e = ev_close i ->
  step ua opts e s = Some s' ->
  pending (WebSocket.connectionTimeoutId w) s' = None.
Proof.
  intros Hr Hw Hl He Hstep.
  pose proof (reachable_handles_ok ua opts s Hr) as (_ & _ & Hid).
  destruct (Hid i w Hw) as [Hpos Hlt].
  apply pending_None. intros t Hin.
  destruct He as [->|[->| ->]].
  - unfold step in Hstep. rewrite Hw in Hstep.
    cbn [mbind option_bind] in Hstep.
    destruct (WebSocket.is_connecting w); [|discriminate].
    injection Hstep as <-. rewrite Hl in Hin.
    set (s0 := on_socket i (WebSocket.set_readyState WebSocket.OPEN) s) in *.
    destruct (handleOpen_spec ua i s0) as (_&_&_&_&_&_&_&_&_&_&Ht&_).
    cbv zeta in Ht. rewrite Ht in Hin.
    assert (Hw0 : socket i s0 =
                  Some (WebSocket.set_readyState WebSocket.OPEN w)).
    { unfold s0. rewrite socket_on_socket, decide_True by reflexivity.
      rewrite Hw. reflexivity. }
    apply (not_in_clear_connectionTimeout i s0 _ t Hw0 Hpos Hin).
  - unfold step in Hstep. rewrite Hw in Hstep.
    cbn [mbind option_bind] in Hstep. injection Hstep as <-.
    rewrite Hl in Hin.
    change (timers (handleError i s))
      with (timers (clear_connectionTimeout i s)) in Hin.
    apply (not_in_clear_connectionTimeout i s w t Hw Hpos Hin).
  - apply step_close_inversion in Hstep as (w' & Hw' & _ & ->).
    assert (w' = w) as -> by congruence. rewrite Hl in Hin.
    set (s0 := on_socket i (WebSocket.set_readyState WebSocket.CLOSED) s) in *.
    assert (Hw0 : socket i s0 =
                  Some (WebSocket.set_readyState WebSocket.CLOSED w)).
    { unfold s0. rewrite socket_on_socket, decide_True by reflexivity.
      rewrite Hw. reflexivity. }
    assert (Hn0 : nextTimer s0 = nextTimer s)
      by (unfold s0; autorewrite with frame; reflexivity).
    destruct (handleClose_spec opts i s0) as (_&_&_&_&_&_&H). cbv zeta in H.
    destruct H as [(_&_&_&_&_&_&Ht&_)|[(_&_&_&_&_&_&Ht&_)|(_&_&_&_&_&Ht&_)]];
      rewrite Ht in Hin.
    + apply in_app_or in Hin as [Hin|[Hin|[]]].
      * apply (not_in_clear_connectionTimeout i s0 _ t Hw0 Hpos Hin).
      * injection Hin as Hid' _. rewrite Hn0 in Hid'. simpl in Hlt. lia.
    + apply (not_in_clear_connectionTimeout i s0 _ t Hw0 Hpos Hin).
    + apply (not_in_clear_connectionTimeout i s0 _ t Hw0 Hpos Hin).
Qed.

Lemma run_steady es : forall s s',
  forallb steady es = true -> run ua opts es s = Some s' ->
  retriesRef s = 0%Z ->
  retriesRef s' = 0%Z /\
  retry_delays (log s') = retry_delays (log s) /\
  sockets_alike s' s.
Proof.
  induction es as [|e es IH]; intros s s' Hes Hrun H0.
  - injection Hrun as <-. repeat split; auto.
    apply sockets_alike_refl. reflexivity.
  - simpl in Hes. apply andb_prop in Hes as [He Hes].
    change (run ua opts (e :: es) s)
      with (s1 ← step ua opts e s; run ua opts es s1) in Hrun.
    destruct (step ua opts e s) as [s1|] eqn:Hstep; [|discriminate].
    cbn [mbind option_bind] in Hrun.
    assert (Hq : quiet s s1).
    { apply (step_quiet ua opts e s s1 Hstep).
      destruct e; try discriminate; exact Logic.I. }
    destruct (step_retry_accounting ua opts e s s1 Hstep)
      as [(Hr1 & Hl1 & _)|(_ & _ & _ & _ & j & ->)]; [|discriminate].
    assert (H1 : retriesRef s1 = 0%Z) by (destruct Hr1; congruence).
    destruct (IH s1 s' Hes Hrun H1) as (Hr' & Hl' & Ha').
    split; [exact Hr'|]. split; [congruence|].
    destruct Hq as (_&_&_&_&Ha&_).
    eapply sockets_alike_trans; eauto.
Qed.

(** X10. A success restarts the backoff.  When a connection attempt
    opens, whatever the retry counter was, the error is cleared, and
    after any tasks other than close events, timers and manual
    reconnects, the close of that socket schedules retry number 1 with
    the base delay [retryDelay]. *)
Theorem open_restarts_backoff (i : nat) (w : WebSocket.t) (es : list Event)
    (s s1 s2 s3 : State) :
  shouldReconnect opts = true -> (0 < maxRetries opts)%Z ->
  socket i s = Some w -> WebSocket.listeners w = true ->
  step ua opts (ev_open i) s = Some s1 ->
  forallb steady es = true -> run ua opts es s1 = Some s2 ->
  step ua opts (ev_close i) s2 = Some s3 ->
  error s1 = None /\ retriesRef s1 = 0%Z /\ retriesRef s3 = 1%Z /\
  retry_delays (log s3) = retry_delays (log s) ++ [retryDelay opts].
Proof.
  intros Hon Hmax Hw Hl Hopen Hes Hrun Hclose.
  destruct (step_retry_accounting ua opts _ s s1 Hopen)
    as [(_ & Hl1 & _)|(_ & _ & _ & _ & j & Hj)]; [|discriminate].
  unfold step in Hopen. rewrite Hw in Hopen.
  cbn [mbind option_bind] in Hopen.
  destruct (WebSocket.is_connecting w); [|discriminate].
  injection Hopen as <-. rewrite Hl in *.
  set (s0 := on_socket i (WebSocket.set_readyState WebSocket.OPEN) s) in *.
  destruct (handleOpen_spec ua i s0) as (_&Hr1&He1&_&_&_&_&_&_&_&_&_&Hs1).
  cbv zeta in *.
  assert (Hw1 : exists w1, socket i (handleOpen ua i s0) = Some w1 /\
                           WebSocket.listeners w1 = true).
  { rewrite Hs1, decide_True by reflexivity. unfold s0.
    rewrite socket_on_socket, decide_True by reflexivity. rewrite Hw.
    eexists. split; [reflexivity|].
    destruct (drain_ws_listeners ua (messageQueueRef s0)
                (WebSocket.set_readyState WebSocket.OPEN w)) as (G&_).
    unfold s0 in G. rewrite G. exact Hl. }
  destruct Hw1 as (w1 & Hw1 & Hl1').
  destruct (run_steady es _ s2 Hes Hrun Hr1) as (Hr2 & Hl2 & Ha).
  apply step_close_inversion in Hclose as (w2 & Hw2 & _ & ->).
  specialize (Ha i). rewrite Hw2, Hw1 in Ha. destruct Ha as [Ha _].
  rewrite Ha, Hl1'.
  set (s2' := on_socket i (WebSocket.set_readyState WebSocket.CLOSED) s2).
  assert (Hr2' : retriesRef s2' = 0%Z)
    by (unfold s2'; autorewrite with frame; exact Hr2).
  assert (Hl2' : log s2' = log s2)
    by (unfold s2'; autorewrite with frame; reflexivity).
  destruct (handleClose_spec opts i s2') as (_&_&_&_&_&_&H). cbv zeta in H.
  rewrite Hr2', Hl2' in H.
  destruct H as [(_&_&Hr&Hl3&_)|[(_&Hge&_)|(Hoff&_)]];
    [|lia|congruence].
  split; [exact He1|]. split; [exact Hr1|]. split; [rewrite Hr; reflexivity|].
  rewrite Hl3, !retry_delays_app, Hl2, Hl1. simpl. rewrite app_nil_r.
  f_equal. f_equal. lia.
Qed.

End Lifecycle.

(** ** The state the hook returns and the callbacks agree *)

Lemma received_app l1 l2 : received (l1 ++ l2) = received l1 ++ received l2.
Proof. unfold received. apply omap_app. Qed.

Lemma told_same {A} (c : option A) l : told c c l l.
Proof. left. auto. Qed.

Lemma told_or_cleared_same {A} (c : option A) l : told_or_cleared c c l l.
Proof. left. apply told_same. Qed.

Section Mirror.
Context (ua : UserAgent) (opts : Options).

Lemma connect_mirror s :
  let s' := connect ua opts s in
  lastMessage s' = lastMessage s /\
  received (log s') = received (log s) /\
  told (error s) (error s') (reported (log s)) (reported (log s')).
Proof.
  cbv zeta. destruct (current_is_open s) eqn:Ho.
  { rewrite connect_open by exact Ho. split; [|split]; auto.
    apply told_same. }
  destruct (connect_prepared_frame s) as (Hm&He&_&_&_&_&_&_&_&Hl).
  cbv zeta in *. rewrite connect_not_open by exact Ho. cbv zeta.
  destruct (constructor_throws ua (url opts)) as [message|]; cells;
    rewrite Hm, Hl, ?He, received_app, reported_app; simpl;
    rewrite !app_nil_r; (split; [reflexivity|]); (split; [reflexivity|]).
  - right. eauto.
  - apply told_same.
Qed.

(** What one task does to [lastMessage] and [onMessage], and to [error]
    and [onError]. *)
Lemma step_mirror e s s' :
  step ua opts e s = Some s' ->
  told (lastMessage s) (lastMessage s')
       (received (log s)) (received (log s')) /\
  told_or_cleared (error s) (error s')
                  (reported (log s)) (reported (log s')).
Proof.
  intros Hstep. destruct e.
  - (* open *)
    unfold step in Hstep. destruct (socket i s) as [w|]; [|discriminate].
    cbn [mbind option_bind] in Hstep.
    destruct (WebSocket.is_connecting w); [|discriminate].
    injection Hstep as <-. destruct (WebSocket.listeners w).
    + destruct (handleOpen_spec ua i
                  (on_socket i (WebSocket.set_readyState WebSocket.OPEN) s))
        as (_&_&He&Hl&_&_&_&_&_&Hm&_). cbv zeta in *.
      rewrite He, Hl, Hm, received_app, reported_app.
      autorewrite with frame. simpl. rewrite !app_nil_r.
      split; [apply told_same|right; auto].
    + autorewrite with frame.
      split; [apply told_same|apply told_or_cleared_same].
  - (* message *)
    unfold step in Hstep. destruct (socket i s) as [w|]; [|discriminate].
    cbn [mbind option_bind] in Hstep.
    assert (s' = handleMessage ua data s \/ s' = s) as [->| ->].
    { destruct (WebSocket.readyState w), (WebSocket.listeners w);
        try discriminate; injection Hstep as <-; auto. }
    + unfold handleMessage. destruct (JSON_parse ua data) as [v|].
      * cells. rewrite received_app, reported_app. simpl.
        rewrite app_nil_r.
        split; [right; eauto|apply told_or_cleared_same].
      * split; [apply told_same|apply told_or_cleared_same].
    + split; [apply told_same|apply told_or_cleared_same].
  - (* error *)
    unfold step in Hstep. destruct (socket i s) as [w|]; [|discriminate].
    cbn [mbind option_bind] in Hstep. injection Hstep as <-.
    destruct (WebSocket.listeners w);
      [|split; [apply told_same|apply told_or_cleared_same]].
    unfold handleError. cells. autorewrite with frame.
    rewrite received_app, reported_app. simpl. rewrite app_nil_r.
    split; [apply told_same|left; right; eauto].
  - (* close *)
    apply step_close_inversion in Hstep as (w & Hw & Hc & ->).
    set (s0 := on_socket i (WebSocket.set_readyState WebSocket.CLOSED) s).
    assert (Hm0 : lastMessage s0 = lastMessage s)
      by (unfold s0; autorewrite with frame; reflexivity).
    assert (He0 : error s0 = error s)
      by (unfold s0; autorewrite with frame; reflexivity).
    assert (Hl0 : log s0 = log s)
      by (unfold s0; autorewrite with frame; reflexivity).
    destruct (WebSocket.listeners w).
    + destruct (handleClose_spec opts i s0) as (_&_&_&_&_&Hm&H).
      cbv zeta in *. rewrite Hm, Hm0. rewrite Hl0 in H.
      destruct H as [(_&_&_&Hl&_&_&_&He)|[(_&_&_&Hl&_&_&_&He)|
                                          (_&_&Hl&_&_&_&He)]];
        rewrite Hl, He, ?He0, !received_app, !reported_app; simpl;
        rewrite !app_nil_r; (split; [apply told_same|]).
      * apply told_or_cleared_same.
      * left; right; eauto.
      * apply told_or_cleared_same.
    + rewrite Hm0, He0, Hl0.
      split; [apply told_same|apply told_or_cleared_same].
  - (* timer *)
    apply step_timer_inversion in Hstep as (t & Hp & ->).
    destruct (callback t) as [i|].
    + rewrite fire_connectionTimeout. autorewrite with frame. cells.
      split; [apply told_same|apply told_or_cleared_same].
    + unfold fire. destruct (connectRef (clearTimeout id s)).
      * destruct (connect_mirror (clearTimeout id s)) as (Hm&Hr&He).
        cbv zeta in *. cells_in Hm. cells_in Hr. cells_in He.
        rewrite Hm, Hr. split; [apply told_same|left; exact He].
      * cells. split; [apply told_same|apply told_or_cleared_same].
  - (* sendMessage *)
    simpl in Hstep. injection Hstep as <-.
    destruct (sendMessage_frame ua message s) as (_&Hl&He&_). cbv zeta in *.
    rewrite Hl, He. split; [|apply told_or_cleared_same]. left.
    split; [|reflexivity].
    unfold sendMessage. destruct (webSocketRef s) as [i|]; [|reflexivity].
    destruct (current s) as [w|]; [|reflexivity].
    destruct (WebSocket.is_open w); [|reflexivity].
    destruct (WebSocket.send ua _ w); cells; autorewrite with frame;
      reflexivity.
  - (* reconnect *)
    simpl in Hstep. injection Hstep as <-. unfold reconnect.
    set (s4 := setError None _).
    assert (Hl4 : log s4 = log s).
    { unfold s4. cells. autorewrite with frame. cells.
      destruct (webSocketRef s); autorewrite with frame; reflexivity. }
    assert (Hm4 : lastMessage s4 = lastMessage s).
    { unfold s4. cells. autorewrite with frame. cells.
      destruct (webSocketRef s); autorewrite with frame; reflexivity. }
    assert (He4 : error s4 = None) by reflexivity.
    destruct (connectRef s4).
    + destruct (connect_mirror s4) as (Hm&Hr&He). cbv zeta in *.
      rewrite Hm, Hr, Hm4, Hl4. split; [apply told_same|].
      rewrite Hl4, He4 in He.
      destruct He as [(->& ->)|(m& ->& ->)];
        [right; auto|left; right; eauto].
    + rewrite Hm4, Hl4, He4. split; [apply told_same|]. right; auto.
  - (* unmount *)
    simpl in Hstep. injection Hstep as <-.
    destruct (cleanup_spec s) as (_&Hm&He&_&_&_&_&_&_&Hl&_).
    cbv zeta in *. rewrite Hm, He, Hl.
    split; [apply told_same|apply told_or_cleared_same].
Qed.

(** X11. The state the hook returns agrees with what it told its
    consumer.  In every reachable state [lastMessage] is the value most
    recently passed to [onMessage] (and null when there was none), and
    [error], when it is not null, is the error most recently passed to
    [onError]. *)
Theorem returned_state_mirrors_callbacks (s : State) :
  reachable ua opts s ->
  lastMessage s = last (received (log s)) /\
  (error s = None \/ error s = last (reported (log s))).
Proof.
  induction 1 as [|e s s' Hr [IHm IHe] Hstep].
  - unfold mounted, mount.
    destruct (connect_mirror (set_connectRef true initial)) as (Hm&Hr&He).
    cbv zeta in *. rewrite Hm, Hr. split; [reflexivity|].
    destruct He as [(->&_)|(m& ->& ->)]; [left; reflexivity|right].
    rewrite last_snoc. reflexivity.
  - destruct (step_mirror e s s' Hstep) as [Hm He]. split.
    + destruct Hm as [(->& ->)|(v& ->& ->)]; [exact IHm|].
      rewrite last_snoc. reflexivity.
    + destruct He as [[(->& ->)|(v& ->& ->)]|(->&_)].
      * exact IHe.
      * right. rewrite last_snoc. reflexivity.
      * left. reflexivity.
Qed.

End Mirror.

(** ** The alarm list *)

Section AlarmListFacts.
Import AlarmList.

Lemma same_alarm_refl a : same_alarm a a.
Proof. repeat split. Qed.

Lemma update_where_Forall2 alarmId prev : forall update,
  (forall k a, same_alarm (update k a) a) ->
  Forall2 (fun a' a => same_alarm a' a /\ (id a <> alarmId -> a' = a))
          (update_where alarmId update prev) prev.
Proof.
  induction prev as [|a prev IH]; intros update Hup; [constructor|].
  unfold update_where. rewrite imap_cons. constructor.
  - destruct (String.eqb_spec (id a) alarmId) as [E|E].
    + split; [apply Hup|]. intros Hne. contradiction.
    + split; [apply same_alarm_refl|reflexivity].
  - apply (IH (fun k => update (S k))). intros k b. apply Hup.
Qed.

Lemma Forall2_unchanged (P : Alarm -> Prop) l :
  Forall2 (fun a' a => same_alarm a' a /\ (P a -> a' = a)) l l.
Proof.
  induction l; constructor; auto. split; [apply same_alarm_refl|reflexivity].
Qed.

Lemma Forall2_all_unchanged (P : Alarm -> Prop) l' l :
  Forall2 (fun a' a => same_alarm a' a /\ (P a -> a' = a)) l' l ->
  (forall a, a ∈ l -> P a) -> l' = l.
Proof.
  induction 1 as [|a' a l' l [_ Ha] _ IH]; intros HP; [reflexivity|].
  rewrite Ha by (apply HP; left). f_equal. apply IH.
  intros b Hb. apply HP. right. exact Hb.
Qed.

Lemma same_alarm_acknowledge by_ a : same_alarm (acknowledge by_ a) a.
Proof. repeat split. Qed.

Lemma same_alarm_resolve at_ a : same_alarm (resolve at_ a) a.
Proof. repeat split. Qed.

(** X12. A status update never adds, drops or reorders alarms.  For
    every event other than an [alarm.created] message and the Clear
    button, the alarms after the event are the alarms before it,
    position by position, with the same id, site, severity, message,
    timestamp and type; an alarm whose id is not the one the event
    addresses is left exactly as it was, so an event that addresses an
    unknown id changes no alarm. *)
Theorem status_updates_touch_only_addressed_alarm (e : Event)
    (s s' : State) :
  step e s = Some s' ->
  is_created e = false -> e <> clear_clicked ->
  Forall2 (fun a' a =>
             same_alarm a' a /\ (Some (id a) <> addressed e s -> a' = a))
          (alarms s') (alarms s) /\
  ((forall a, a ∈ alarms s -> Some (id a) <> addressed e s) ->
   alarms s' = alarms s).
Proof.
  intros Hstep Hc Hclear.
  assert (H : Forall2 (fun a' a =>
                same_alarm a' a /\ (Some (id a) <> addressed e s -> a' = a))
                (alarms s') (alarms s)).
  { destruct e as [clock wsMsg|now alarmId|now clock alarmId| |k];
      simpl in Hstep.
    - injection Hstep as <-. simpl in Hc. unfold handleWebSocketMessage.
      rewrite Hc.
      destruct (String.eqb (event wsMsg) "alarm.acknowledged");
        [|destruct (String.eqb (event wsMsg) "alarm.resolved")]; simpl.
      + eapply Forall2_impl;
          [apply update_where_Forall2; intros; apply same_alarm_acknowledge|].
        intros a' a [? Hne]. split; [assumption|]. intros Hs. apply Hne.
        congruence.
      + eapply Forall2_impl;
          [apply update_where_Forall2; intros; apply same_alarm_resolve|].
        intros a' a [? Hne]. split; [assumption|]. intros Hs. apply Hne.
        congruence.
      + apply Forall2_unchanged.
    - destruct (_ && _); [|discriminate]. injection Hstep as <-. simpl.
      apply Forall2_unchanged.
    - destruct (bool_decide _); [|discriminate]. injection Hstep as <-.
      simpl.
      eapply Forall2_impl;
        [apply update_where_Forall2; intros; apply same_alarm_resolve|].
      intros a' a [? Hne]. split; [assumption|]. intros Hs. apply Hne.
      congruence.
    - contradiction.
    - destruct (timeouts s !! k) as [[cb ms]|] eqn:Hk; [|discriminate].
      simpl in Hstep. injection Hstep as <-. unfold addressed.
      rewrite Hk. destruct cb as [alarmId|alarmId]; simpl.
      + apply Forall2_unchanged.
      + eapply Forall2_impl;
          [apply update_where_Forall2; intros;
           apply same_alarm_acknowledge|].
        intros a' a [? Hne]. split; [assumption|]. intros Hs. apply Hne.
        congruence. }
  split; [exact H|]. intros Hall.
  apply (Forall2_all_unchanged _ _ _ H Hall).
Qed.

Lemma filter_status_after_clear (st : Status) (l : list Alarm) :
  filter (fun a => status a = st)
         (filter (fun a => status a <> resolved) l) =
  if decide (st = resolved) then []
  else filter (fun a => status a = st) l.
Proof.
  induction l as [|a l IH]; [destruct (decide _); reflexivity|].
  rewrite (filter_cons (fun a => status a <> resolved)).
  destruct (decide (status a <> resolved)) as [Hn|Hr].
  - rewrite !filter_cons, IH.
    destruct (decide (st = resolved)) as [->|Hst].
    + rewrite decide_False by exact Hn. reflexivity.
    + reflexivity.
  - rewrite IH, filter_cons. destruct (decide (st = resolved)); [reflexivity|].
    rewrite decide_False; [reflexivity|].
    intros E. apply Hr. congruence.
Qed.

(** X13. The Clear button removes exactly the resolved alarms: it
    empties the resolved section, leaves the active and the acknowledged
    sections as they are, keeps the remaining alarms in their order,
    touches neither set of ids, and pressing it again changes
    nothing. *)
Theorem clear_removes_exactly_resolved (s : State) :
  let s' := handleClearResolved s in
  resolvedAlarms s' = [] /\
  activeAlarms s' = activeAlarms s /\
  acknowledgedAlarms s' = acknowledgedAlarms s /\
  (forall a, a ∈ alarms s' <-> a ∈ alarms s /\ status a <> resolved) /\
  sublist (alarms s') (alarms s) /\
  newAlarmIds s' = newAlarmIds s /\
  isAcknowledging s' = isAcknowledging s /\
  handleClearResolved s' = s'.
Proof.
  intros s'. unfold resolvedAlarms, activeAlarms, acknowledgedAlarms.
  unfold s', handleClearResolved, setAlarms. simpl.
  rewrite !filter_status_after_clear.
  split; [reflexivity|]. split; [reflexivity|]. split; [reflexivity|].
  split; [intros a; rewrite list_elem_of_filter; tauto|].
  split; [apply sublist_filter|]. split; [reflexivity|].
  split; [reflexivity|]. f_equal.
  apply list_filter_filter_r. auto.
Qed.

(** X14. The three sections of the page show exactly the alarms whose
    status is one of the three declared ones, each of them once: those
    alarms are a permutation of the active, the acknowledged and the
    resolved ones, and the three counts in the section titles add up to
    their number.  An alarm that arrived with any other status is kept
    in the list and shown in no section.  When every alarm has a
    declared status the sections show every alarm exactly once. *)
Theorem alarm_sections_partition (s : State) :
  filter (fun a => declared (status a)) (alarms s) ≡ₚ
    activeAlarms s ++ acknowledgedAlarms s ++ resolvedAlarms s /\
  length (activeAlarms s) + length (acknowledgedAlarms s) +
    length (resolvedAlarms s) =
    length (filter (fun a => declared (status a)) (alarms s)) /\
  (forall a, ~ declared (status a) ->
             (a ∉ activeAlarms s) /\ (a ∉ acknowledgedAlarms s) /\
             (a ∉ resolvedAlarms s)) /\
  ((forall a, a ∈ alarms s -> declared (status a)) ->
   alarms s ≡ₚ
     activeAlarms s ++ acknowledgedAlarms s ++ resolvedAlarms s /\
   length (alarms s) =
     length (activeAlarms s) + length (acknowledgedAlarms s) +
     length (resolvedAlarms s)).
Proof.
  assert (H : filter (fun a => declared (status a)) (alarms s) ≡ₚ
              activeAlarms s ++ acknowledgedAlarms s ++ resolvedAlarms s).
  { unfold activeAlarms, acknowledgedAlarms, resolvedAlarms.
    induction (alarms s) as [|a l IH]; [reflexivity|].
    rewrite !filter_cons. destruct (status a) eqn:E.
    - rewrite (decide_True (P := declared active)) by exact Logic.I.
      rewrite decide_True, !decide_False by congruence. simpl.
      constructor. exact IH.
    - rewrite (decide_True (P := declared acknowledged)) by exact Logic.I.
      rewrite decide_False, decide_True, decide_False by congruence.
      rewrite <- app_comm_cons, <- Permutation_middle.
      constructor. exact IH.
    - rewrite (decide_True (P := declared resolved)) by exact Logic.I.
      rewrite !decide_False, decide_True by congruence.
      rewrite app_assoc, <- Permutation_middle, <- app_assoc.
      constructor. exact IH.
    - rewrite (decide_False (P := declared (other value)))
        by exact (fun F : False => F).
      rewrite !decide_False by congruence. exact IH. }
  assert (Hall : (forall a, a ∈ alarms s -> declared (status a)) ->
                 filter (fun a => declared (status a)) (alarms s) =
                 alarms s).
  { clear H. induction (alarms s) as [|a l IH]; intros Hd; [reflexivity|].
    rewrite filter_cons, decide_True by (apply Hd; left).
    f_equal. apply IH. intros b Hb. apply Hd. right. exact Hb. }
  split; [exact H|]. split; [rewrite H, !length_app; lia|]. split.
  - intros a Hn. unfold activeAlarms, acknowledgedAlarms, resolvedAlarms.
    rewrite !list_elem_of_filter.
    repeat split; intros [E _]; apply Hn; rewrite E; exact Logic.I.
  - intros Hd. rewrite (Hall Hd) in H. split; [exact H|].
    apply Permutation_length in H. rewrite !length_app in H. lia.
Qed.

Lemma elem_of_delete_other (cb' cb : Timeout * Z)
    (l : list (Timeout * Z)) : forall k : nat,
  cb' ∈ l -> l !! k = Some cb -> cb' <> cb -> cb' ∈ delete k l.
Proof.
  induction l as [|x l IH]; intros k Hin Hk Hne; [inversion Hin|].
  destruct k as [|k]; simpl in *.
  - injection Hk as ->. apply elem_of_cons in Hin as [->|Hin];
      [contradiction|exact Hin].
  - apply elem_of_cons in Hin as [->|Hin]; [left|right].
    apply (IH k Hin Hk Hne).
Qed.

(** X15. A visual flag never outlives its timer.  In every state the
    mounted component can reach, each id highlighted as new has a
    pending 3 s timer that will remove the highlight, and each id shown
    as being acknowledged has a pending 500 ms timer that will finish
    the acknowledgement and re-enable the button. *)
Theorem flags_have_a_pending_timer (stamp : nat -> string) (s : State) :
  reachable stamp s ->
  (forall x, x ∈ newAlarmIds s ->
             (unhighlight x, 3000%Z) ∈ timeouts s) /\
  (forall x, x ∈ isAcknowledging s ->
             (simulated_response x, 500%Z) ∈ timeouts s).
Proof.
  induction 1 as [|e s s' Hr [IHn IHa] Hstep].
  - split; intros x Hx; simpl in Hx; set_solver.
  - destruct e as [clock wsMsg|now alarmId|now clock alarmId| |k];
      simpl in Hstep.
    + injection Hstep as <-. unfold handleWebSocketMessage.
      destruct (String.eqb (event wsMsg) "alarm.created").
      * simpl. split; intros x Hx; apply elem_of_app.
        -- apply elem_of_union in Hx as [Hx|Hx]; [left; auto|right].
           apply elem_of_singleton in Hx as ->. left.
        -- left. auto.
      * destruct (String.eqb (event wsMsg) "alarm.acknowledged");
          [|destruct (String.eqb (event wsMsg) "alarm.resolved")];
          simpl; auto.
    + destruct (_ && _); [|discriminate]. injection Hstep as <-. simpl.
      split; intros x Hx; apply elem_of_app.
      * left. auto.
      * apply elem_of_union in Hx as [Hx|Hx]; [left; auto|right].
        apply elem_of_singleton in Hx as ->. left.
    + destruct (bool_decide _); [|discriminate]. injection Hstep as <-.
      simpl. auto.
    + destruct (bool_decide _); [discriminate|]. injection Hstep as <-.
      simpl. auto.
    + destruct (timeouts s !! k) as [[cb ms]|] eqn:Hk; [|discriminate].
      simpl in Hstep. injection Hstep as <-.
      destruct cb as [y|y]; simpl; split; intros x Hx.
      * apply elem_of_difference in Hx as [Hx Hne].
        apply (elem_of_delete_other _ _ _ k (IHn x Hx) Hk).
        intros E. apply Hne. injection E as ->. apply elem_of_singleton.
        reflexivity.
      * apply (elem_of_delete_other _ _ _ k (IHa x Hx) Hk). discriminate.
      * apply (elem_of_delete_other _ _ _ k (IHn x Hx) Hk). discriminate.
      * apply elem_of_difference in Hx as [Hx Hne].
        apply (elem_of_delete_other _ _ _ k (IHa x Hx) Hk).
        intros E. apply Hne. injection E as ->. apply elem_of_singleton.
        reflexivity.
Qed.

End AlarmListFacts.


(** ** What only a socket's own close event can do *)




Section OwnClose.

Variable ua : UserAgent.
Variable opts : Options.






End OwnClose.

(** ** The corrected claims on concrete runs *)




(** ** The properties at work on concrete runs *)

Lemma only_current_handle_is_active_witness :
  exists s,
    step reliable_agent demo_options call_reconnect
      (mounted reliable_agent demo_options) = Some s /\
    length (sockets s) = 2 /\
    length (List.filter active (sockets s)) <= 1.
Proof.
  eexists. split; [vm_compute; reflexivity|].
  split; [vm_compute; reflexivity|].
  pose proof (reachable_mounted reliable_agent demo_options) as R0.
  epose proof (reachable_step reliable_agent demo_options call_reconnect
                 (mounted reliable_agent demo_options) _ R0
                 ltac:(vm_compute; reflexivity)) as R1.
  pose proof (only_current_handle_is_active reliable_agent demo_options _ R1)
    as (_ & H & _).
  exact H.
Defined.

Lemma isConnected_means_current_handle_live_witness :
  exists s,
    step reliable_agent demo_options (ev_open 0)
      (mounted reliable_agent demo_options) = Some s /\
    isConnected s = true /\
    exists i w,
      webSocketRef s = Some i /\ socket i s = Some w /\
      WebSocket.listeners w = true /\
      (WebSocket.readyState w = WebSocket.OPEN \/
       WebSocket.readyState w = WebSocket.CLOSING).
Proof.
  eexists. split; [vm_compute; reflexivity|].
  split; [vm_compute; reflexivity|].
  pose proof (reachable_mounted reliable_agent demo_options) as R0.
  epose proof (reachable_step reliable_agent demo_options (ev_open 0)
                 (mounted reliable_agent demo_options) _ R0
                 ltac:(vm_compute; reflexivity)) as R1.
  exact (isConnected_means_current_handle_live reliable_agent demo_options _
           R1 ltac:(vm_compute; reflexivity)).
Defined.

Lemma onDisconnect_once_per_closed_socket_witness :
  exists s,
    step reliable_agent demo_options (ev_close 0)
      (mounted reliable_agent demo_options) = Some s /\
    length (closed_sockets s) = 1 /\
    disconnects (log s) = length (closed_sockets s).
Proof.
  eexists. split; [vm_compute; reflexivity|].
  split; [vm_compute; reflexivity|].
  pose proof (reachable_mounted reliable_agent demo_options) as R0.
  epose proof (reachable_step reliable_agent demo_options (ev_close 0)
                 (mounted reliable_agent demo_options) _ R0
                 ltac:(vm_compute; reflexivity)) as R1.
  exact (onDisconnect_once_per_closed_socket reliable_agent demo_options _ R1).
Defined.

Lemma retry_counter_and_delays_bounded_witness :
  exists s,
    step reliable_agent demo_options (ev_close 0)
      (mounted reliable_agent demo_options) = Some s /\
    retry_delays (log s) = [1000%Z] /\
    (0 <= retriesRef s <= Z.max 0 (maxRetries demo_options))%Z /\
    on_ladder demo_options (retry_delays (log s)).
Proof.
  eexists. split; [vm_compute; reflexivity|].
  split; [vm_compute; reflexivity|].
  pose proof (reachable_mounted reliable_agent demo_options) as R0.
  epose proof (reachable_step reliable_agent demo_options (ev_close 0)
                 (mounted reliable_agent demo_options) _ R0
                 ltac:(vm_compute; reflexivity)) as R1.
  pose proof (retry_counter_and_delays_bounded reliable_agent demo_options _
                R1) as (H1 & H2 & _).
  split; [exact H1|exact H2].
Defined.

Lemma no_retry_when_reconnect_disabled_witness :
  exists s,
    step reliable_agent manual_options (ev_close 0)
      (mounted reliable_agent manual_options) = Some s /\
    shouldReconnect manual_options = false /\
    retriesRef s = 0%Z /\ retry_delays (log s) = [] /\ retry_timers s = [].
Proof.
  eexists. split; [vm_compute; reflexivity|].
  split; [reflexivity|].
  pose proof (reachable_mounted reliable_agent manual_options) as R0.
  epose proof (reachable_step reliable_agent manual_options (ev_close 0)
                 (mounted reliable_agent manual_options) _ R0
                 ltac:(vm_compute; reflexivity)) as R1.
  exact (no_retry_when_reconnect_disabled reliable_agent manual_options _
           eq_refl R1).
Defined.

Lemma sends_while_open_go_out_in_order_witness :
  exists s w,
    step reliable_agent demo_options (ev_open 0)
      (mounted reliable_agent demo_options) = Some s /\
    socket 0 s = Some w /\
    exists s',
      run reliable_agent demo_options
        (call_sendMessage <$> [json "{}"; undefined]) s = Some s' /\
      socket 0 s' =
        Some (WebSocket.set_sent
                (WebSocket.sent w ++ (JSON_stringify <$> [json "{}"; undefined]))
                w) /\
      (forall j, j <> 0 -> socket j s' = socket j s) /\
      messageQueueRef s' = messageQueueRef s /\
      error s' = error s /\ log s' = log s.
Proof.
  eexists. eexists. split; [vm_compute; reflexivity|].
  split; [vm_compute; reflexivity|].
  match goal with
  | |- exists s', run _ _ _ ?s = Some s' /\ _ = Some (_ (_ ?w ++ _) _) /\ _ =>
      exact (sends_while_open_go_out_in_order reliable_agent demo_options
               [json "{}"; undefined] s 0 w
               ltac:(vm_compute; reflexivity) ltac:(vm_compute; reflexivity)
               ltac:(vm_compute; reflexivity) ltac:(vm_compute; reflexivity))
  end.
Defined.

Lemma unmount_closes_and_cancels_witness :
  exists s,
    step reliable_agent demo_options (ev_close 0)
      (mounted reliable_agent demo_options) = Some s /\
    retryTimeoutRef s = Some 2 /\
    pending 2 s = Some {| callback := retry; delay := 1000 |} /\
    pending 2 (cleanup s) = None /\
    cleanup (cleanup s) = cleanup s /\
    retry_timers (cleanup s) = [].
Proof.
  eexists. split; [vm_compute; reflexivity|].
  split; [vm_compute; reflexivity|]. split; [vm_compute; reflexivity|].
  pose proof (reachable_mounted reliable_agent demo_options) as R0.
  epose proof (reachable_step reliable_agent demo_options (ev_close 0)
                 (mounted reliable_agent demo_options) _ R0
                 ltac:(vm_compute; reflexivity)) as R1.
  pose proof (orderly_mounted reliable_agent demo_options) as O0.
  epose proof (orderly_step reliable_agent demo_options (ev_close 0)
                 (mounted reliable_agent demo_options) _ O0
                 ltac:(intros E; discriminate E)
                 ltac:(vm_compute; reflexivity)) as O1.
  pose proof (unmount_closes_and_cancels reliable_agent demo_options _ R1)
    as (_ & H2 & H3 & H4).
  split; [exact (H2 2 ltac:(vm_compute; reflexivity))|].
  split; [exact H3|exact (H4 O1)].
Defined.

Lemma connection_timeout_cancelled_by_handlers_witness :
  exists w s',
    socket 0 (mounted reliable_agent demo_options) = Some w /\
    pending (WebSocket.connectionTimeoutId w)
      (mounted reliable_agent demo_options) =
      Some {| callback := connectionTimeout 0; delay := 5000 |} /\
    step reliable_agent demo_options (ev_open 0)
      (mounted reliable_agent demo_options) = Some s' /\
    pending (WebSocket.connectionTimeoutId w) s' = None.
Proof.
  eexists. eexists. split; [vm_compute; reflexivity|].
  split; [vm_compute; reflexivity|]. split; [vm_compute; reflexivity|].
  match goal with
  | |- pending (_ ?w) ?s' = None =>
      exact (connection_timeout_cancelled_by_handlers
               reliable_agent demo_options (ev_open 0) 0 w
               (mounted reliable_agent demo_options) s'
               (reachable_mounted reliable_agent demo_options)
               ltac:(vm_compute; reflexivity) ltac:(vm_compute; reflexivity)
               (or_introl eq_refl) ltac:(vm_compute; reflexivity))
  end.
Defined.

Lemma open_restarts_backoff_witness :
  exists s w s1 s2 s3,
    run reliable_agent demo_options [ev_close 0; ev_timer 2]
      (mounted reliable_agent demo_options) = Some s /\
    retriesRef s = 1%Z /\ retry_delays (log s) = [1000%Z] /\
    socket 1 s = Some w /\
    step reliable_agent demo_options (ev_open 1) s = Some s1 /\
    run reliable_agent demo_options [call_sendMessage (json "{}")] s1 =
      Some s2 /\
    step reliable_agent demo_options (ev_close 1) s2 = Some s3 /\
    retriesRef s3 = 1%Z /\
    retry_delays (log s3) = retry_delays (log s) ++ [retryDelay demo_options].
Proof.
  do 5 eexists. split; [vm_compute; reflexivity|].
  split; [vm_compute; reflexivity|]. split; [vm_compute; reflexivity|].
  split; [vm_compute; reflexivity|]. split; [vm_compute; reflexivity|].
  split; [vm_compute; reflexivity|]. split; [vm_compute; reflexivity|].
  match goal with
  | |- retriesRef ?s3 = _ /\ _ = retry_delays (log ?s) ++ _ =>
      epose proof (open_restarts_backoff reliable_agent demo_options 1 _
                     [call_sendMessage (json "{}")] s _ _ s3
                     ltac:(reflexivity) ltac:(reflexivity)
                     ltac:(vm_compute; reflexivity)
                     ltac:(vm_compute; reflexivity)
                     ltac:(vm_compute; reflexivity) ltac:(reflexivity)
                     ltac:(vm_compute; reflexivity)
                     ltac:(vm_compute; reflexivity)) as (_ & _ & H3 & H4)
  end.
  split; [exact H3|exact H4].
Defined.

Lemma returned_state_mirrors_callbacks_witness :
  exists s,
    run reliable_agent demo_options [ev_open 0; ev_message 0 "{}"]
      (mounted reliable_agent demo_options) = Some s /\
    lastMessage s = Some "{}" /\
    lastMessage s = last (received (log s)).
Proof.
  eexists. split; [vm_compute; reflexivity|].
  split; [vm_compute; reflexivity|].
  pose proof (reachable_mounted reliable_agent demo_options) as R0.
  epose proof (reachable_step reliable_agent demo_options (ev_open 0)
                 (mounted reliable_agent demo_options) _ R0
                 ltac:(vm_compute; reflexivity)) as R1.
  epose proof (reachable_step reliable_agent demo_options
                 (ev_message 0 "{}") _ _ R1
                 ltac:(vm_compute; reflexivity)) as R2.
  exact (proj1 (returned_state_mirrors_callbacks
                  reliable_agent demo_options _ R2)).
Defined.

Lemma status_updates_touch_only_addressed_alarm_witness :
  exists s',
    AlarmList.step
      (AlarmList.message_received (fun _ => "") acknowledged_message)
      (AlarmList.mounted (fun _ => "")) = Some s' /\
    Forall2 (fun a' a =>
               AlarmList.same_alarm a' a /\
               (Some (AlarmList.id a) <>
                AlarmList.addressed
                  (AlarmList.message_received (fun _ => "")
                     acknowledged_message)
                  (AlarmList.mounted (fun _ => "")) -> a' = a))
            (AlarmList.alarms s')
            (AlarmList.alarms (AlarmList.mounted (fun _ => ""))).
Proof.
  eexists. split; [reflexivity|].
  exact (proj1 (status_updates_touch_only_addressed_alarm
                  (AlarmList.message_received (fun _ => "")
                     acknowledged_message)
                  (AlarmList.mounted (fun _ => "")) _ eq_refl
                  ltac:(vm_compute; reflexivity)
                  ltac:(discriminate))).
Defined.

(** The list after an alarm with the status ['escalated'] has arrived:
    six alarms, five of them shown. *)
Lemma alarm_sections_partition_witness :
  let s := AlarmList.handleWebSocketMessage (fun _ => "") escalated_message
             (AlarmList.mounted (fun _ => "")) in
  length (AlarmList.alarms s) = 6 /\
  length (AlarmList.activeAlarms s) + length (AlarmList.acknowledgedAlarms s) +
    length (AlarmList.resolvedAlarms s) = 5 /\
  AlarmList.data escalated_message ∈ AlarmList.alarms s /\
  (AlarmList.data escalated_message ∉ AlarmList.activeAlarms s) /\
  (AlarmList.data escalated_message ∉ AlarmList.acknowledgedAlarms s) /\
  (AlarmList.data escalated_message ∉ AlarmList.resolvedAlarms s).
Proof.
  intros s.
  pose proof (alarm_sections_partition s) as (_ & H2 & H3 & _).
  split; [reflexivity|]. split; [rewrite H2; reflexivity|].
  split; [left|].
  exact (H3 (AlarmList.data escalated_message) (fun F : False => F)).
Defined.

Lemma flags_have_a_pending_timer_witness :
  "alarm-006" ∈
    AlarmList.newAlarmIds
      (AlarmList.handleWebSocketMessage (fun _ => "") created_message
         (AlarmList.mounted (fun _ => ""))) /\
  (AlarmList.unhighlight "alarm-006", 3000%Z) ∈
    AlarmList.timeouts
      (AlarmList.handleWebSocketMessage (fun _ => "") created_message
         (AlarmList.mounted (fun _ => ""))).
Proof.
  assert (H : "alarm-006" ∈
              AlarmList.newAlarmIds
                (AlarmList.handleWebSocketMessage (fun _ => "") created_message
                   (AlarmList.mounted (fun _ => "")))).
  { apply elem_of_union_r, elem_of_singleton. reflexivity. }
  split; [exact H|].
  exact (proj1 (flags_have_a_pending_timer (fun _ => "") _
                  (AlarmList.reachable_step (fun _ => "")
                     (AlarmList.message_received (fun _ => "") created_message)
                     (AlarmList.mounted (fun _ => "")) _
                     (AlarmList.reachable_mounted _) eq_refl))
               "alarm-006" H).
Defined.
